(** * Prepack: symbolic values, the effect recorder and the prelude generator

    A shallow embedding of [src/utils/generator.js] ([Generator],
    [PreludeGenerator], [copyPG]) and of [values/AbstractValue.js]
    ([AbstractValue]), with the properties the specification states
    about them.

    Objects that the JavaScript code mutates in place or compares by
    identity live in explicit stores, keyed by location: the containers of
    a [PreludeGenerator] (its [prelude] array, [derivedIds] set and
    [memoisedRefs] map), the [PreludeGenerator] instances themselves, the
    value objects and the [Array<Value>] objects holding dependencies.
    Babel AST nodes are never mutated by this code and are embedded as an
    inductive type. *)

From Stdlib Require Import NArith Ascii String List Lia.
From stdpp Require Import base option list gmap strings.

Set Warnings "-register-all".

Local Open Scope string_scope.
Local Open Scope N_scope.
Local Open Scope list_scope.

(** ** Babel AST nodes ([babel-types] builders used by the sources) *)

Module t.

Inductive Expr : Type :=
| identifier (name : string)
| memberExpression (object property : Expr)
| stringLiteral (value : string)
| booleanLiteral (value : bool)
| nullLiteral
| unaryExpression (operator : string) (argument : Expr)
| binaryExpression (operator : string) (left right : Expr)
| logicalExpression (operator : string) (left right : Expr)
| conditionalExpression (test consequent alternate : Expr)
| assignmentExpression (operator : string) (left right : Expr)
| callExpression (callee : Expr) (arguments : list Expr)
| newExpression (callee : Expr) (arguments : list Expr)
| objectExpression (properties : list (Expr * Expr))
| undefinedNode.

Inductive Declarator : Type :=
| variableDeclarator (id init : Expr).

Inductive Stmt : Type :=
| variableDeclaration (kind : string) (declarations : list Declarator)
| expressionStatement (expression : Expr)
| ifStatement (test : Expr) (consequent : Stmt)
| blockStatement (body : list Stmt)
| throwStatement (argument : Expr).

(** [t.objectProperty(key, value)]: object properties are the pairs listed
    in an [objectExpression]. *)
Definition objectProperty (key value : Expr) : Expr * Expr := (key, value).

End t.

(** [nodes[i]] on a JavaScript array, also what a destructuring pattern
    [([a, b]) => ...] binds: the element, or [undefined] past the end. The
    serializer calls a [buildNode] with one node per element of [args], and
    then every index a builder reads is present. Past the end the embedding
    goes on with [t.undefinedNode], whereas the [babel-types] builders throw a
    [TypeError] when a required child is missing: what is proved about the
    builders of the [emit*] operations and of the checks of [derive] is
    proved on node lists with one node per dependency. *)
Definition node_at (nodes : list t.Expr) (i : nat) : t.Expr :=
  nth i nodes t.undefinedNode.

(** ** Strings: [split], and the [base62] package *)

(** [str.split(sep)] for a one-character separator: the segments between
    the occurrences of [sep]; never empty, [""] gives [[""]]. *)
Fixpoint split (sep : ascii) (str : string) : list string :=
  match str with
  | EmptyString => [EmptyString]
  | String c rest =>
      if Ascii.eqb c sep then EmptyString :: split sep rest
      else match split sep rest with
           | [] => [String c EmptyString]
           | seg :: segs => String c seg :: segs
           end
  end.

(** [segments.join(sep)], the inverse of [split]. *)
Fixpoint join (sep : ascii) (segs : list string) : string :=
  match segs with
  | [] => EmptyString
  | [seg] => seg
  | seg :: rest => String.append seg (String sep (join sep rest))
  end.

Module base62.

(** Modelled from the spec: "base-62 encoding of uidCounter". The encoder is
    the [base62] npm package, which is not part of the sources; this is its
    [encode] over its default character set: ["0"] for zero, otherwise the
    base-62 digits, most significant first, built by repeated [% 62] and
    [Math.floor(/ 62)]. *)
Definition chars : string :=
  "0123456789abcdefghijklmnopqrstuvwxyzABCDEFGHIJKLMNOPQRSTUVWXYZ".

Definition char_at (d : N) : ascii :=
  nth (N.to_nat d) (list_ascii_of_string chars) "0"%char.

Fixpoint encode_loop (fuel : nat) (int : N) (s : string) : string :=
  match fuel with
  | O => s
  | S fuel' =>
      if int =? 0 then s
      else encode_loop fuel' (int / 62) (String (char_at (int mod 62)) s)
  end.

Definition encode (int : N) : string :=
  if int =? 0 then "0" else encode_loop (N.size_nat int) int "".

(** Position of a character in [chars] ([0] for a foreign character), and
    the number a digit string denotes; used to show [encode] injective. *)
Fixpoint index_in (l : list ascii) (c : ascii) : N :=
  match l with
  | [] => 0
  | x :: l' => if Ascii.eqb x c then 0 else N.succ (index_in l' c)
  end.

Definition char_value (c : ascii) : N :=
  let i := index_in (list_ascii_of_string chars) c in
  if i <? 62 then i else 0.

Fixpoint decode_from (acc : N) (s : string) : N :=
  match s with
  | EmptyString => acc
  | String c s' => decode_from (acc * 62 + char_value c) s'
  end.

Definition decode (s : string) : N := decode_from 0 s.

End base62.

(** The name [generateUid] mints at counter value [c]:
    ["_" + base62.encode(c)]. *)
Definition uid (c : N) : string := String "_" (base62.encode c).

(** ** Faults and the state monad of the embedding *)

(** [InvariantViolation]: a failed [invariant(...)], the internal-consistency
    fault. [DanglingReference]: a location with no object in the store, which
    no JavaScript execution produces; operations of the model report it
    instead of inventing a value. *)
Inductive fault : Type :=
| InvariantViolation
| DanglingReference.

Inductive result (A : Type) : Type :=
| Ok (a : A)
| Throw (f : fault).

Arguments Ok {A} a.
Arguments Throw {A} f.

(** A computation over a store [S]. The store is returned in both cases:
    what a JavaScript function has mutated before it throws stays mutated. *)
Definition M (S A : Type) : Type := S -> result A * S.

Definition ret {S A : Type} (a : A) : M S A := fun s => (Ok a, s).

Definition bind {S A B : Type} (m : M S A) (k : A -> M S B) : M S B :=
  fun s =>
    match m s with
    | (Ok a, s') => k a s'
    | (Throw f, s') => (Throw f, s')
    end.

Definition throw {S A : Type} (f : fault) : M S A := fun s => (Throw f, s).

Definition getState {S : Type} : M S S := fun s => (Ok s, s).

Definition modify {S : Type} (f : S -> S) : M S unit := fun s => (Ok tt, f s).

(** [invariant(cond)] of [invariant.js]. *)
Definition invariant {S : Type} (cond : bool) : M S unit :=
  if cond then ret tt else throw InvariantViolation.

Definition demand {S A : Type} (o : option A) : M S A :=
  match o with
  | Some a => ret a
  | None => throw DanglingReference
  end.

(** Run a computation of a component store inside a larger store. *)
Definition zoom {S T A : Type} (proj : T -> S) (upd : S -> T -> T)
    (m : M S A) : M T A :=
  fun st => let (r, s') := m (proj st) in (r, upd s' st).

Notation "'let!' x ':=' m 'in' k" := (bind m (fun x => k))
  (at level 10, x pattern, m at level 100, k at level 200).

(** ** The prelude generator *)

Abbreviation loc := positive (only parsing).

(** [uidCounter] is a JavaScript number, that is a double, which starts at
    [0] and changes only by [++] and by being copied. Below [2^53] the
    increment is exact. At [2^53] the sum [2^53 + 1] is not a double and
    rounds back to [2^53] (ties go to the even mantissa), so [++] leaves the
    counter where it is: the counter holds the integers from [0] to [2^53]
    and nothing else. *)
Definition maxCounter : N := 9007199254740992.

Definition increment (c : N) : N := if c <? maxCounter then c + 1 else c.

(** A [PreludeGenerator] instance: three references to container objects
    and the counter. *)
Record PreludeGenerator : Type := mkPreludeGenerator {
  prelude : loc;
  derivedIds : loc;
  memoisedRefs : loc;
  uidCounter : N
}.

(** The store of the prelude generators: [Array<BabelNodeStatement>]
    objects, [Set<BabelNodeIdentifier>] objects, [Map<string, node>] objects
    and [PreludeGenerator] instances. A JavaScript [Set] of nodes compares
    by identity and keeps insertion order; every node added to [derivedIds]
    is a new object, so [add] always inserts and the set is kept as the list
    of its elements in insertion order. *)
Record Heap : Type := mkHeap {
  stmtArrays : gmap positive (list t.Stmt);
  idSets : gmap positive (list t.Expr);
  refMaps : gmap positive (gmap string t.Expr);
  instances : gmap positive PreludeGenerator
}.

Definition emptyHeap : Heap := mkHeap ∅ ∅ ∅ ∅.

Definition set_stmtArrays (f : gmap positive (list t.Stmt) -> gmap positive (list t.Stmt))
    (h : Heap) : Heap :=
  mkHeap (f (stmtArrays h)) (idSets h) (refMaps h) (instances h).

Definition set_idSets (f : gmap positive (list t.Expr) -> gmap positive (list t.Expr))
    (h : Heap) : Heap :=
  mkHeap (stmtArrays h) (f (idSets h)) (refMaps h) (instances h).

Definition set_refMaps
    (f : gmap positive (gmap string t.Expr) -> gmap positive (gmap string t.Expr))
    (h : Heap) : Heap :=
  mkHeap (stmtArrays h) (idSets h) (f (refMaps h)) (instances h).

Definition set_instances
    (f : gmap positive PreludeGenerator -> gmap positive PreludeGenerator)
    (h : Heap) : Heap :=
  mkHeap (stmtArrays h) (idSets h) (refMaps h) (f (instances h)).

(** Allocation: a location that holds no object of that kind yet. *)
Definition newArray (content : list t.Stmt) : M Heap loc :=
  fun h => let l := fresh (dom (stmtArrays h)) in
           (Ok l, set_stmtArrays (insert l content) h).

Definition newSet (content : list t.Expr) : M Heap loc :=
  fun h => let l := fresh (dom (idSets h)) in
           (Ok l, set_idSets (insert l content) h).

Definition newMap (content : gmap string t.Expr) : M Heap loc :=
  fun h => let l := fresh (dom (refMaps h)) in
           (Ok l, set_refMaps (insert l content) h).

Definition newInstance (pg : PreludeGenerator) : M Heap loc :=
  fun h => let l := fresh (dom (instances h)) in
           (Ok l, set_instances (insert l pg) h).

(** Reads and in-place writes through a reference. *)
Definition readArray (a : loc) : M Heap (list t.Stmt) :=
  let! h := getState in demand (stmtArrays h !! a).

Definition readSet (a : loc) : M Heap (list t.Expr) :=
  let! h := getState in demand (idSets h !! a).

Definition readMap (a : loc) : M Heap (gmap string t.Expr) :=
  let! h := getState in demand (refMaps h !! a).

Definition readInstance (this : loc) : M Heap PreludeGenerator :=
  let! h := getState in demand (instances h !! this).

Definition writeArray (a : loc) (content : list t.Stmt) : M Heap unit :=
  let! _ := readArray a in modify (set_stmtArrays (insert a content)).

Definition writeSet (a : loc) (content : list t.Expr) : M Heap unit :=
  let! _ := readSet a in modify (set_idSets (insert a content)).

Definition writeMap (a : loc) (content : gmap string t.Expr) : M Heap unit :=
  let! _ := readMap a in modify (set_refMaps (insert a content)).

(** [this.field = x] on a [PreludeGenerator] instance. *)
Definition with_prelude (p : loc) (pg : PreludeGenerator) : PreludeGenerator :=
  mkPreludeGenerator p (derivedIds pg) (memoisedRefs pg) (uidCounter pg).

Definition with_derivedIds (d : loc) (pg : PreludeGenerator) : PreludeGenerator :=
  mkPreludeGenerator (prelude pg) d (memoisedRefs pg) (uidCounter pg).

Definition with_memoisedRefs (m : loc) (pg : PreludeGenerator) : PreludeGenerator :=
  mkPreludeGenerator (prelude pg) (derivedIds pg) m (uidCounter pg).

Definition with_uidCounter (c : N) (pg : PreludeGenerator) : PreludeGenerator :=
  mkPreludeGenerator (prelude pg) (derivedIds pg) (memoisedRefs pg) c.

Definition assign (this : loc) (f : PreludeGenerator -> PreludeGenerator) : M Heap unit :=
  let! pg := readInstance this in
  modify (set_instances (insert this (f pg))).

(** [array.push(x)], [set.add(x)] and [map.set(k, x)] on the object behind
    a reference. *)
Definition push (a : loc) (x : t.Stmt) : M Heap unit :=
  let! content := readArray a in writeArray a (content ++ [x]).

Definition add (a : loc) (x : t.Expr) : M Heap unit :=
  let! content := readSet a in writeSet a (content ++ [x]).

Definition mapSet (a : loc) (key : string) (x : t.Expr) : M Heap unit :=
  let! content := readMap a in writeMap a (<[key := x]> content).

Module PreludeGenerator.

(** [new PreludeGenerator()] *)
Definition new : M Heap loc :=
  let! p := newArray [] in
  let! d := newSet [] in
  let! m := newMap ∅ in
  newInstance (mkPreludeGenerator p d m 0).

(** [copyPG(from, to)]: each field of [to] is assigned a new container
    holding the elements of the corresponding container of [from]. *)
Definition copyPG (from to : loc) : M Heap unit :=
  let! f := readInstance from in
  let! content := readArray (prelude f) in
  let! p := newArray content in
  let! _ := assign to (with_prelude p) in
  let! f := readInstance from in
  let! content := readSet (derivedIds f) in
  let! d := newSet content in
  let! _ := assign to (with_derivedIds d) in
  let! f := readInstance from in
  let! content := readMap (memoisedRefs f) in
  let! m := newMap content in
  let! _ := assign to (with_memoisedRefs m) in
  let! f := readInstance from in
  assign to (with_uidCounter (uidCounter f)).

(** [convertStringToMember(str)]: [reduce] without an initial value starts
    from the first segment; [split] never returns an empty array. *)
Definition convertStringToMember (str : string) : t.Expr :=
  match map t.identifier (split "." str) with
  | [] => t.undefinedNode
  | first :: rest => fold_left (fun obj prop => t.memberExpression obj prop) rest first
  end.

(** [generateUid()]: [this.uidCounter++] is the old value, and the counter is
    incremented as a double is. *)
Definition generateUid (this : loc) : M Heap string :=
  let! pg := readInstance this in
  let! _ := assign this (with_uidCounter (increment (uidCounter pg))) in
  ret (String "_" (base62.encode (uidCounter pg))).

(** [memoiseReference(key)] *)
Definition memoiseReference (this : loc) (key : string) : M Heap t.Expr :=
  let! pg := readInstance this in
  let! refs := readMap (memoisedRefs pg) in
  match refs !! key with
  | Some ref => ret ref
  | None =>
      let! name := generateUid this in
      let ref := t.identifier name in
      let! pg := readInstance this in
      let! _ := push (prelude pg)
        (t.variableDeclaration "var"
           [t.variableDeclarator ref (convertStringToMember key)]) in
      let! pg := readInstance this in
      let! _ := mapSet (memoisedRefs pg) key ref in
      ret ref
  end.

(** [save()] *)
Definition save (this : loc) : M Heap loc :=
  let! saved := new in
  let! _ := copyPG this saved in
  ret saved.

(** [restore(saved)] *)
Definition restore (this saved : loc) : M Heap unit :=
  copyPG saved this.

End PreludeGenerator.

(** [this.derivedIds.add(id)] on a prelude generator, as [derive] does it. *)
Definition addDerivedId (this : loc) (id : t.Expr) : M Heap unit :=
  let! pg := readInstance this in add (derivedIds pg) id.

(** What can be observed of a prelude generator: the contents of its four
    fields, read through the references. *)
Record PGView : Type := mkPGView {
  preludeOf : list t.Stmt;
  derivedIdsOf : list t.Expr;
  memoisedRefsOf : gmap string t.Expr;
  uidCounterOf : N
}.

Definition view (h : Heap) (this : loc) : option PGView :=
  match instances h !! this with
  | None => None
  | Some pg =>
      match stmtArrays h !! prelude pg, idSets h !! derivedIds pg,
            refMaps h !! memoisedRefs pg with
      | Some p, Some d, Some m => Some (mkPGView p d m (uidCounter pg))
      | _, _, _ => None
      end
  end.

(** ** Value classes and domains *)

(** The value classes the sources compare against with [===]. [Value], the
    root class, is what [getType()] answers when the type is not known. *)
Inductive ValueClass : Type :=
| Value
| ConcreteValue
| EmptyValue
| UndefinedValue
| NullValue
| BooleanValue
| StringValue
| SymbolValue
| NumberValue
| ObjectValue
| FunctionValue
| OtherClass (name : string).

#[global] Instance ValueClass_eq_dec : EqDecision ValueClass.
Proof. solve_decision. Defined.

Definition same_class (a b : ValueClass) : bool := bool_decide (a = b).

(** Modelled from the spec: the type domain is an external collaborator
    ([domains/index.js] is not part of the sources); "[getType()] returns
    either a concrete-type tag or unknown". [new TypesDomain(c)] is
    [mkTypesDomain c]. *)
Record TypesDomain : Type := mkTypesDomain { getType : ValueClass }.

Module ValuesDomain.

(** Modelled from the spec: the value domain is an external collaborator,
    used only through its query contract: the membership queries, the
    sentinel promotion and the top element [ValuesDomain.topVal]. *)
Class Algebra (T : Type) : Type := {
  topVal : T;
  includesValueOfType : T -> ValueClass -> bool;
  includesValueNotOfType : T -> ValueClass -> bool;
  promoteEmptyToUndefined : T -> T
}.

(** Modelled from the spec: one such algebra, used to run the operations
    on concrete inputs: a domain is either unconstrained ([None]) or the
    list of the classes its possible values belong to. *)
Definition Classes : Type := option (list ValueClass).

#[global] Instance Classes_algebra : Algebra Classes := {
  topVal := None;
  includesValueOfType d c :=
    match d with
    | None => true
    | Some l => existsb (same_class c) l
    end;
  includesValueNotOfType d c :=
    match d with
    | None => true
    | Some l => existsb (fun x => negb (same_class c x)) l
    end;
  promoteEmptyToUndefined d :=
    match d with
    | None => None
    | Some l =>
        Some (map (fun x => if same_class x EmptyValue then UndefinedValue else x) l)
    end
}.

End ValuesDomain.

(** ** Symbolic values *)

(** The synthesis recipe of a symbolic value or of [derive]: a closure over
    the resolved dependency nodes, or a fixed node. *)
Inductive BuildNode : Type :=
| Closure (f : list t.Expr -> t.Expr)
| FixedNode (node : t.Expr).

(** [recipe instanceof Function] *)
Definition instanceofFunction (recipe : BuildNode) : bool :=
  match recipe with
  | Closure _ => true
  | FixedNode _ => false
  end.

(** An [AbstractValue] instance. [instanceofAbstractObjectValue] records the
    class the instance was created with; [intrinsicName] is the field the
    [Value] constructor sets; [args] is a reference to an [Array<Value>]. *)
Record AbstractValue (VD : Type) : Type := mkAbstractValue {
  instanceofAbstractObjectValue : bool;
  intrinsicName : option string;
  types : TypesDomain;
  values : VD;
  args : loc;
  _buildNode : BuildNode;
  kind : option string
}.

Arguments mkAbstractValue {VD}.
Arguments instanceofAbstractObjectValue {VD}.
Arguments intrinsicName {VD}.
Arguments types {VD}.
Arguments values {VD}.
Arguments args {VD}.
Arguments _buildNode {VD}.
Arguments kind {VD}.

(** What a reference of Flow type [Value] leads to: an abstract value, the
    [StringValue] made by [emitConsoleLog], a value made by the rest of the
    interpreter (the intrinsics among them), of which only the class is kept,
    or, since the Flow types are not checked at run time, something that is
    not an instance of [Value] at all. Values are passed around as references
    (locations). *)
Inductive ValueObject (VD : Type) : Type :=
| AbstractObject (a : AbstractValue VD)
| StringObject (str : string)
| OtherObject (class : ValueClass)
| ForeignObject.

Arguments AbstractObject {VD}.
Arguments StringObject {VD}.
Arguments OtherObject {VD}.
Arguments ForeignObject {VD}.

(** [o instanceof Value] *)
Definition instanceofValue {VD : Type} (o : ValueObject VD) : bool :=
  match o with
  | ForeignObject => false
  | _ => true
  end.

Record Intrinsics : Type := mkIntrinsics {
  undefined : loc;
  empty : loc
}.

(** Modelled from the spec: the evaluation context ([realm.js] is not part of
    the sources), reduced to what the sources use: the speculative-mode flag,
    the well-known constants, the prelude generator and the factory
    [createAbstract]; together with the stores of the objects reachable from
    it. *)
Record Realm (VD : Type) : Type := mkRealm {
  isPartial : bool;
  intrinsics : Intrinsics;
  preludeGenerator : option loc;
  heap : Heap;
  objects : gmap positive (ValueObject VD);
  arrays : gmap positive (list positive)
}.

Arguments mkRealm {VD}.
Arguments isPartial {VD}.
Arguments intrinsics {VD}.
Arguments preludeGenerator {VD}.
Arguments heap {VD}.
Arguments objects {VD}.
Arguments arrays {VD}.

Section RealmStore.

Context {VD : Type}.

Definition set_heap (h : Heap) (r : Realm VD) : Realm VD :=
  mkRealm (isPartial r) (intrinsics r) (preludeGenerator r) h (objects r) (arrays r).

Definition set_objects
    (f : gmap positive (ValueObject VD) -> gmap positive (ValueObject VD))
    (r : Realm VD) : Realm VD :=
  mkRealm (isPartial r) (intrinsics r) (preludeGenerator r) (heap r) (f (objects r)) (arrays r).

Definition set_arrays
    (f : gmap positive (list positive) -> gmap positive (list positive))
    (r : Realm VD) : Realm VD :=
  mkRealm (isPartial r) (intrinsics r) (preludeGenerator r) (heap r) (objects r) (f (arrays r)).

(** A prelude-generator computation run on the store of the realm. *)
Definition onHeap {A : Type} (m : M Heap A) : M (Realm VD) A :=
  zoom heap set_heap m.

(** An array literal [[v1, ..., vn]] of values. *)
Definition newValueArray (content : list loc) : M (Realm VD) loc :=
  fun r => let l := fresh (dom (arrays r)) in
           (Ok l, set_arrays (insert l content) r).

Definition readValueArray (a : loc) : M (Realm VD) (list loc) :=
  let! r := getState in demand (arrays r !! a).

Definition newObject (o : ValueObject VD) : M (Realm VD) loc :=
  fun r => let l := fresh (dom (objects r)) in
           (Ok l, set_objects (insert l o) r).

Definition readObject (l : loc) : M (Realm VD) (ValueObject VD) :=
  let! r := getState in demand (objects r !! l).

Definition readAbstract (this : loc) : M (Realm VD) (AbstractValue VD) :=
  let! r := getState in
  match objects r !! this with
  | Some (AbstractObject a) => ret a
  | _ => throw DanglingReference
  end.

(** [this.field = x] on an abstract value. *)
Definition assignAbstract (this : loc) (f : AbstractValue VD -> AbstractValue VD)
    : M (Realm VD) unit :=
  let! a := readAbstract this in
  modify (set_objects (insert this (AbstractObject (f a)))).

Definition with_intrinsicName (n : option string) (a : AbstractValue VD) : AbstractValue VD :=
  mkAbstractValue (instanceofAbstractObjectValue a) n (types a) (values a) (args a)
    (_buildNode a) (kind a).

Definition with_values (v : VD) (a : AbstractValue VD) : AbstractValue VD :=
  mkAbstractValue (instanceofAbstractObjectValue a) (intrinsicName a) (types a) v (args a)
    (_buildNode a) (kind a).

Definition with_args (l : loc) (a : AbstractValue VD) : AbstractValue VD :=
  mkAbstractValue (instanceofAbstractObjectValue a) (intrinsicName a) (types a) (values a) l
    (_buildNode a) (kind a).

Definition with_buildNode (b : BuildNode) (a : AbstractValue VD) : AbstractValue VD :=
  mkAbstractValue (instanceofAbstractObjectValue a) (intrinsicName a) (types a) (values a)
    (args a) b (kind a).

Definition with_kind (k : option string) (a : AbstractValue VD) : AbstractValue VD :=
  mkAbstractValue (instanceofAbstractObjectValue a) (intrinsicName a) (types a) (values a)
    (args a) (_buildNode a) k.

End RealmStore.

(** Truthiness of an optional string: [undefined] and [""] are falsy. *)
Definition truthy_string (s : option string) : bool :=
  match s with
  | Some (String _ _) => true
  | _ => false
  end.

Module AbstractValue.

Section Methods.

Context {VD : Type} `{!ValuesDomain.Algebra VD}.

(** [constructor(realm, types, values, args, buildNode, kind, intrinsicName)].
    [asObjectVariant] tells whether the instance under construction is an
    [AbstractObjectValue] (the constructor reached through [super]) or a plain
    [AbstractValue]. [super(realm, intrinsicName)] stores the name. *)
Definition constructor (asObjectVariant : bool) (types : TypesDomain) (values : VD)
    (args : loc) (buildNode : BuildNode) (kind intrinsicName : option string)
    : M (Realm VD) loc :=
  let! realm := getState in
  let! _ := invariant (isPartial realm) in
  let! _ := invariant (negb (same_class (getType types) ObjectValue) || asObjectVariant) in
  let! _ := invariant (negb (same_class (getType types) NullValue)
                       && negb (same_class (getType types) UndefinedValue)) in
  newObject (AbstractObject
    (mkAbstractValue asObjectVariant intrinsicName types values args buildNode kind)).

(** Modelled from the spec: [realm.createAbstract], "a factory that builds a
    Symbolic Value (or its object-specialized variant) given domain facts,
    dependencies, and a synthesis recipe"; the object-specialized variant is
    the one built when the type facts denote the object category. *)
Definition createAbstract (types : TypesDomain) (values : VD) (args : loc)
    (buildNode : BuildNode) (kind intrinsicName : option string) : M (Realm VD) loc :=
  constructor (same_class (getType types) ObjectValue) types values args buildNode
    kind intrinsicName.

(** [clone()] *)
Definition clone (this : loc) : M (Realm VD) loc :=
  let! self := readAbstract this in
  let! result := constructor false (types self) (values self) (args self)
                   (_buildNode self) None None in
  let! _ := assignAbstract result (with_args (args self)) in
  let! _ := if truthy_string (kind self)
            then assignAbstract result (with_kind (kind self))
            else ret tt in
  ret result.

(** [getType()] *)
Definition getType (this : loc) : M (Realm VD) ValueClass :=
  let! self := readAbstract this in
  ret (getType (types self)).

(** [buildNode(args)] *)
Definition buildNode (this : loc) (nodes : list t.Expr) : M (Realm VD) t.Expr :=
  let! self := readAbstract this in
  ret (match _buildNode self with
       | Closure f => f nodes
       | FixedNode node => node
       end).

(** [hasIdentifier()]: [this._buildNode.type === "Identifier"] *)
Definition hasIdentifier (this : loc) : M (Realm VD) bool :=
  let! self := readAbstract this in
  ret (match _buildNode self with
       | FixedNode (t.identifier _) => true
       | _ => false
       end).

(** [getIdentifier()] *)
Definition getIdentifier (this : loc) : M (Realm VD) t.Expr :=
  let! b := hasIdentifier this in
  let! _ := invariant b in
  buildNode this [].

(** [mightBeNumber()] *)
Definition mightBeNumber (this : loc) : M (Realm VD) bool :=
  let! valueType := getType this in
  if same_class valueType NumberValue then ret true
  else
    let! self := readAbstract this in
    ret (ValuesDomain.includesValueOfType (values self) NumberValue).

(** [mightNotBeNumber()] *)
Definition mightNotBeNumber (this : loc) : M (Realm VD) bool :=
  let! valueType := getType this in
  if same_class valueType NumberValue then ret false
  else
    let! self := readAbstract this in
    ret (ValuesDomain.includesValueNotOfType (values self) NumberValue).

(** [mightNotBeObject()] *)
Definition mightNotBeObject (this : loc) : M (Realm VD) bool :=
  let! valueType := getType this in
  if same_class valueType ObjectValue then ret false
  else
    let! self := readAbstract this in
    ret (ValuesDomain.includesValueNotOfType (values self) ObjectValue).

(** [mightBeObject()] *)
Definition mightBeObject (this : loc) : M (Realm VD) bool :=
  let! valueType := getType this in
  if same_class valueType ObjectValue then ret true
  else
    let! self := readAbstract this in
    ret (ValuesDomain.includesValueOfType (values self) ObjectValue).

(** [mightBeUndefined()] *)
Definition mightBeUndefined (this : loc) : M (Realm VD) bool :=
  let! valueType := getType this in
  if same_class valueType UndefinedValue then ret true
  else
    let! self := readAbstract this in
    ret (ValuesDomain.includesValueOfType (values self) UndefinedValue).

(** [mightHaveBeenDeleted()] *)
Definition mightHaveBeenDeleted (this : loc) : M (Realm VD) bool :=
  let! self := readAbstract this in
  ret (ValuesDomain.includesValueOfType (values self) EmptyValue).

(** The two recipes [promoteEmptyToUndefined] installs:
    [([x, y]) => t.binaryExpression("===", x, y)] and
    [(args) => t.conditionalExpression(args[0], args[1], args[2])]. *)
Definition strictEquality (nodes : list t.Expr) : t.Expr :=
  t.binaryExpression "===" (node_at nodes 0) (node_at nodes 1).

Definition conditional (nodes : list t.Expr) : t.Expr :=
  t.conditionalExpression (node_at nodes 0) (node_at nodes 1) (node_at nodes 2).

(** [promoteEmptyToUndefined()] *)
Definition promoteEmptyToUndefined (this : loc) : M (Realm VD) loc :=
  let! self := readAbstract this in
  if negb (ValuesDomain.includesValueOfType (values self) EmptyValue) then ret this
  else
    let! result := clone this in
    let! r := readAbstract result in
    let! _ := assignAbstract result
                (with_values (ValuesDomain.promoteEmptyToUndefined (values r))) in
    let! realm := getState in
    let! condArgs := newValueArray [this; empty (intrinsics realm)] in
    let! cond := createAbstract (mkTypesDomain BooleanValue) ValuesDomain.topVal
                   condArgs (Closure strictEquality) None None in
    let! realm := getState in
    let! resultArgs := newValueArray [cond; undefined (intrinsics realm); this] in
    let! _ := assignAbstract result (with_args resultArgs) in
    let! _ := assignAbstract result (with_buildNode (Closure conditional)) in
    ret result.

(** [getGenerator()] and the [throwIfNot*] methods are left out: they only
    forward to [realm.generator] and to [Value.throwIntrospectionError], which
    are outside the sources, and no property below is about them. *)

End Methods.

End AbstractValue.

(** ** The effect recorder *)

Module Descriptor.

(** The [Descriptor] type of [types.js]: every field is optional; a missing
    one reads as [undefined]. *)
Record Descriptor : Type := mkDescriptor {
  writable : option bool;
  enumerable : option bool;
  configurable : option bool;
  value : option loc;
  get : option loc;
  set : option loc
}.

End Descriptor.

(** Truthiness of an optional flag ([!!flag]) and of an optional value. *)
Definition truthy_flag (b : option bool) : bool := default false b.

Definition truthy_value (v : option loc) : bool := bool_decide (is_Some v).

(** [desc.enumerable && desc.configurable && desc.writable && desc.value],
    the test of [emitDefineProperty]. *)
Definition plainData (desc : Descriptor.Descriptor) : bool :=
  truthy_flag (Descriptor.enumerable desc)
  && truthy_flag (Descriptor.configurable desc)
  && truthy_flag (Descriptor.writable desc)
  && truthy_value (Descriptor.value desc).

Module Generator.

(** A body entry. [buildNode] is called by the serializer when the entry is
    replayed; the one [emitDefineProperty] installs calls
    [this.preludeGenerator.memoiseReference], so replaying acts on the store of
    the prelude generators. *)
Record BodyEntry : Type := mkBodyEntry {
  declaresDerivedId : option t.Expr;
  args : loc;
  buildNode : list t.Expr -> M Heap t.Stmt
}.

(** [realm.preludeGenerator], which the [Generator] field of the same name
    hides below. *)
Definition realmPreludeGeneratorOf {VD : Type} (realm : Realm VD) : option loc :=
  preludeGenerator realm.

(** A [Generator] instance, with the realm it belongs to. *)
Record Generator (VD : Type) : Type := mkGenerator {
  realm : Realm VD;
  body : list BodyEntry;
  preludeGenerator : loc
}.

Arguments mkGenerator {VD}.
Arguments realm {VD}.
Arguments body {VD}.
Arguments preludeGenerator {VD}.

Section Methods.

Context {VD : Type} `{!ValuesDomain.Algebra VD}.

Definition set_realm (r : Realm VD) (g : Generator VD) : Generator VD :=
  mkGenerator r (body g) (preludeGenerator g).

(** A realm computation run on [this.realm]. *)
Definition onRealm {A : Type} (m : M (Realm VD) A) : M (Generator VD) A :=
  zoom realm set_realm m.

(** [this.body.push(entry)] *)
Definition push (entry : BodyEntry) : M (Generator VD) unit :=
  modify (fun g => mkGenerator (realm g) (body g ++ [entry]) (preludeGenerator g)).

(** [constructor(realm)] *)
Definition constructor (realm : Realm VD) : result (Generator VD) :=
  if isPartial realm then
    match realmPreludeGeneratorOf realm with
    | Some realmPreludeGenerator => Ok (mkGenerator realm [] realmPreludeGenerator)
    | None => Throw InvariantViolation
    end
  else Throw InvariantViolation.

(** [empty()] *)
Definition empty (this : Generator VD) : bool :=
  Nat.eqb (length (body this)) 0.

(** [emitGlobalDeclaration(key, value)] *)
Definition emitGlobalDeclaration (key : string) (value : loc) : M (Generator VD) unit :=
  let! args := onRealm (newValueArray [value]) in
  push (mkBodyEntry None args
    (fun nodes => ret
       (t.variableDeclaration "var"
          [t.variableDeclarator (t.identifier key) (node_at nodes 0)]))).

(** [emitGlobalAssignment(key, value)] *)
Definition emitGlobalAssignment (key : string) (value : loc) : M (Generator VD) unit :=
  let! args := onRealm (newValueArray [value]) in
  push (mkBodyEntry None args
    (fun nodes => ret
       (t.expressionStatement
          (t.assignmentExpression "=" (t.identifier key) (node_at nodes 0))))).

(** [emitGlobalDelete(key)] *)
Definition emitGlobalDelete (key : string) : M (Generator VD) unit :=
  let! args := onRealm (newValueArray []) in
  push (mkBodyEntry None args
    (fun _ => ret
       (t.expressionStatement (t.unaryExpression "delete" (t.identifier key))))).

(** [emitPropertyAssignment(object, key, value)] *)
Definition emitPropertyAssignment (object : loc) (key : string) (value : loc)
    : M (Generator VD) unit :=
  let! args := onRealm (newValueArray [object; value]) in
  push (mkBodyEntry None args
    (fun nodes => ret
       (t.expressionStatement
          (t.assignmentExpression "="
             (t.memberExpression (node_at nodes 0) (t.identifier key))
             (node_at nodes 1))))).

(** The [buildNode] closure of the general case of [emitDefineProperty]. *)
Definition buildDefineProperty (pg : loc) (key : string) (desc : Descriptor.Descriptor)
    (nodes : list t.Expr) : M Heap t.Stmt :=
  let descProps := (
    [t.objectProperty (t.identifier "enumerable")
       (t.booleanLiteral (truthy_flag (Descriptor.enumerable desc)));
     t.objectProperty (t.identifier "configurable")
       (t.booleanLiteral (truthy_flag (Descriptor.configurable desc)))]
    ++ (if negb (truthy_value (Descriptor.get desc))
           && negb (truthy_value (Descriptor.set desc))
        then [t.objectProperty (t.identifier "writable")
                (t.booleanLiteral (truthy_flag (Descriptor.writable desc)));
              t.objectProperty (t.identifier "value") (node_at nodes 1)]
        else [t.objectProperty (t.identifier "get") (node_at nodes 2);
              t.objectProperty (t.identifier "set") (node_at nodes 3)]))%list in
  let! callee := PreludeGenerator.memoiseReference pg "Object.defineProperty" in
  ret (t.expressionStatement
         (t.callExpression callee
            [node_at nodes 0; t.stringLiteral key; t.objectExpression descProps])).

(** [emitDefineProperty(object, key, desc)]. A truthy [desc.value] is a
    reference; [invariant(descValue instanceof Value)] looks at what it leads
    to. The test has passed only if [desc.value] is present, so the last case
    of the [match] is never reached. [object.$Realm] is the realm of the
    generator. *)
Definition emitDefineProperty (object : loc) (key : string) (desc : Descriptor.Descriptor)
    : M (Generator VD) unit :=
  if plainData desc then
    match Descriptor.value desc with
    | Some descValue =>
        let! o := onRealm (readObject descValue) in
        let! _ := invariant (instanceofValue o) in
        emitPropertyAssignment object key descValue
    | None => throw InvariantViolation
    end
  else
    let! this := getState in
    let undef := undefined (intrinsics (realm this)) in
    let! args := onRealm (newValueArray
      [object;
       default undef (Descriptor.value desc);
       default undef (Descriptor.get desc);
       default undef (Descriptor.set desc)]) in
    push (mkBodyEntry None args (buildDefineProperty (preludeGenerator this) key desc)).

(** [emitPropertyDelete(object, key)] *)
Definition emitPropertyDelete (object : loc) (key : string) : M (Generator VD) unit :=
  let! args := onRealm (newValueArray [object]) in
  push (mkBodyEntry None args
    (fun nodes => ret
       (t.expressionStatement
          (t.unaryExpression "delete"
             (t.memberExpression (node_at nodes 0) (t.identifier key)))))).

(** [emitConsoleLog(str)] *)
Definition emitConsoleLog (str : string) : M (Generator VD) unit :=
  let! strn := onRealm (newObject (StringObject str)) in
  let! args := onRealm (newValueArray [strn]) in
  push (mkBodyEntry None args
    (fun nodes => ret
       (t.expressionStatement
          (t.callExpression
             (t.memberExpression (t.identifier "console") (t.identifier "log"))
             [node_at nodes 0])))).

(** The statement [emitInvariant] schedules:
    [if (condition) { throw new Error("Prepack model invariant violation"); }] *)
Definition invariantStatement (condition : t.Expr) : t.Stmt :=
  t.ifStatement condition
    (t.blockStatement
       [t.throwStatement
          (t.newExpression (t.identifier "Error")
             [t.stringLiteral "Prepack model invariant violation"])]).

(** [emitInvariant(args, violationConditionFn)] *)
Definition emitInvariant (args : loc) (violationConditionFn : list t.Expr -> t.Expr)
    : M (Generator VD) unit :=
  push (mkBodyEntry None args
    (fun nodes => ret (invariantStatement (violationConditionFn nodes)))).

(** The [if]/[else if] chain of [derive] that picks [typeofString]. *)
Definition typeofStringOf (type : ValueClass) : M (Generator VD) (option string) :=
  if same_class type FunctionValue then ret (Some "function")
  else if same_class type UndefinedValue then
    let! _ := invariant false in ret None
  else if same_class type NullValue then
    let! _ := invariant false in ret None
  else if same_class type StringValue then ret (Some "string")
  else if same_class type BooleanValue then ret (Some "boolean")
  else if same_class type NumberValue then ret (Some "number")
  else if same_class type SymbolValue then ret (Some "symbol")
  else if same_class type ObjectValue then ret (Some "object")
  else ret None.

(** The violation condition [derive] passes to [emitInvariant]. *)
Definition typeofCondition (typeofString : string) (nodes : list t.Expr) : t.Expr :=
  let condition :=
    t.binaryExpression "!=="
      (t.unaryExpression "typeof" (node_at nodes 0)) (t.stringLiteral typeofString) in
  if String.eqb typeofString "object"
  then t.logicalExpression "||" condition
         (t.binaryExpression "===" (node_at nodes 0) t.nullLiteral)
  else condition.

(** [derive(types, values, args, buildNode_, kind)] *)
Definition derive (types : TypesDomain) (values : VD) (args : loc)
    (buildNode_ : BuildNode) (kind : option string) : M (Generator VD) loc :=
  let! _ := if instanceofFunction buildNode_ then ret tt
            else
              let! content := onRealm (readValueArray args) in
              invariant (Nat.eqb (length content) 0) in
  let! this := getState in
  let! name := onRealm (onHeap (PreludeGenerator.generateUid (preludeGenerator this))) in
  let id := t.identifier name in
  let! _ := onRealm (onHeap (addDerivedId (preludeGenerator this) id)) in
  let! _ := push (mkBodyEntry (Some id) args
              (fun nodes => ret
                 (t.variableDeclaration "var"
                    [t.variableDeclarator id
                       (match buildNode_ with
                        | Closure f => f nodes
                        | FixedNode node => node
                        end)]))) in
  let! res := onRealm (AbstractValue.createAbstract types values args (FixedNode id)
                         kind None) in
  let type := getType types in
  let! _ := onRealm (assignAbstract res (with_intrinsicName (Some name))) in
  let! typeofString := typeofStringOf type in
  let! _ := match typeofString with
            | Some s =>
                let! checked := onRealm (newValueArray [res]) in
                emitInvariant checked (typeofCondition s)
            | None => ret tt
            end in
  ret res.

End Methods.

End Generator.

(** ** Sequences of effects and their replay *)

(** The [emit*] operations, as data. *)
Inductive Emit : Type :=
| EmitGlobalDeclaration (key : string) (value : loc)
| EmitGlobalAssignment (key : string) (value : loc)
| EmitGlobalDelete (key : string)
| EmitPropertyAssignment (object : loc) (key : string) (value : loc)
| EmitDefineProperty (object : loc) (key : string) (desc : Descriptor.Descriptor)
| EmitPropertyDelete (object : loc) (key : string)
| EmitConsoleLog (str : string)
| EmitInvariant (args : loc) (violationConditionFn : list t.Expr -> t.Expr).

Definition emit {VD : Type} `{!ValuesDomain.Algebra VD} (e : Emit)
    : M (Generator.Generator VD) unit :=
  match e with
  | EmitGlobalDeclaration key value => Generator.emitGlobalDeclaration key value
  | EmitGlobalAssignment key value => Generator.emitGlobalAssignment key value
  | EmitGlobalDelete key => Generator.emitGlobalDelete key
  | EmitPropertyAssignment object key value =>
      Generator.emitPropertyAssignment object key value
  | EmitDefineProperty object key desc => Generator.emitDefineProperty object key desc
  | EmitPropertyDelete object key => Generator.emitPropertyDelete object key
  | EmitConsoleLog str => Generator.emitConsoleLog str
  | EmitInvariant args violationConditionFn =>
      Generator.emitInvariant args violationConditionFn
  end.

(** The reference an [emit*] call tests with [instanceof Value] before it
    records anything: the value of a descriptor that has passed the test of
    [emitDefineProperty]. *)
Definition checkedValue (e : Emit) : option loc :=
  match e with
  | EmitDefineProperty _ _ desc =>
      if plainData desc then Descriptor.value desc else None
  | _ => None
  end.

(** Input with which an [emit*] call goes through: what it tests is an
    instance of [Value]. *)
Definition wellTyped {VD : Type} (realm : Realm VD) (e : Emit) : Prop :=
  forall v, checkedValue e = Some v ->
    exists o, objects realm !! v = Some o /\ instanceofValue o = true.

(** Malformed descriptor input: what the call tests is not an instance of
    [Value]. *)
Definition malformed {VD : Type} (realm : Realm VD) (e : Emit) : Prop :=
  exists v, checkedValue e = Some v /\ objects realm !! v = Some ForeignObject.

(** What the serializer does with recorded entries: call each [buildNode] in
    turn, in the order of the body, on the store of the prelude generators. *)
Fixpoint replay (builders : list (M Heap t.Stmt)) : M Heap (list t.Stmt) :=
  match builders with
  | [] => ret []
  | build :: rest =>
      let! stmt := build in
      let! stmts := replay rest in
      ret (stmt :: stmts)
  end.

(** The [typeof] tag [derive] checks for a type, when it checks one. *)
Definition typeofTag (type : ValueClass) : option string :=
  match type with
  | FunctionValue => Some "function"
  | StringValue => Some "string"
  | BooleanValue => Some "boolean"
  | NumberValue => Some "number"
  | SymbolValue => Some "symbol"
  | ObjectValue => Some "object"
  | _ => None
  end.

(** The expression a declaration recorded by [derive] binds its identifier
    to: the closure applied to the resolved nodes, or the fixed node. *)
Definition applyRecipe (recipe : BuildNode) (nodes : list t.Expr) : t.Expr :=
  match recipe with
  | Closure f => f nodes
  | FixedNode node => node
  end.

(** ** The emitted type checks at run time *)

(** The kinds of value a variable of the output program can hold, and the
    tag the [typeof] operator of the language answers for each: [typeof null]
    is ["object"]. *)
Inductive RuntimeValue : Type :=
| rtUndefined
| rtNull
| rtBoolean
| rtNumber
| rtString
| rtSymbol
| rtFunction
| rtObject.

Definition typeofResult (v : RuntimeValue) : string :=
  match v with
  | rtUndefined => "undefined"
  | rtNull => "object"
  | rtBoolean => "boolean"
  | rtNumber => "number"
  | rtString => "string"
  | rtSymbol => "symbol"
  | rtFunction => "function"
  | rtObject => "object"
  end.

Definition isNull (v : RuntimeValue) : bool :=
  match v with
  | rtNull => true
  | _ => false
  end.

(** The truth value, when the variable [name] holds [v], of a condition of
    the shapes [typeofCondition] builds: [typeof name !== "tag"],
    [name === null] and [a || b]. When it is [true] the statement scheduled by
    [emitInvariant] throws. *)
Fixpoint evalCondition (name : string) (v : RuntimeValue) (e : t.Expr) : option bool :=
  match e with
  | t.binaryExpression "!==" (t.unaryExpression "typeof" (t.identifier x))
      (t.stringLiteral tag) =>
      if String.eqb x name then Some (negb (String.eqb (typeofResult v) tag)) else None
  | t.binaryExpression "===" (t.identifier x) t.nullLiteral =>
      if String.eqb x name then Some (isNull v) else None
  | t.logicalExpression "||" a b =>
      match evalCondition name v a, evalCondition name v b with
      | Some x, Some y => Some (x || y)
      | _, _ => None
      end
  | _ => None
  end.



(** What every [emit*] operation does to a generator: one entry more at the
    end of the body, the store of the prelude generators as it was, and the
    objects and arrays that existed still there, unchanged. *)
Definition appendsOne {VD : Type} (g g' : Generator.Generator VD) : Prop :=
  (exists entry, Generator.body g' = Generator.body g ++ [entry])
  /\ heap (Generator.realm g') = heap (Generator.realm g)
  /\ Generator.preludeGenerator g' = Generator.preludeGenerator g
  /\ isPartial (Generator.realm g') = isPartial (Generator.realm g)
  /\ (forall l o, objects (Generator.realm g) !! l = Some o ->
                  objects (Generator.realm g') !! l = Some o)
  /\ (forall l a, arrays (Generator.realm g) !! l = Some a ->
                  arrays (Generator.realm g') !! l = Some a).

(** ** Concrete stores, to run the operations on *)

Module Demo.

(** A realm in speculative mode over the [Classes] value domains, with the
    two intrinsics at locations 1 and 2 and a new prelude generator. *)
Definition pg : loc := 1%positive.

Definition heap0 : Heap := snd (PreludeGenerator.new emptyHeap).

Definition realm0 : Realm ValuesDomain.Classes :=
  mkRealm true (mkIntrinsics 1 2) (Some pg) heap0
    (<[2%positive := OtherObject EmptyValue]>
       (<[1%positive := OtherObject UndefinedValue]> ∅))
    ∅.

Definition generator0 : Generator.Generator ValuesDomain.Classes :=
  Generator.mkGenerator realm0 [] pg.

(** An abstract value of type [NumberValue] whose value domain holds the
    deletion sentinel, built by the constructor in [realm0]. *)
Definition realm1 : Realm ValuesDomain.Classes :=
  snd ((let! a := newValueArray [] in
        AbstractValue.constructor false (mkTypesDomain NumberValue)
          (Some [NumberValue; EmptyValue]) a (FixedNode (t.identifier "x"))
          (Some "derived") (Some "x")) realm0).

Definition value1 : loc := 3%positive.

Definition abstract1 : AbstractValue ValuesDomain.Classes :=
  mkAbstractValue false (Some "x") (mkTypesDomain NumberValue)
    (Some [NumberValue; EmptyValue]) 1%positive (FixedNode (t.identifier "x"))
    (Some "derived").

(** A generator of [realm1]; the array at location 1 is empty. *)
Definition generator1 : Generator.Generator ValuesDomain.Classes :=
  Generator.mkGenerator realm1 [] pg.

End Demo.

(** ** Independence of two prelude generators *)

(** Two instances whose containers are different objects: mutating the
    containers of one in place cannot be seen through the other. *)
Definition disjoint_containers (a b : PreludeGenerator) : Prop :=
  prelude a <> prelude b /\ derivedIds a <> derivedIds b
  /\ memoisedRefs a <> memoisedRefs b.

Definition separate (h : Heap) (p q : loc) : Prop :=
  p <> q /\
  exists a b, instances h !! p = Some a /\ instances h !! q = Some b
              /\ disjoint_containers a b
              /\ is_Some (view h p) /\ is_Some (view h q).

(** An instance that an operation leaves alone: same fields, same
    observable contents. *)
Definition preserved (h h' : Heap) (q : loc) : Prop :=
  instances h' !! q = instances h !! q /\ view h' q = view h q.

(** ** Sequences of calls on one prelude generator *)

(** The calls a client makes on a prelude generator [this] over its lifetime.
    [CallRestore n] restores from the [n]-th snapshot taken so far (and does
    nothing when there is none). *)
Inductive Call : Type :=
| CallGenerateUid
| CallMemoiseReference (key : string)
| CallAddDerivedId (id : t.Expr)
| CallSave
| CallRestore (n : nat).

(** What each call returned. For [memoiseReference], [minted] tells whether
    the key was new, that is whether the call went through [generateUid]. *)
Inductive Outcome : Type :=
| Minted (name : string)
| Reference (ref : t.Expr) (minted : bool)
| Snapshot (saved : loc)
| Done.

Fixpoint run (this : loc) (calls : list Call) (snapshots : list loc)
    : M Heap (list Outcome) :=
  match calls with
  | [] => ret []
  | CallGenerateUid :: rest =>
      let! name := PreludeGenerator.generateUid this in
      let! outs := run this rest snapshots in
      ret (Minted name :: outs)
  | CallMemoiseReference key :: rest =>
      let! pg := readInstance this in
      let! refs := readMap (memoisedRefs pg) in
      let! ref := PreludeGenerator.memoiseReference this key in
      let! outs := run this rest snapshots in
      ret (Reference ref (match refs !! key with None => true | Some _ => false end)
             :: outs)
  | CallAddDerivedId id :: rest =>
      let! _ := addDerivedId this id in
      let! outs := run this rest snapshots in
      ret (Done :: outs)
  | CallSave :: rest =>
      let! saved := PreludeGenerator.save this in
      let! outs := run this rest (snapshots ++ [saved]) in
      ret (Snapshot saved :: outs)
  | CallRestore n :: rest =>
      let! _ := match snapshots !! n with
                | Some saved => PreludeGenerator.restore this saved
                | None => ret tt
                end in
      let! outs := run this rest snapshots in
      ret (Done :: outs)
  end.

(** The names that went through [generateUid], in call order. *)
Fixpoint mintedNames (outs : list Outcome) : list string :=
  match outs with
  | [] => []
  | Minted name :: rest => name :: mintedNames rest
  | Reference (t.identifier name) true :: rest => name :: mintedNames rest
  | _ :: rest => mintedNames rest
  end.


Definition isRestore (c : Call) : bool :=
  match c with
  | CallRestore _ => true
  | _ => false
  end.

Definition restoreFree (calls : list Call) : bool :=
  forallb (fun c => negb (isRestore c)) calls.


(** What a call on [this] owes to every generator [q] independent of it:
    [q] stays independent and its observable contents do not change. *)
Definition keepsOthers (this : loc) (h h' : Heap) : Prop :=
  forall q, separate h this q -> separate h' this q /\ view h' q = view h q.

(** A name minted at a counter value in [[lo, hi)]. *)
Definition mintedWithin (lo hi : N) (name : string) : Prop :=
  exists c, name = uid c /\ lo <= c < hi.



(** ** Bindings in the prelude *)

(** The statement [var ref = <path of key>] that [memoiseReference] emits. *)
Definition binding (ref : t.Expr) (key : string) : t.Stmt :=
  t.variableDeclaration "var"
    [t.variableDeclarator ref (PreludeGenerator.convertStringToMember key)].

Definition bindsKey (key : string) (stmt : t.Stmt) : Prop :=
  exists ref, stmt = binding ref key.

Definition atMostOneBinding (key : string) (stmts : list t.Stmt) : Prop :=
  forall i j s1 s2,
    stmts !! i = Some s1 -> stmts !! j = Some s2 ->
    bindsKey key s1 -> bindsKey key s2 -> i = j.

(** The prelude and the memo table of a generator that only
    [memoiseReference] has written to: one binding per memoised key. *)
Definition consistent (v : PGView) : Prop :=
  exists entries : list (string * t.Expr),
    NoDup (map fst entries)
    /\ preludeOf v = map (fun e => binding (snd e) (fst e)) entries
    /\ memoisedRefsOf v = list_to_map entries.

(** The dotted path a chain of member accesses spells, segment by segment;
    the inverse of [convertStringToMember]. *)
Fixpoint pathOf (e : t.Expr) : option (list string) :=
  match e with
  | t.identifier name => Some [name]
  | t.memberExpression object (t.identifier name) =>
      match pathOf object with
      | Some segs => Some (segs ++ [name])%list
      | None => None
      end
  | _ => None
  end.

(** ** Names declared in the output program *)

(** The identifier a statement of the prelude declares. *)
Definition declaredRef (stmt : t.Stmt) : option t.Expr :=
  match stmt with
  | t.variableDeclaration _ [t.variableDeclarator id _] => Some id
  | _ => None
  end.

(** All the identifiers a prelude generator has handed out for declaration:
    those bound in the prelude and the derived ones. *)
Definition declaredNames (v : PGView) : list t.Expr :=
  omap declaredRef (preludeOf v) ++ derivedIdsOf v.

(** Every declared identifier was minted at a counter value below the current
    one, and none was declared twice. *)
Definition freshNames (v : PGView) : Prop :=
  NoDup (declaredNames v)
  /\ Forall (fun e => exists c, e = t.identifier (uid c) /\ c < uidCounterOf v)
       (declaredNames v).

(** The two statements of [derive] that act on the prelude generator:
    [let id = t.identifier(this.preludeGenerator.generateUid());
     this.preludeGenerator.derivedIds.add(id);] *)
Definition mintDerivedId (this : loc) : M Heap t.Expr :=
  let! name := PreludeGenerator.generateUid this in
  let id := t.identifier name in
  let! _ := addDerivedId this id in
  ret id.

(** The calls made on a prelude generator when identifiers are added to
    [derivedIds] the way [derive] adds them. *)
Inductive Step : Type :=
| StepGenerateUid
| StepMemoiseReference (key : string)
| StepMintDerivedId
| StepSave
| StepRestore (n : nat).

Fixpoint runSteps (this : loc) (steps : list Step) (snapshots : list loc)
    : M Heap unit :=
  match steps with
  | [] => ret tt
  | StepGenerateUid :: rest =>
      let! _ := PreludeGenerator.generateUid this in
      runSteps this rest snapshots
  | StepMemoiseReference key :: rest =>
      let! _ := PreludeGenerator.memoiseReference this key in
      runSteps this rest snapshots
  | StepMintDerivedId :: rest =>
      let! _ := mintDerivedId this in
      runSteps this rest snapshots
  | StepSave :: rest =>
      let! saved := PreludeGenerator.save this in
      runSteps this rest (snapshots ++ [saved])
  | StepRestore n :: rest =>
      let! _ := match snapshots !! n with
                | Some saved => PreludeGenerator.restore this saved
                | None => ret tt
                end in
      runSteps this rest snapshots
  end.

(** ** Well-formed realms *)

(** The invariants the [AbstractValue] constructor checks, as a condition on
    an instance. *)
Definition admissible {VD : Type} (a : AbstractValue VD) : Prop :=
  getType (types a) <> NullValue
  /\ getType (types a) <> UndefinedValue
  /\ (getType (types a) = ObjectValue -> instanceofAbstractObjectValue a = true).

(** A realm all of whose abstract values passed the constructor: each is
    admissible, and the realm is in partial mode if it holds any. *)
Definition wellFormed {VD : Type} (realm : Realm VD) : Prop :=
  forall l a, objects realm !! l = Some (AbstractObject a) ->
              isPartial realm = true /\ admissible a.

(** A computation that keeps realms well-formed, whether it returns or
    throws. *)
Definition preservesWellFormed {VD A : Type} (m : M (Realm VD) A) : Prop :=
  forall realm, wellFormed realm -> wellFormed (snd (m realm)).

(** ** Sequences of operations on a generator *)

(** The identifiers the entries of a body declare, in order. *)
Definition declaredIds (entries : list Generator.BodyEntry) : list t.Expr :=
  omap Generator.declaresDerivedId entries.

(** The operations that record into a generator, as data. *)
Inductive GenOp (VD : Type) : Type :=
| OpEmit (e : Emit)
| OpDerive (types : TypesDomain) (values : VD) (args : loc) (buildNode_ : BuildNode)
    (kind : option string).

Arguments OpEmit {VD}.
Arguments OpDerive {VD}.

Definition perform1 {VD : Type} `{!ValuesDomain.Algebra VD} (op : GenOp VD)
    : M (Generator.Generator VD) unit :=
  match op with
  | OpEmit e => emit e
  | OpDerive types values args buildNode_ kind =>
      let! _ := Generator.derive types values args buildNode_ kind in ret tt
  end.

(** The operations in turn; as in the sources, a fault ends the run and what
    was recorded before it stays recorded. *)
Fixpoint perform {VD : Type} `{!ValuesDomain.Algebra VD} (ops : list (GenOp VD))
    : M (Generator.Generator VD) unit :=
  match ops with
  | [] => ret tt
  | op :: rest => let! _ := perform1 op in perform rest
  end.

(** The [emit*] operations whose entry is replayed without calling the prelude
    generator: all but the general case of [emitDefineProperty]. *)
Definition replaysPurely (e : Emit) : bool :=
  match e with
  | EmitDefineProperty _ _ desc => plainData desc
  | _ => true
  end.

(** A computation on a generator that keeps its realm well-formed, whether it
    returns or throws. *)
Definition keepsRealmWellFormed {VD A : Type} (m : M (Generator.Generator VD) A) : Prop :=
  forall g, wellFormed (Generator.realm g) -> wellFormed (Generator.realm (snd (m g))).


(** The identifiers [generateUid] names from counter value [c] on, [k] of
    them. *)
Definition mintedRun (c : N) (k : nat) : list t.Expr :=
  map (fun i => t.identifier (uid (c + N.of_nat i))) (seq 0 k).

(** What recording [entries] into a generator does to its prelude generator,
    seen before as [pv] and after as [pv']: the prelude and the memo table as
    they were, the identifiers the entries declare added to the derived
    identifiers in the order of the entries, and the counter not below where
    it was. As long as the counter does not pass [2^53] on the way, it has
    advanced by the number of these identifiers and they are named by its
    successive values. *)
Definition recorded (pv pv' : PGView) (entries : list Generator.BodyEntry) : Prop :=
  preludeOf pv' = preludeOf pv
  /\ memoisedRefsOf pv' = memoisedRefsOf pv
  /\ derivedIdsOf pv' = derivedIdsOf pv ++ declaredIds entries
  /\ uidCounterOf pv <= uidCounterOf pv'
  /\ (uidCounterOf pv + N.of_nat (length (declaredIds entries)) <= maxCounter ->
      uidCounterOf pv' = uidCounterOf pv + N.of_nat (length (declaredIds entries))
      /\ declaredIds entries
         = mintedRun (uidCounterOf pv) (length (declaredIds entries))).

(** ** What the entry of an [emit*] call holds *)

(** The statement the entry builds from the nodes of its dependencies, when
    building it does not go through the prelude generator. *)
Definition statementOf (e : Emit) (nodes : list t.Expr) : t.Stmt :=
  match e with
  | EmitGlobalDeclaration key _ =>
      t.variableDeclaration "var"
        [t.variableDeclarator (t.identifier key) (node_at nodes 0)]
  | EmitGlobalAssignment key _ =>
      t.expressionStatement
        (t.assignmentExpression "=" (t.identifier key) (node_at nodes 0))
  | EmitGlobalDelete key =>
      t.expressionStatement (t.unaryExpression "delete" (t.identifier key))
  | EmitPropertyAssignment _ key _ | EmitDefineProperty _ key _ =>
      t.expressionStatement
        (t.assignmentExpression "="
           (t.memberExpression (node_at nodes 0) (t.identifier key)) (node_at nodes 1))
  | EmitPropertyDelete _ key =>
      t.expressionStatement
        (t.unaryExpression "delete"
           (t.memberExpression (node_at nodes 0) (t.identifier key)))
  | EmitConsoleLog _ =>
      t.expressionStatement
        (t.callExpression
           (t.memberExpression (t.identifier "console") (t.identifier "log"))
           [node_at nodes 0])
  | EmitInvariant _ violationConditionFn =>
      Generator.invariantStatement (violationConditionFn nodes)
  end.

(** The dependencies of the entry, for the calls that are given them as
    values; [undef] is the [undefined] intrinsic. *)
Definition dependenciesOf (undef : loc) (e : Emit) : list loc :=
  match e with
  | EmitGlobalDeclaration _ value | EmitGlobalAssignment _ value => [value]
  | EmitPropertyAssignment object _ value => [object; value]
  | EmitDefineProperty object _ desc =>
      if plainData desc then [object; default undef (Descriptor.value desc)]
      else [object;
            default undef (Descriptor.value desc);
            default undef (Descriptor.get desc);
            default undef (Descriptor.set desc)]
  | EmitPropertyDelete object _ => [object]
  | EmitGlobalDelete _ | EmitConsoleLog _ | EmitInvariant _ _ => []
  end.

(** [entry] is what the call [e] on a generator with prelude generator [pg]
    records, as found in [realm]: it declares no identifier; its dependencies
    are those of the call, the new string for [emitConsoleLog] and the array
    passed in for [emitInvariant]; and given one node per dependency its
    [buildNode] gives the statement of the call, or is the closure that goes
    through [Object.defineProperty]. *)
Definition records {VD : Type} (realm : Realm VD) (pg : loc) (e : Emit)
    (entry : Generator.BodyEntry) : Prop :=
  Generator.declaresDerivedId entry = None
  /\ match e with
     | EmitInvariant args _ =>
         Generator.args entry = args
         /\ forall nodes h,
              Generator.buildNode entry nodes h = (Ok (statementOf e nodes), h)
     | EmitConsoleLog str =>
         exists strn,
           arrays realm !! Generator.args entry = Some [strn]
           /\ objects realm !! strn = Some (StringObject str)
           /\ forall node h,
                Generator.buildNode entry [node] h = (Ok (statementOf e [node]), h)
     | EmitDefineProperty _ key desc =>
         arrays realm !! Generator.args entry
         = Some (dependenciesOf (undefined (intrinsics realm)) e)
         /\ if plainData desc
            then forall objectNode valueNode h,
                   Generator.buildNode entry [objectNode; valueNode] h
                   = (Ok (statementOf e [objectNode; valueNode]), h)
            else Generator.buildNode entry = Generator.buildDefineProperty pg key desc
     | _ =>
         arrays realm !! Generator.args entry
         = Some (dependenciesOf (undefined (intrinsics realm)) e)
         /\ forall nodes h,
              length nodes = length (dependenciesOf (undefined (intrinsics realm)) e) ->
              Generator.buildNode entry nodes h = (Ok (statementOf e nodes), h)
     end.

(** A realm in which what an earlier one held is still found. *)
Definition extends {VD : Type} (realm realm' : Realm VD) : Prop :=
  heap realm' = heap realm
  /\ isPartial realm' = isPartial realm
  /\ intrinsics realm' = intrinsics realm
  /\ (forall l o, objects realm !! l = Some o -> objects realm' !! l = Some o)
  /\ (forall l a, arrays realm !! l = Some a -> arrays realm' !! l = Some a).
(** * Properties *)

(** ** Strings and the encoder *)

Lemma split_nonempty sep str : split sep str <> [].
Proof.
  destruct str as [|c rest]; simpl; [discriminate|].
  destruct (Ascii.eqb c sep); [discriminate|].
  destruct (split sep rest); discriminate.
Qed.

Lemma join_split sep str : join sep (split sep str) = str.
Proof.
  induction str as [|c rest IH]; simpl; [reflexivity|].
  destruct (Ascii.eqb_spec c sep) as [->|Hne].
  - pose proof (split_nonempty sep rest) as Hn.
    destruct (split sep rest) as [|seg segs]; [contradiction|].
    simpl in *. now rewrite IH.
  - pose proof (split_nonempty sep rest) as Hn.
    destruct (split sep rest) as [|seg segs]; [contradiction|].
    destruct segs as [|seg' segs]; simpl in *; now rewrite <- IH.
Qed.

Lemma pathOf_fold (rest : list string) (first : t.Expr) (segs : list string) :
  pathOf first = Some segs ->
  pathOf (fold_left (fun obj prop => t.memberExpression obj prop)
            (map t.identifier rest) first) = Some (segs ++ rest)%list.
Proof.
  revert first segs.
  induction rest as [|name rest IH]; intros first segs Hfirst; simpl.
  - now rewrite app_nil_r.
  - erewrite IH; [|simpl; rewrite Hfirst; reflexivity].
    now rewrite <- app_assoc.
Qed.

Lemma pathOf_convertStringToMember str :
  pathOf (PreludeGenerator.convertStringToMember str) = Some (split "." str).
Proof.
  unfold PreludeGenerator.convertStringToMember.
  pose proof (split_nonempty "." str) as Hn.
  destruct (split "." str) as [|first rest]; [contradiction|].
  simpl. now rewrite (pathOf_fold rest (t.identifier first) [first]).
Qed.

Lemma convertStringToMember_inj k1 k2 :
  PreludeGenerator.convertStringToMember k1 = PreludeGenerator.convertStringToMember k2 ->
  k1 = k2.
Proof.
  intros Heq.
  assert (Hs : Some (split "." k1) = Some (split "." k2)).
  { rewrite <- !pathOf_convertStringToMember. now rewrite Heq. }
  injection Hs as Hs.
  rewrite <- (join_split "." k1), <- (join_split "." k2). now rewrite Hs.
Qed.

Lemma char_value_char_at d :
  d < 62 -> base62.char_value (base62.char_at d) = d.
Proof.
  intros Hd.
  assert (Hall : forallb (fun n => base62.char_value (base62.char_at (N.of_nat n)) =? N.of_nat n)
                   (seq 0 62) = true) by (vm_compute; reflexivity).
  rewrite forallb_forall in Hall.
  specialize (Hall (N.to_nat d)).
  rewrite N2Nat.id in Hall.
  apply N.eqb_eq, Hall, in_seq. lia.
Qed.

Lemma size_nat_bound n : n < 2 ^ N.of_nat (N.size_nat n).
Proof.
  destruct n as [|p]; simpl; [reflexivity|].
  induction p as [p IH|p IH|]; simpl Pos.size_nat.
  - rewrite Nat2N.inj_succ, N.pow_succ_r'. lia.
  - rewrite Nat2N.inj_succ, N.pow_succ_r'. lia.
  - reflexivity.
Qed.

Lemma decode_encode_loop fuel : forall n s,
  n < 2 ^ N.of_nat fuel ->
  base62.decode (base62.encode_loop fuel n s) = base62.decode_from n s.
Proof.
  induction fuel as [|fuel IH]; intros n s Hn.
  - simpl in Hn. assert (n = 0) as -> by lia. reflexivity.
  - simpl base62.encode_loop.
    destruct (N.eqb_spec n 0) as [->|Hnz]; [reflexivity|].
    rewrite IH.
    + simpl. rewrite char_value_char_at by (apply N.mod_lt; lia).
      f_equal. pose proof (N.div_mod n 62). lia.
    + rewrite Nat2N.inj_succ, N.pow_succ_r' in Hn.
      apply N.Div0.div_lt_upper_bound. lia.
Qed.

Lemma decode_encode n : base62.decode (base62.encode n) = n.
Proof.
  unfold base62.encode.
  destruct (N.eqb_spec n 0) as [->|Hnz]; [reflexivity|].
  rewrite decode_encode_loop by apply size_nat_bound. reflexivity.
Qed.

Lemma encode_inj n m : base62.encode n = base62.encode m -> n = m.
Proof.
  intros Heq. rewrite <- (decode_encode n), <- (decode_encode m). now rewrite Heq.
Qed.

Lemma uid_inj c1 c2 : uid c1 = uid c2 -> c1 = c2.
Proof. unfold uid. intros Heq. injection Heq as Heq. now apply encode_inj. Qed.

(** ** The store of the prelude generators *)

Lemma lookup_fresh_ne {A : Type} (m : gmap positive A) (l : positive) (x : A) :
  m !! l = Some x -> l <> fresh (dom m).
Proof.
  intros Hl Heq. pose proof (is_fresh (dom m)) as Hf.
  apply Hf. rewrite <- Heq. apply elem_of_dom. eauto.
Qed.

Lemma fresh_lookup_ne {A : Type} (m : gmap positive A) (l : positive) (x : A) :
  m !! l = Some x -> fresh (dom m) <> l.
Proof. intros Hl Heq. symmetry in Heq. revert Heq. eapply lookup_fresh_ne; eauto. Qed.

Lemma view_Some h this v :
  view h this = Some v <->
  exists pg, instances h !! this = Some pg
             /\ stmtArrays h !! prelude pg = Some (preludeOf v)
             /\ idSets h !! derivedIds pg = Some (derivedIdsOf v)
             /\ refMaps h !! memoisedRefs pg = Some (memoisedRefsOf v)
             /\ uidCounter pg = uidCounterOf v.
Proof.
  unfold view. split.
  - destruct (instances h !! this) as [pg|]; [|discriminate].
    destruct (stmtArrays h !! prelude pg) as [p|] eqn:Hp; [|discriminate].
    destruct (idSets h !! derivedIds pg) as [d|] eqn:Hd; [|discriminate].
    destruct (refMaps h !! memoisedRefs pg) as [m|] eqn:Hm; [|discriminate].
    intros [= <-]. exists pg. repeat split; assumption.
  - intros (pg & -> & -> & -> & -> & ->). now destruct v.
Qed.

(** Symbolic execution of the monadic code: unfold the combinators and the
    store primitives, name each allocated location, rewrite the lookups. *)
Ltac heap_proj :=
  cbn [stmtArrays idSets refMaps instances
       set_stmtArrays set_idSets set_refMaps set_instances
       prelude derivedIds memoisedRefs uidCounter
       with_prelude with_derivedIds with_memoisedRefs with_uidCounter
       preludeOf derivedIdsOf memoisedRefsOf uidCounterOf fst snd] in *.

Lemma newArray_spec c h :
  exists l, newArray c h = (Ok l, set_stmtArrays (insert l c) h) /\ stmtArrays h !! l = None.
Proof.
  eexists. split; [reflexivity|]. apply not_elem_of_dom, is_fresh.
Qed.

Lemma newSet_spec c h :
  exists l, newSet c h = (Ok l, set_idSets (insert l c) h) /\ idSets h !! l = None.
Proof.
  eexists. split; [reflexivity|]. apply not_elem_of_dom, is_fresh.
Qed.

Lemma newMap_spec c h :
  exists l, newMap c h = (Ok l, set_refMaps (insert l c) h) /\ refMaps h !! l = None.
Proof.
  eexists. split; [reflexivity|]. apply not_elem_of_dom, is_fresh.
Qed.

Lemma newInstance_spec c h :
  exists l, newInstance c h = (Ok l, set_instances (insert l c) h) /\ instances h !! l = None.
Proof.
  eexists. split; [reflexivity|]. apply not_elem_of_dom, is_fresh.
Qed.

Ltac split_fresh H :=
  heap_proj;
  repeat (let Hne := fresh "Hne" in apply lookup_insert_None in H as [H Hne]).

Ltac alloc_step :=
  let l := fresh "l" in
  let Hl := fresh "Hl" in
  match goal with
  | |- context [newArray ?c ?h] =>
      destruct (newArray_spec c h) as (l & -> & Hl); split_fresh Hl
  | |- context [newSet ?c ?h] =>
      destruct (newSet_spec c h) as (l & -> & Hl); split_fresh Hl
  | |- context [newMap ?c ?h] =>
      destruct (newMap_spec c h) as (l & -> & Hl); split_fresh Hl
  | |- context [newInstance ?c ?h] =>
      destruct (newInstance_spec c h) as (l & -> & Hl); split_fresh Hl
  end.

Ltac unfold_heap_ops :=
  cbv beta iota zeta delta
    [bind ret throw getState modify demand invariant
     readInstance readArray readSet readMap writeArray writeSet writeMap
     assign push add mapSet addDerivedId].

Ltac heap_step :=
  first
    [ progress (cbv beta iota zeta)
    | progress heap_proj
    | alloc_step
    | match goal with
      | H : ?x = Some _ |- context [?x] => rewrite H
      | H : ?x = None |- context [?x] => rewrite H
      end
    | rewrite lookup_insert_eq
    | rewrite lookup_insert_ne by congruence ].

Ltac run_heap := unfold_heap_ops; repeat heap_step.

Lemma separate_intro h p q a b :
  p <> q -> instances h !! p = Some a -> instances h !! q = Some b ->
  disjoint_containers a b -> is_Some (view h p) -> is_Some (view h q) ->
  separate h p q.
Proof. intros. split; [assumption|]. exists a, b. auto. Qed.

Lemma separate_transport h h' p q a a' :
  separate h p q ->
  instances h !! p = Some a ->
  instances h' !! p = Some a' ->
  prelude a' = prelude a -> derivedIds a' = derivedIds a ->
  memoisedRefs a' = memoisedRefs a ->
  instances h' !! q = instances h !! q ->
  is_Some (view h' p) ->
  view h' q = view h q ->
  separate h' p q.
Proof.
  intros (Hne & a0 & b & Ha & Hb & (D1 & D2 & D3) & Hva & Hvb) Hpa Hpa' E1 E2 E3 Hq Hv' Hvq.
  rewrite Hpa in Ha. injection Ha as <-.
  eapply separate_intro; eauto.
  - rewrite Hq. exact Hb.
  - unfold disjoint_containers. rewrite E1, E2, E3. auto.
  - rewrite Hvq. exact Hvb.
Qed.

Lemma generateUid_spec h this v :
  view h this = Some v ->
  exists h',
    PreludeGenerator.generateUid this h = (Ok (uid (uidCounterOf v)), h')
    /\ view h' this = Some (mkPGView (preludeOf v) (derivedIdsOf v) (memoisedRefsOf v)
                              (increment (uidCounterOf v)))
    /\ (forall q, q <> this -> preserved h h' q)
    /\ (forall q, separate h this q -> separate h' this q).
Proof.
  intros Hv. apply view_Some in Hv as (pg & Hi & Hp & Hd & Hm & Hc).
  eexists. split; [|split; [|split]].
  - unfold PreludeGenerator.generateUid. run_heap. rewrite Hc. reflexivity.
  - unfold view. run_heap. reflexivity.
  - intros q Hq. unfold preserved, view. run_heap. split; reflexivity.
  - intros q Hsep. pose proof Hsep as (Hne & _).
    eapply separate_transport; [exact Hsep|exact Hi| | | | | | |].
    + run_heap. reflexivity.
    + reflexivity.
    + reflexivity.
    + reflexivity.
    + run_heap. reflexivity.
    + unfold view. run_heap. eauto.
    + unfold view. run_heap. reflexivity.
Qed.

Lemma addDerivedId_spec h this v id :
  view h this = Some v ->
  exists h',
    addDerivedId this id h = (Ok tt, h')
    /\ view h' this = Some (mkPGView (preludeOf v) (derivedIdsOf v ++ [id])
                              (memoisedRefsOf v) (uidCounterOf v))
    /\ (forall q, separate h this q -> separate h' this q /\ preserved h h' q).
Proof.
  intros Hv. apply view_Some in Hv as (pg & Hi & Hp & Hd & Hm & Hc).
  eexists. split; [|split].
  - run_heap. reflexivity.
  - unfold view. run_heap. rewrite Hc. reflexivity.
  - intros q Hsep.
    pose proof Hsep as (Hne & a & b & Ha & Hb & (D1 & D2 & D3) & _ & _).
    rewrite Hi in Ha. injection Ha as <-.
    assert (Hq : preserved h (set_idSets <[derivedIds pg:=(derivedIdsOf v ++ [id])%list]> h) q).
    { unfold preserved, view. run_heap. split; reflexivity. }
    split; [|exact Hq].
    eapply separate_transport; [exact Hsep|exact Hi| | | | | | |]; try reflexivity;
      try apply Hq.
    + run_heap. reflexivity.
    + unfold view. run_heap. eauto.
Qed.

Lemma separate_sym h p q : separate h p q -> separate h q p.
Proof.
  intros (Hne & a & b & Ha & Hb & (D1 & D2 & D3) & Hva & Hvb).
  eapply separate_intro; eauto. repeat split; congruence.
Qed.

Lemma copyPG_spec h from to w :
  from <> to ->
  view h from = Some w ->
  is_Some (instances h !! to) ->
  exists h',
    PreludeGenerator.copyPG from to h = (Ok tt, h')
    /\ view h' to = Some w
    /\ (forall q, q <> to -> is_Some (view h q) ->
          preserved h h' q /\ separate h' to q).
Proof.
  intros Hne Hv [tg Ht]. apply view_Some in Hv as (f & Hi & Hp & Hd & Hm & Hc).
  unfold PreludeGenerator.copyPG. run_heap.
  eexists. split; [reflexivity|].
  split.
  - unfold view. run_heap. rewrite Hc. now destruct w.
  - intros q Hq [vq Hvq].
    apply view_Some in Hvq as (pq & Hqi & Hqp & Hqd & Hqm & Hqc).
    split.
    + unfold preserved, view. run_heap. split; reflexivity.
    + eapply separate_intro; [congruence| | | | |].
      * run_heap. reflexivity.
      * run_heap. reflexivity.
      * repeat split; cbn; congruence.
      * unfold view. run_heap. eauto.
      * unfold view. run_heap. eauto.
Qed.

Lemma separate_preserved h h' p q :
  separate h p q -> preserved h h' p -> preserved h h' q -> separate h' p q.
Proof.
  intros (Hne & a & b & Ha & Hb & Hdis & Hva & Hvb) [Hpi Hpv] [Hqi Hqv].
  eapply separate_intro; eauto; congruence.
Qed.

Lemma preserved_trans h1 h2 h3 q :
  preserved h1 h2 q -> preserved h2 h3 q -> preserved h1 h3 q.
Proof. intros [A B] [C D]. split; congruence. Qed.

Lemma new_spec h :
  exists this h',
    PreludeGenerator.new h = (Ok this, h')
    /\ instances h !! this = None
    /\ view h' this = Some (mkPGView [] [] ∅ 0)
    /\ (forall q, is_Some (view h q) -> preserved h h' q).
Proof.
  unfold PreludeGenerator.new. run_heap.
  eexists _, _. split; [reflexivity|]. split; [assumption|]. split.
  - unfold view. run_heap. reflexivity.
  - intros q [vq Hvq].
    apply view_Some in Hvq as (pq & Hqi & Hqp & Hqd & Hqm & Hqc).
    unfold preserved, view. run_heap. split; reflexivity.
Qed.

Lemma save_spec h this v :
  view h this = Some v ->
  exists saved h',
    PreludeGenerator.save this h = (Ok saved, h')
    /\ instances h !! saved = None
    /\ view h' saved = Some v
    /\ separate h' this saved
    /\ (forall q, is_Some (view h q) -> preserved h h' q).
Proof.
  intros Hv. unfold PreludeGenerator.save.
  destruct (new_spec h) as (saved & h1 & Hnew & Hfresh & Hvs & Hframe1).
  assert (Hne : this <> saved).
  { intros ->. apply view_Some in Hv as (pg & Hi & _). congruence. }
  assert (Hv1 : view h1 this = Some v).
  { destruct (Hframe1 this) as [_ ->]; eauto. }
  destruct (copyPG_spec h1 this saved v Hne Hv1) as (h2 & Hcopy & Hv2 & Hframe2).
  { apply view_Some in Hvs as (pg & Hi & _). eauto. }
  exists saved, h2. unfold bind. rewrite Hnew, Hcopy.
  split; [reflexivity|]. split; [exact Hfresh|]. split; [exact Hv2|].
  destruct (Hframe2 this Hne) as [Hvt Hsep]; [eauto|].
  split; [now apply separate_sym|].
  intros q Hq. assert (q <> saved).
  { intros ->. destruct Hq as [vq Hvq].
    apply view_Some in Hvq as (pg & Hi & _). congruence. }
  eapply preserved_trans; [now apply Hframe1|].
  apply Hframe2; [assumption|]. destruct (Hframe1 q Hq) as [_ ->]. exact Hq.
Qed.

Lemma restore_spec h this saved w :
  separate h this saved ->
  view h saved = Some w ->
  exists h',
    PreludeGenerator.restore this saved h = (Ok tt, h')
    /\ view h' this = Some w
    /\ (forall q, q <> this -> is_Some (view h q) ->
          preserved h h' q /\ separate h' this q).
Proof.
  intros (Hne & a & b & Ha & Hb & _) Hw. unfold PreludeGenerator.restore.
  apply copyPG_spec; eauto.
Qed.

Lemma memoiseReference_hit h this v key ref :
  view h this = Some v ->
  memoisedRefsOf v !! key = Some ref ->
  PreludeGenerator.memoiseReference this key h = (Ok ref, h).
Proof.
  intros Hv Hk. apply view_Some in Hv as (pg & Hi & Hp & Hd & Hm & Hc).
  unfold PreludeGenerator.memoiseReference. run_heap. reflexivity.
Qed.

(** The binding [memoiseReference] appends to the prelude for [key]. *)
Lemma memoiseReference_miss h this v key :
  view h this = Some v ->
  memoisedRefsOf v !! key = None ->
  let ref := t.identifier (uid (uidCounterOf v)) in
  exists h',
    PreludeGenerator.memoiseReference this key h = (Ok ref, h')
    /\ view h' this =
         Some (mkPGView
                 (preludeOf v ++ [binding ref key])
                 (derivedIdsOf v) (<[key := ref]> (memoisedRefsOf v))
                 (increment (uidCounterOf v)))
    /\ (forall q, separate h this q -> separate h' this q /\ preserved h h' q).
Proof.
  intros Hv Hk ref. apply view_Some in Hv as (pg & Hi & Hp & Hd & Hm & Hc).
  unfold PreludeGenerator.memoiseReference, PreludeGenerator.generateUid.
  run_heap. eexists. split; [subst ref; try rewrite Hc; reflexivity|].
  split.
  - unfold view. run_heap. subst ref. try rewrite Hc. reflexivity.
  - intros q Hsep.
    pose proof Hsep as (Hne & a & b & Ha & Hb & (D1 & D2 & D3) & _ & _).
    rewrite Hi in Ha. injection Ha as <-.
    match goal with |- _ /\ preserved h ?h' q =>
      assert (Hq : preserved h h' q) end.
    { unfold preserved, view. run_heap. split; reflexivity. }
    split; [|exact Hq].
    eapply separate_transport; [exact Hsep|exact Hi| | | | | | |]; try apply Hq.
    + run_heap. reflexivity.
    + reflexivity.
    + reflexivity.
    + reflexivity.
    + unfold view. run_heap. eauto.
Qed.

(** ** Sequences of calls *)

Lemma keepsOthers_refl this h : keepsOthers this h h.
Proof. intros q Hq. auto. Qed.

Lemma keepsOthers_trans this h1 h2 h3 :
  keepsOthers this h1 h2 -> keepsOthers this h2 h3 -> keepsOthers this h1 h3.
Proof.
  intros H12 H23 q Hq. destruct (H12 q Hq) as [Hs Hv].
  destruct (H23 q Hs) as [Hs' Hv']. split; [assumption|congruence].
Qed.

Lemma separate_valid_r h p q : separate h p q -> is_Some (view h q).
Proof. intros (_ & a & b & _ & _ & _ & _ & Hv). exact Hv. Qed.

Lemma separate_ne h p q : separate h p q -> q <> p.
Proof. intros (Hne & _). congruence. Qed.

Lemma preserved_view h h' q : preserved h h' q -> view h' q = view h q.
Proof. intros [_ Hv]. exact Hv. Qed.

Lemma generateUid_keeps h h' this v name :
  view h this = Some v ->
  PreludeGenerator.generateUid this h = (Ok name, h') ->
  keepsOthers this h h'.
Proof.
  intros Hv Hrun q Hq.
  destruct (generateUid_spec h this v Hv) as (h1 & Hrun1 & _ & Hpres & Hsep).
  rewrite Hrun1 in Hrun. injection Hrun as _ <-.
  split; [now apply Hsep|]. apply preserved_view, Hpres. eapply separate_ne; eauto.
Qed.

Lemma save_keeps h h' this v saved :
  view h this = Some v ->
  PreludeGenerator.save this h = (Ok saved, h') ->
  keepsOthers this h h' /\ view h' this = Some v.
Proof.
  intros Hv Hrun.
  destruct (save_spec h this v Hv) as (s1 & h1 & Hrun1 & _ & _ & _ & Hpres).
  rewrite Hrun1 in Hrun. injection Hrun as <- <-.
  assert (Hthis : preserved h h1 this) by (apply Hpres; eauto).
  split.
  - intros q Hq. assert (Hpq : preserved h h1 q).
    { apply Hpres. eapply separate_valid_r; eauto. }
    split; [eapply separate_preserved; eauto|now apply preserved_view].
  - rewrite (preserved_view _ _ _ Hthis). exact Hv.
Qed.

Lemma restore_keeps h h' this saved w :
  separate h this saved ->
  view h saved = Some w ->
  PreludeGenerator.restore this saved h = (Ok tt, h') ->
  keepsOthers this h h' /\ view h' this = Some w.
Proof.
  intros Hsep Hw Hrun.
  destruct (restore_spec h this saved w Hsep Hw) as (h1 & Hrun1 & Hv1 & Hframe).
  rewrite Hrun1 in Hrun. injection Hrun as <-.
  split; [|exact Hv1].
  intros q Hq. destruct (Hframe q) as [Hp Hs].
  - eapply separate_ne; eauto.
  - eapply separate_valid_r; eauto.
  - split; [exact Hs|now apply preserved_view].
Qed.

Section RunInvariant.

Variable this : positive.
Variable P : PGView -> Prop.

Hypothesis P_generateUid : forall v,
  P v -> P (mkPGView (preludeOf v) (derivedIdsOf v) (memoisedRefsOf v) (increment (uidCounterOf v))).
Hypothesis P_addDerivedId : forall v id,
  P v -> P (mkPGView (preludeOf v) (derivedIdsOf v ++ [id]) (memoisedRefsOf v) (uidCounterOf v)).
Hypothesis P_memoiseReference : forall v key,
  P v -> memoisedRefsOf v !! key = None ->
  P (mkPGView (preludeOf v ++ [binding (t.identifier (uid (uidCounterOf v))) key])
       (derivedIdsOf v)
       (<[key := t.identifier (uid (uidCounterOf v))]> (memoisedRefsOf v))
       (increment (uidCounterOf v))).

Let holds (h : Heap) (q : positive) : Prop := exists v, view h q = Some v /\ P v.

Lemma run_invariant calls : forall snapshots h,
  holds h this ->
  Forall (fun s => separate h this s /\ holds h s) snapshots ->
  exists outs h',
    run this calls snapshots h = (Ok outs, h')
    /\ holds h' this
    /\ keepsOthers this h h'.
Proof.
  induction calls as [|c rest IH]; intros snapshots h (v & Hv & HP) Hsnaps.
  - exists [], h. split; [reflexivity|]. split; [exists v; auto|apply keepsOthers_refl].
  - assert (Hstep : forall h1 (snapshots1 : list positive) (f : list Outcome -> list Outcome),
               holds h1 this -> keepsOthers this h h1 ->
               Forall (fun s => separate h1 this s /\ holds h1 s) snapshots1 ->
               exists outs h',
                 (let! outs := run this rest snapshots1 in ret (f outs)) h1 = (Ok outs, h')
                 /\ holds h' this /\ keepsOthers this h h').
    { intros h1 snapshots1 f Hh1 Hk1 Hs1.
      destruct (IH snapshots1 h1 Hh1 Hs1) as (outs & h' & Hrun & Hh' & Hk').
      exists (f outs), h'. unfold bind, ret. rewrite Hrun.
      split; [reflexivity|]. split; [assumption|]. eapply keepsOthers_trans; eauto. }
    assert (Hmove : forall h1, keepsOthers this h h1 ->
               Forall (fun s => separate h1 this s /\ holds h1 s) snapshots).
    { intros h1 Hk. eapply Forall_impl; [exact Hsnaps|].
      intros s [Hs (w & Hw & HPw)]. destruct (Hk s Hs) as [Hs1 Hv1].
      split; [assumption|]. exists w. split; [congruence|assumption]. }
    destruct c as [|key|id| |n]; simpl run.
    + destruct (generateUid_spec h this v Hv) as (h1 & Hrun & Hv1 & Hpres & Hsep).
      assert (Hk : keepsOthers this h h1) by (eapply generateUid_keeps; eauto).
      unfold bind at 1. rewrite Hrun.
      apply Hstep; [eexists; split; [exact Hv1|auto]|assumption|auto].
    + pose proof Hv as Hv0. apply view_Some in Hv0 as (pg & Hi & Hp & Hd & Hm & Hc).
      unfold bind at 1. unfold readInstance at 1. unfold bind at 1, getState, demand.
      rewrite Hi. unfold ret at 1. unfold bind at 1. unfold readMap at 1.
      unfold bind at 1, getState, demand. rewrite Hm. unfold ret at 1.
      destruct (memoisedRefsOf v !! key) as [ref|] eqn:Hk.
      * unfold bind at 1. rewrite (memoiseReference_hit h this v key ref Hv Hk).
        apply Hstep; [exists v; auto|apply keepsOthers_refl|auto using keepsOthers_refl].
      * destruct (memoiseReference_miss h this v key Hv Hk) as (h1 & Hrun & Hv1 & Hframe).
        assert (Hkeep : keepsOthers this h h1).
        { intros q Hq. destruct (Hframe q Hq) as [Hs Hp1].
          split; [assumption|now apply preserved_view]. }
        unfold bind at 1. rewrite Hrun.
        apply Hstep; [eexists; split; [exact Hv1|]|assumption|auto].
        apply P_memoiseReference; assumption.
    + destruct (addDerivedId_spec h this v id Hv) as (h1 & Hrun & Hv1 & Hframe).
      assert (Hkeep : keepsOthers this h h1).
      { intros q Hq. destruct (Hframe q Hq) as [Hs Hp1].
        split; [assumption|now apply preserved_view]. }
      unfold bind at 1. rewrite Hrun.
      apply Hstep; [eexists; split; [exact Hv1|auto]|assumption|auto].
    + destruct (save_spec h this v Hv) as (saved & h1 & Hrun & Hfresh & Hvs & Hsep & Hpres).
      destruct (save_keeps h h1 this v saved Hv Hrun) as [Hkeep Hv1].
      unfold bind at 1. rewrite Hrun.
      apply Hstep; [exists v; auto|assumption|].
      apply Forall_app. split; [auto|].
      constructor; [|constructor]. split; [assumption|exists v; auto].
    + destruct (snapshots !! n) as [saved|] eqn:Hn.
      * pose proof (Forall_lookup_1 _ _ _ _ Hsnaps Hn) as [Hsep (w & Hw & HPw)].
        destruct (restore_spec h this saved w Hsep Hw) as (h1 & Hrun & Hv1 & Hframe).
        destruct (restore_keeps h h1 this saved w Hsep Hw Hrun) as [Hkeep _].
        unfold bind at 1. rewrite Hrun.
        apply Hstep; [exists w; auto|assumption|auto].
      * unfold bind at 1, ret at 1.
        apply Hstep; [exists v; auto|apply keepsOthers_refl|auto using keepsOthers_refl].
Qed.

End RunInvariant.

Lemma increment_le c : c <= increment c.
Proof. unfold increment. destruct (N.ltb_spec c maxCounter); lia. Qed.

Lemma increment_below c : c < maxCounter -> increment c = c + 1.
Proof. unfold increment. intros H. destruct (N.ltb_spec c maxCounter); lia. Qed.



Lemma mintedWithin_weaken lo lo' hi name :
  lo <= lo' -> mintedWithin lo' hi name -> mintedWithin lo hi name.
Proof. intros Hle (c & -> & Hc). exists c. split; [reflexivity|lia]. Qed.

Lemma mintedWithin_not_in c hi names :
  Forall (mintedWithin (c + 1) hi) names -> ~ In (uid c) names.
Proof.
  intros Hall Hin. rewrite Forall_forall in Hall.
  destruct (Hall (uid c)) as (c' & Heq & Hc'); [now apply list_elem_of_In|].
  apply uid_inj in Heq. lia.
Qed.

(** One more name at the head of a run of names minted below [2^53]. *)
Lemma minted_cons c c' names :
  (increment c + N.of_nat (length names) <= maxCounter ->
   c' = increment c + N.of_nat (length names)
   /\ Forall (mintedWithin (increment c) c') names
   /\ List.NoDup names) ->
  c + N.of_nat (length (uid c :: names)) <= maxCounter ->
  c' = c + N.of_nat (length (uid c :: names))
  /\ Forall (mintedWithin c c') (uid c :: names)
  /\ List.NoDup (uid c :: names).
Proof.
  intros H Hb. cbn [length] in *. rewrite Nat2N.inj_succ in *.
  assert (Hc : c < maxCounter) by lia. rewrite (increment_below c Hc) in H.
  destruct H as (Hc' & Hall & Hnd); [lia|].
  split; [lia|]. split.
  - constructor; [exists c; split; [reflexivity|lia]|].
    eapply Forall_impl; [exact Hall|]. intros ?. apply mintedWithin_weaken. lia.
  - constructor; [|assumption]. eapply mintedWithin_not_in; eauto.
Qed.

(** A run of calls that restores no snapshot: the counter does not go down,
    what was memoised stays memoised and the prelude only grows; and as long
    as the counter does not pass [2^53], it advances by one for each name that
    goes through [generateUid], so that these names are pairwise different. *)
Lemma run_restoreFree this calls : forall snapshots h v,
  view h this = Some v ->
  restoreFree calls = true ->
  exists outs h' v',
    run this calls snapshots h = (Ok outs, h')
    /\ view h' this = Some v'
    /\ uidCounterOf v <= uidCounterOf v'
    /\ Forall (fun name => exists c, name = uid c) (mintedNames outs)
    /\ (uidCounterOf v + N.of_nat (length (mintedNames outs)) <= maxCounter ->
        uidCounterOf v' = uidCounterOf v + N.of_nat (length (mintedNames outs))
        /\ Forall (mintedWithin (uidCounterOf v) (uidCounterOf v')) (mintedNames outs)
        /\ List.NoDup (mintedNames outs))
    /\ (forall key ref, memoisedRefsOf v !! key = Some ref ->
                        memoisedRefsOf v' !! key = Some ref)
    /\ (exists added, preludeOf v' = preludeOf v ++ added).
Proof.
  induction calls as [|c rest IH]; intros snapshots h v Hv Hfree.
  - exists [], h, v. split; [reflexivity|]. split; [assumption|].
    split; [lia|]. split; [constructor|].
    split; [intros _; cbn; split; [lia|split; constructor]|].
    split; [auto|]. exists []. now rewrite app_nil_r.
  - simpl in Hfree. apply andb_prop in Hfree as [Hc Hfree].
    assert (Hstep : forall h1 v1 (snapshots1 : list positive) (f : list Outcome -> list Outcome),
               view h1 this = Some v1 ->
               exists outs h' v',
                 (let! outs := run this rest snapshots1 in ret (f outs)) h1
                   = (Ok (f outs), h')
                 /\ view h' this = Some v'
                 /\ uidCounterOf v1 <= uidCounterOf v'
                 /\ Forall (fun name => exists c, name = uid c) (mintedNames outs)
                 /\ (uidCounterOf v1 + N.of_nat (length (mintedNames outs)) <= maxCounter ->
                     uidCounterOf v' = uidCounterOf v1 + N.of_nat (length (mintedNames outs))
                     /\ Forall (mintedWithin (uidCounterOf v1) (uidCounterOf v'))
                          (mintedNames outs)
                     /\ List.NoDup (mintedNames outs))
                 /\ (forall key ref, memoisedRefsOf v1 !! key = Some ref ->
                                     memoisedRefsOf v' !! key = Some ref)
                 /\ (exists added, preludeOf v' = preludeOf v1 ++ added)).
    { intros h1 v1 snapshots1 f Hv1.
      destruct (IH snapshots1 h1 v1 Hv1 Hfree) as (outs & h' & v' & Hrun & Hrest).
      exists outs, h', v'. unfold bind, ret. rewrite Hrun. split; [reflexivity|exact Hrest]. }
    destruct c as [|key|id| |n]; simpl run; [| | | |discriminate].
    + destruct (generateUid_spec h this v Hv) as (h1 & Hrun & Hv1 & _).
      unfold bind at 1. rewrite Hrun.
      edestruct Hstep
        as (outs & h' & v' & -> & Hv' & Hle & Hform & Hcond & Hmemo & added & Hadd);
        [exact Hv1|]. cbn [uidCounterOf preludeOf memoisedRefsOf] in *.
      eexists _, h', v'. split; [reflexivity|]. split; [assumption|].
      split; [pose proof (increment_le (uidCounterOf v)); lia|].
      simpl mintedNames. split; [constructor; eauto|].
      split; [now apply minted_cons|]. split; [exact Hmemo|eauto].
    + pose proof Hv as Hv0. apply view_Some in Hv0 as (pg & Hi & Hp & Hd & Hm & Hcc).
      unfold bind at 1. unfold readInstance at 1. unfold bind at 1, getState, demand.
      rewrite Hi. unfold ret at 1. unfold bind at 1. unfold readMap at 1.
      unfold bind at 1, getState, demand. rewrite Hm. unfold ret at 1.
      destruct (memoisedRefsOf v !! key) as [ref|] eqn:Hk.
      * unfold bind at 1. rewrite (memoiseReference_hit h this v key ref Hv Hk).
        edestruct Hstep as (outs & h' & v' & -> & Hrest); [exact Hv|].
        eexists _, h', v'. split; [reflexivity|]. simpl mintedNames.
        destruct ref; exact Hrest.
      * destruct (memoiseReference_miss h this v key Hv Hk) as (h1 & Hrun & Hv1 & _).
        unfold bind at 1. rewrite Hrun.
        edestruct Hstep
          as (outs & h' & v' & -> & Hv' & Hle & Hform & Hcond & Hmemo & added & Hadd);
          [exact Hv1|]. cbn [uidCounterOf preludeOf memoisedRefsOf] in *.
        eexists _, h', v'. split; [reflexivity|]. split; [assumption|].
        split; [pose proof (increment_le (uidCounterOf v)); lia|].
        simpl mintedNames. split; [constructor; eauto|].
        split; [now apply minted_cons|]. split.
        -- intros k r Hkr. apply Hmemo. rewrite lookup_insert_ne; [assumption|].
           intros ->. congruence.
        -- exists ([binding (t.identifier (uid (uidCounterOf v))) key] ++ added).
           now rewrite Hadd, <- app_assoc.
    + destruct (addDerivedId_spec h this v id Hv) as (h1 & Hrun & Hv1 & _).
      unfold bind at 1. rewrite Hrun.
      edestruct Hstep as (outs & h' & v' & -> & Hrest); [exact Hv1|].
      eexists _, h', v'. split; [reflexivity|]. exact Hrest.
    + destruct (save_spec h this v Hv) as (saved & h1 & Hrun & _ & _ & _ & Hpres).
      destruct (save_keeps h h1 this v saved Hv Hrun) as [_ Hv1].
      unfold bind at 1. rewrite Hrun.
      edestruct Hstep as (outs & h' & v' & -> & Hrest); [exact Hv1|].
      eexists _, h', v'. split; [reflexivity|]. exact Hrest.
Qed.

Lemma binding_inj ref1 key1 ref2 key2 :
  binding ref1 key1 = binding ref2 key2 -> ref1 = ref2 /\ key1 = key2.
Proof.
  unfold binding. intros [= -> Hk]. split; [reflexivity|].
  now apply convertStringToMember_inj.
Qed.

Lemma consistent_atMostOneBinding v key :
  consistent v -> atMostOneBinding key (preludeOf v).
Proof.
  intros (entries & Hnd & Hp & _) i j s1 s2 Hi Hj (r1 & H1) (r2 & H2).
  rewrite Hp in Hi, Hj. rewrite list_lookup_fmap in Hi, Hj.
  destruct (entries !! i) as [[k1 e1]|] eqn:Ei; [|discriminate].
  destruct (entries !! j) as [[k2 e2]|] eqn:Ej; [|discriminate].
  simpl in Hi, Hj. injection Hi as <-. injection Hj as <-.
  apply binding_inj in H1 as [_ ->]. apply binding_inj in H2 as [_ ->].
  eapply NoDup_lookup; [exact Hnd| |]; rewrite list_lookup_fmap.
  - now rewrite Ei.
  - now rewrite Ej.
Qed.

Lemma consistent_new : consistent (mkPGView [] [] ∅ 0).
Proof. exists []. split; [constructor|]. split; reflexivity. Qed.

Lemma consistent_generateUid v :
  consistent v ->
  consistent (mkPGView (preludeOf v) (derivedIdsOf v) (memoisedRefsOf v) (increment (uidCounterOf v))).
Proof. intros (entries & H). exists entries. exact H. Qed.

Lemma consistent_addDerivedId v id :
  consistent v ->
  consistent (mkPGView (preludeOf v) (derivedIdsOf v ++ [id]) (memoisedRefsOf v) (uidCounterOf v)).
Proof. intros (entries & H). exists entries. exact H. Qed.

Lemma consistent_memoiseReference v key :
  consistent v -> memoisedRefsOf v !! key = None ->
  consistent (mkPGView (preludeOf v ++ [binding (t.identifier (uid (uidCounterOf v))) key])
       (derivedIdsOf v)
       (<[key := t.identifier (uid (uidCounterOf v))]> (memoisedRefsOf v))
       (increment (uidCounterOf v))).
Proof.
  intros (entries & Hnd & Hp & Hm) Hk.
  assert (Hnew : key ∉ entries.*1).
  { apply not_elem_of_list_to_map_2. now rewrite <- Hm. }
  exists (entries ++ [(key, t.identifier (uid (uidCounterOf v)))]).
  cbn [preludeOf memoisedRefsOf]. split; [|split].
  - rewrite map_app. simpl. apply NoDup_app. split; [exact Hnd|].
    split; [|apply NoDup_singleton].
    intros x Hx Hx'. apply list_elem_of_singleton in Hx'. subst x. contradiction.
  - rewrite map_app, Hp. reflexivity.
  - rewrite Hm. symmetry. now apply list_to_map_snoc.
Qed.

Lemma convertStringToMember_fold key first rest :
  split "." key = first :: rest ->
  PreludeGenerator.convertStringToMember key
  = fold_left (fun obj prop => t.memberExpression obj prop)
      (map t.identifier rest) (t.identifier first).
Proof. unfold PreludeGenerator.convertStringToMember. now intros ->. Qed.

(** A memoised key stays memoised, with the same node, through any calls
    that restore only snapshots in which it is. *)
Lemma memoised_through_run this key ref calls : forall snapshots h v,
  view h this = Some v ->
  memoisedRefsOf v !! key = Some ref ->
  Forall (fun s => separate h this s
                   /\ exists w, view h s = Some w /\ memoisedRefsOf w !! key = Some ref)
    snapshots ->
  exists outs h',
    run this calls snapshots h = (Ok outs, h')
    /\ PreludeGenerator.memoiseReference this key h' = (Ok ref, h').
Proof.
  intros snapshots h v Hv Hk Hsnaps.
  destruct (run_invariant this (fun w => memoisedRefsOf w !! key = Some ref))
    with (calls := calls) (snapshots := snapshots) (h := h)
    as (outs & h' & Hrun & (v' & Hv' & Hk') & _).
  - auto.
  - auto.
  - intros w key' Hw Hnew. cbn [memoisedRefsOf].
    rewrite lookup_insert_ne; [assumption|]. intros ->. congruence.
  - exists v. auto.
  - exact Hsnaps.
  - exists outs, h'. split; [exact Hrun|]. eapply memoiseReference_hit; eauto.
Qed.

(** What [restore] undoes: a key memoised after the snapshot was taken is new
    again after the restore, and is bound again. *)
Lemma memoised_forgotten_by_restore h this v key calls :
  view h this = Some v ->
  memoisedRefsOf v !! key = None ->
  let ref := t.identifier (uid (uidCounterOf v)) in
  exists saved h1 h2 outs h3 h4 h5 v5,
    PreludeGenerator.save this h = (Ok saved, h1)
    /\ PreludeGenerator.memoiseReference this key h1 = (Ok ref, h2)
    /\ run this calls [saved] h2 = (Ok outs, h3)
    /\ PreludeGenerator.restore this saved h3 = (Ok tt, h4)
    /\ view h4 this = Some v
    /\ PreludeGenerator.memoiseReference this key h4 = (Ok ref, h5)
    /\ view h5 this = Some v5
    /\ preludeOf v5 = preludeOf v ++ [binding ref key].
Proof.
  intros Hv Hk ref.
  destruct (save_spec h this v Hv) as (saved & h1 & Hsave & _ & Hvs & Hsep1 & Hpres).
  destruct (save_keeps h h1 this v saved Hv Hsave) as [_ Hv1].
  destruct (memoiseReference_miss h1 this v key Hv1 Hk) as (h2 & Hmemo & Hv2 & Hframe).
  destruct (Hframe saved Hsep1) as [Hsep2 Hp2].
  assert (Hvs2 : view h2 saved = Some v) by (rewrite (preserved_view _ _ _ Hp2); exact Hvs).
  destruct (run_invariant this (fun _ => True) (fun _ _ => I) (fun _ _ _ => I)
              (fun _ _ _ _ => I) calls [saved] h2)
    as (outs & h3 & Hrun & _ & Hkeep).
  { eexists. split; [exact Hv2|exact I]. }
  { constructor; [|constructor]. split; [assumption|]. exists v. auto. }
  destruct (Hkeep saved Hsep2) as [Hsep3 Hvs3]. rewrite Hvs2 in Hvs3.
  destruct (restore_spec h3 this saved v Hsep3 Hvs3) as (h4 & Hrestore & Hv4 & _).
  destruct (memoiseReference_miss h4 this v key Hv4 Hk) as (h5 & Hmemo5 & Hv5 & _).
  eexists saved, h1, h2, outs, h3, h4, h5, _.
  split; [exact Hsave|]. split; [exact Hmemo|]. split; [exact Hrun|].
  split; [exact Hrestore|]. split; [exact Hv4|]. split; [exact Hmemo5|].
  split; [exact Hv5|]. reflexivity.
Qed.

(** C5, as stated, fails: [restore] rolls the memo table back with the
    prelude, so a key first requested after a snapshot is new again once the
    snapshot is restored; it is then bound a second time, and to another node
    when the counter has moved in between. *)
Lemma memoiseReference_differs_after_restore :
  exists saved,
    fst ((let! this := PreludeGenerator.new in
          run this [CallSave; CallMemoiseReference "a"; CallRestore 0; CallGenerateUid;
                    CallMemoiseReference "a"] []) emptyHeap)
    = Ok [Snapshot saved; Reference (t.identifier "_0") true; Done; Minted "_0";
          Reference (t.identifier "_1") true]
    /\ t.identifier "_0" <> t.identifier "_1".
Proof. eexists. split; [vm_compute; reflexivity|discriminate]. Qed.

(** C5 (amended): at every moment of the lifetime of a prelude generator,
    from its construction and through any sequence of calls, snapshots and
    restores included, the prelude holds at most one binding of a given key;
    [memoiseReference key] binds the new reference to
    [convertStringToMember key] when the key is new and appends nothing when
    it is not; once it has answered, in whatever state, every later request
    for the key returns the same node and leaves the store as it is, after any
    calls that restore no snapshot and also after calls that restore
    snapshots taken since; restoring a snapshot taken before the key was first
    requested makes the key new again, and the next request binds it again;
    and [convertStringToMember] folds the segments between the dots, from the
    left, into nested member accesses, a single segment giving the bare
    identifier. *)
Theorem memoiseReference_once h this v key :
  view h this = Some v ->
  (forall h0 calls, exists new h1 outs h2 v2,
      PreludeGenerator.new h0 = (Ok new, h1)
      /\ run new calls [] h1 = (Ok outs, h2)
      /\ view h2 new = Some v2
      /\ atMostOneBinding key (preludeOf v2))
  /\ (exists ref h1 v1,
        PreludeGenerator.memoiseReference this key h = (Ok ref, h1)
        /\ view h1 this = Some v1
        /\ memoisedRefsOf v1 !! key = Some ref
        /\ preludeOf v1 =
             match memoisedRefsOf v !! key with
             | Some _ => preludeOf v
             | None => preludeOf v ++
                         [t.variableDeclaration "var"
                            [t.variableDeclarator ref
                               (PreludeGenerator.convertStringToMember key)]]
             end
        /\ (forall calls snapshots, restoreFree calls = true ->
              exists outs h2,
                run this calls snapshots h1 = (Ok outs, h2)
                /\ PreludeGenerator.memoiseReference this key h2 = (Ok ref, h2))
        /\ (forall calls,
              exists outs h2,
                run this calls [] h1 = (Ok outs, h2)
                /\ PreludeGenerator.memoiseReference this key h2 = (Ok ref, h2)))
  /\ (memoisedRefsOf v !! key = None ->
      forall calls,
        let ref := t.identifier (String "_" (base62.encode (uidCounterOf v))) in
        exists saved h1 h2 outs h3 h4 h5 v5,
          PreludeGenerator.save this h = (Ok saved, h1)
          /\ PreludeGenerator.memoiseReference this key h1 = (Ok ref, h2)
          /\ run this calls [saved] h2 = (Ok outs, h3)
          /\ PreludeGenerator.restore this saved h3 = (Ok tt, h4)
          /\ view h4 this = Some v
          /\ PreludeGenerator.memoiseReference this key h4 = (Ok ref, h5)
          /\ view h5 this = Some v5
          /\ preludeOf v5 =
               preludeOf v ++
                 [t.variableDeclaration "var"
                    [t.variableDeclarator ref
                       (PreludeGenerator.convertStringToMember key)]])
  /\ (forall first rest, split "." key = first :: rest ->
        PreludeGenerator.convertStringToMember key
        = fold_left (fun obj prop => t.memberExpression obj prop)
            (map t.identifier rest) (t.identifier first))
  /\ (split "." key = [key] ->
        PreludeGenerator.convertStringToMember key = t.identifier key).
Proof.
  intros Hv. split; [|split; [|split; [|split]]].
  - intros h0 calls.
    destruct (new_spec h0) as (new & h1 & Hnew & _ & Hv1 & _).
    destruct (run_invariant new consistent consistent_generateUid
                consistent_addDerivedId consistent_memoiseReference calls [] h1)
      as (outs & h2 & Hrun & (v2 & Hv2 & Hc2) & _).
    { exists (mkPGView [] [] ∅ 0). split; [exact Hv1|apply consistent_new]. }
    { constructor. }
    exists new, h1, outs, h2, v2. repeat split; try assumption.
    now apply consistent_atMostOneBinding.
  - assert (Hlater : forall ref h1 v1, view h1 this = Some v1 ->
              memoisedRefsOf v1 !! key = Some ref ->
              (forall calls snapshots, restoreFree calls = true ->
                 exists outs h2,
                   run this calls snapshots h1 = (Ok outs, h2)
                   /\ PreludeGenerator.memoiseReference this key h2 = (Ok ref, h2))
              /\ (forall calls,
                    exists outs h2,
                      run this calls [] h1 = (Ok outs, h2)
                      /\ PreludeGenerator.memoiseReference this key h2 = (Ok ref, h2))).
    { intros ref h1 v1 Hv1 Hk. split.
      - intros calls snapshots Hfree.
        destruct (run_restoreFree this calls snapshots h1 v1 Hv1 Hfree)
          as (outs & h2 & v2 & Hrun & Hv2 & _ & _ & _ & Hmemo & _).
        exists outs, h2. split; [assumption|].
        eapply memoiseReference_hit; eauto.
      - intros calls.
        apply (memoised_through_run this key ref calls [] h1 v1 Hv1 Hk). constructor. }
    destruct (memoisedRefsOf v !! key) as [ref|] eqn:Hk.
    + exists ref, h, v. split; [now apply (memoiseReference_hit h this v)|].
      split; [assumption|]. split; [assumption|]. split; [reflexivity|].
      now apply (Hlater ref h v).
    + destruct (memoiseReference_miss h this v key Hv Hk) as (h1 & Hrun & Hv1 & _).
      eexists _, h1, _. split; [exact Hrun|]. split; [exact Hv1|].
      cbn [memoisedRefsOf preludeOf]. split; [apply lookup_insert_eq|].
      split; [reflexivity|].
      eapply Hlater; [exact Hv1|]. apply lookup_insert_eq.
  - intros Hk calls. apply (memoised_forgotten_by_restore h this v key calls Hv Hk).
  - intros first rest. apply convertStringToMember_fold.
  - intros Hs. now rewrite (convertStringToMember_fold key key []).
Qed.

Lemma memoiseReference_once_witness :
  view Demo.heap0 Demo.pg = Some (mkPGView [] [] ∅ 0)
  /\ exists ref h1 v1,
       PreludeGenerator.memoiseReference Demo.pg "a.b.c" Demo.heap0 = (Ok ref, h1)
       /\ view h1 Demo.pg = Some v1
       /\ preludeOf v1 =
            [t.variableDeclaration "var"
               [t.variableDeclarator ref
                  (t.memberExpression
                     (t.memberExpression (t.identifier "a") (t.identifier "b"))
                     (t.identifier "c"))]]
       /\ PreludeGenerator.memoiseReference Demo.pg "a.b.c" h1 = (Ok ref, h1).
Proof.
  split; [reflexivity|].
  destruct (memoiseReference_once Demo.heap0 Demo.pg (mkPGView [] [] ∅ 0) "a.b.c"
              eq_refl) as (_ & (ref & h1 & v1 & Hrun & Hv1 & _ & Hp & Hlater & _) & _).
  exists ref, h1, v1. split; [exact Hrun|]. split; [exact Hv1|]. split; [exact Hp|].
  destruct (Hlater [] [] eq_refl) as (outs & h2 & Hrun2 & Hagain).
  injection Hrun2 as _ <-. exact Hagain.
Defined.

(** C6: a snapshot taken by [save] holds the contents the generator had at
    that time; whatever calls then mutate the generator, the snapshot is
    independent of it and keeps those contents; and [restore] from the
    snapshot brings the generator back to them: same [uidCounter], same
    [derivedIds], same [memoisedRefs], same [prelude]. *)
Theorem save_restore_roundtrip h this v calls :
  view h this = Some v ->
  exists saved h1 outs h2 h3,
    PreludeGenerator.save this h = (Ok saved, h1)
    /\ run this calls [saved] h1 = (Ok outs, h2)
    /\ PreludeGenerator.restore this saved h2 = (Ok tt, h3)
    /\ view h1 saved = Some v
    /\ view h2 saved = Some v
    /\ view h3 saved = Some v
    /\ view h3 this = Some v
    /\ separate h1 this saved
    /\ separate h2 this saved
    /\ separate h3 this saved.
Proof.
  intros Hv.
  destruct (save_spec h this v Hv) as (saved & h1 & Hsave & _ & Hvs & Hsep1 & Hpres).
  destruct (save_keeps h h1 this v saved Hv Hsave) as [_ Hv1].
  destruct (run_invariant this (fun _ => True) (fun _ _ => I) (fun _ _ _ => I)
              (fun _ _ _ _ => I) calls [saved] h1)
    as (outs & h2 & Hrun & _ & Hkeep).
  { exists v. auto. }
  { constructor; [|constructor]. split; [assumption|]. exists v. auto. }
  destruct (Hkeep saved Hsep1) as [Hsep2 Hvs2].
  rewrite Hvs in Hvs2.
  destruct (restore_spec h2 this saved v Hsep2 Hvs2) as (h3 & Hrestore & Hv3 & Hframe).
  destruct (Hframe saved) as [Hp3 Hsep3].
  { apply not_eq_sym. apply Hsep2. }
  { eauto. }
  exists saved, h1, outs, h2, h3. repeat split; try assumption;
    try apply Hsep1; try apply Hsep2; try apply Hsep3.
  rewrite (preserved_view _ _ _ Hp3). exact Hvs2.
Qed.

Lemma save_restore_roundtrip_witness :
  view Demo.heap0 Demo.pg = Some (mkPGView [] [] ∅ 0)
  /\ exists saved h1 outs h2 h3,
    PreludeGenerator.save Demo.pg Demo.heap0 = (Ok saved, h1)
    /\ run Demo.pg [CallGenerateUid; CallMemoiseReference "Object.defineProperty";
                    CallAddDerivedId (t.identifier "_0")] [saved] h1 = (Ok outs, h2)
    /\ PreludeGenerator.restore Demo.pg saved h2 = (Ok tt, h3)
    /\ view h3 Demo.pg = Some (mkPGView [] [] ∅ 0).
Proof.
  split; [reflexivity|].
  destruct (save_restore_roundtrip Demo.heap0 Demo.pg (mkPGView [] [] ∅ 0)
              [CallGenerateUid; CallMemoiseReference "Object.defineProperty";
               CallAddDerivedId (t.identifier "_0")] eq_refl)
    as (saved & h1 & outs & h2 & h3 & H1 & H2 & H3 & _ & _ & _ & H4 & _).
  exists saved, h1, outs, h2, h3. auto.
Defined.







(** ** Symbolic values *)

Lemma same_class_true a b : same_class a b = true <-> a = b.
Proof. unfold same_class. apply bool_decide_eq_true. Qed.

Lemma same_class_false a b : same_class a b = false <-> a <> b.
Proof. unfold same_class. apply bool_decide_eq_false. Qed.

Section AbstractValueStore.

Context {VD : Type} `{!ValuesDomain.Algebra VD}.

Lemma newObject_spec (o : ValueObject VD) (r : Realm VD) :
  exists l, newObject o r = (Ok l, set_objects (insert l o) r) /\ objects r !! l = None.
Proof. eexists. split; [reflexivity|]. apply not_elem_of_dom, is_fresh. Qed.

Lemma newValueArray_spec (c : list positive) (r : Realm VD) :
  exists l, newValueArray c r = (Ok l, set_arrays (insert l c) r) /\ arrays r !! l = None.
Proof. eexists. split; [reflexivity|]. apply not_elem_of_dom, is_fresh. Qed.

Lemma constructor_run (asObjectVariant : bool) (types : TypesDomain)
    (values : VD) (args : positive) (buildNode : BuildNode)
    (kind intrinsicName : option string) (realm : Realm VD) :
  let faulty :=
    isPartial realm = false
    \/ (getType types = ObjectValue /\ asObjectVariant = false)
    \/ getType types = NullValue
    \/ getType types = UndefinedValue in
  (faulty ->
     AbstractValue.constructor asObjectVariant types values args buildNode kind
       intrinsicName realm = (Throw InvariantViolation, realm))
  /\ (~ faulty ->
      exists this,
        AbstractValue.constructor asObjectVariant types values args buildNode kind
          intrinsicName realm
        = (Ok this,
           set_objects
             (insert this
                (AbstractObject
                   (mkAbstractValue asObjectVariant intrinsicName types values args
                      buildNode kind)))
             realm)
        /\ objects realm !! this = None).
Proof.
  intros faulty. subst faulty. unfold AbstractValue.constructor.
  cbv beta iota zeta delta [bind ret throw getState invariant].
  destruct (isPartial realm) eqn:Hp.
  2:{ split; [reflexivity|]. intros Hnot. exfalso. apply Hnot. now left. }
  destruct (same_class (getType types) ObjectValue) eqn:Ho;
    destruct asObjectVariant eqn:Hv; cbn [negb orb];
    destruct (same_class (getType types) NullValue) eqn:Hn;
    destruct (same_class (getType types) UndefinedValue) eqn:Hu; cbn [negb andb];
    rewrite ?same_class_true, ?same_class_false in *;
    (split;
     [ intros [Hf|[[Hf1 Hf2]|[Hf|Hf]]]; first [reflexivity | congruence]
     | intros Hnot;
       first [ exfalso; apply Hnot; tauto
             | destruct (newObject_spec
                 (AbstractObject
                    (mkAbstractValue asObjectVariant intrinsicName types values args
                       buildNode kind)) realm) as (l & Hl & Hfresh);
               subst asObjectVariant; rewrite Hl; eauto ] ]).
Qed.

(** C2: the constructor raises the internal-consistency fault, and creates
    nothing, when the realm is not in partial mode, when the type is the
    object class and the instance is not an [AbstractObjectValue], and when the
    type is the null or the undefined class; in every other case it returns a
    new abstract value holding the arguments. *)
Theorem constructor_faults_or_succeeds (asObjectVariant : bool) (types : TypesDomain)
    (values : VD) (args : positive) (buildNode : BuildNode)
    (kind intrinsicName : option string) (realm : Realm VD) :
  let faulty :=
    isPartial realm = false
    \/ (getType types = ObjectValue /\ asObjectVariant = false)
    \/ getType types = NullValue
    \/ getType types = UndefinedValue in
  (faulty ->
     AbstractValue.constructor asObjectVariant types values args buildNode kind
       intrinsicName realm = (Throw InvariantViolation, realm))
  /\ (~ faulty ->
      exists this,
        AbstractValue.constructor asObjectVariant types values args buildNode kind
          intrinsicName realm
        = (Ok this,
           set_objects
             (insert this
                (AbstractObject
                   (mkAbstractValue asObjectVariant intrinsicName types values args
                      buildNode kind)))
             realm)
        /\ objects realm !! this = None).
Proof.
  exact (constructor_run asObjectVariant types values args buildNode kind
           intrinsicName realm).
Qed.


End AbstractValueStore.

Ltac realm_proj :=
  cbn [isPartial intrinsics preludeGenerator heap objects arrays
       set_heap set_objects set_arrays
       instanceofAbstractObjectValue intrinsicName types values args _buildNode kind
       with_intrinsicName with_values with_args with_buildNode with_kind
       getType undefined empty fst snd] in *.

Ltac unfold_realm_ops :=
  cbv beta iota zeta delta
    [bind ret throw getState modify demand invariant
     readAbstract assignAbstract readValueArray
     AbstractValue.getType AbstractValue.constructor AbstractValue.createAbstract].

Ltac realm_alloc :=
  let l := fresh "l" in
  let Hl := fresh "Hl" in
  match goal with
  | |- context [newObject ?o ?r] =>
      destruct (newObject_spec o r) as (l & -> & Hl); realm_proj;
      repeat (let Hne := fresh "Hne" in apply lookup_insert_None in Hl as [Hl Hne])
  | |- context [newValueArray ?c ?r] =>
      destruct (newValueArray_spec c r) as (l & -> & Hl); realm_proj;
      repeat (let Hne := fresh "Hne" in apply lookup_insert_None in Hl as [Hl Hne])
  end.

Ltac realm_step :=
  first
    [ progress (cbv beta iota zeta)
    | progress realm_proj
    | progress (cbn [negb orb andb])
    | realm_alloc
    | match goal with
      | H : ?x = Some _ |- context [?x] => rewrite H
      | H : ?x = None |- context [?x] => rewrite H
      | H : ?x = true |- context [?x] => rewrite H
      | H : ?x = false |- context [?x] => rewrite H
      end
    | rewrite lookup_insert_eq
    | rewrite lookup_insert_ne by congruence
    | rewrite (proj2 (same_class_false _ _)) by discriminate ].

Ltac run_realm := unfold_realm_ops; repeat realm_step.

Section AbstractValueProperties.

Context {VD : Type} `{!ValuesDomain.Algebra VD}.

(** C3: when the resolved type is [NumberValue], [mightBeNumber] answers
    [true] and [mightNotBeNumber] answers [false], whatever the value domain
    holds; otherwise they answer the membership queries of the value
    domain. Neither changes the store. *)
Theorem mightBeNumber_spec (realm : Realm VD) (this : positive) (v : AbstractValue VD) :
  objects realm !! this = Some (AbstractObject v) ->
  (getType (types v) = NumberValue ->
     AbstractValue.mightBeNumber this realm = (Ok true, realm)
     /\ AbstractValue.mightNotBeNumber this realm = (Ok false, realm))
  /\ (getType (types v) <> NumberValue ->
      AbstractValue.mightBeNumber this realm
        = (Ok (ValuesDomain.includesValueOfType (values v) NumberValue), realm)
      /\ AbstractValue.mightNotBeNumber this realm
        = (Ok (ValuesDomain.includesValueNotOfType (values v) NumberValue), realm)).
Proof.
  intros Hv. unfold AbstractValue.mightBeNumber, AbstractValue.mightNotBeNumber.
  split; intros Ht.
  - apply same_class_true in Ht. run_realm. split; reflexivity.
  - apply same_class_false in Ht. run_realm. split; reflexivity.
Qed.

(** The constructor invariants, as a condition on the type of a value that is
    not an [AbstractObjectValue]. *)
Lemma constructor_plain (types : TypesDomain) (values : VD) (args : positive)
    (buildNode : BuildNode) (kind intrinsicName : option string) (realm : Realm VD) :
  isPartial realm = true ->
  getType types <> ObjectValue -> getType types <> NullValue ->
  getType types <> UndefinedValue ->
  exists this,
    AbstractValue.constructor false types values args buildNode kind intrinsicName realm
    = (Ok this,
       set_objects
         (insert this
            (AbstractObject
               (mkAbstractValue false intrinsicName types values args buildNode kind)))
         realm)
    /\ objects realm !! this = None.
Proof.
  intros Hp Ho Hn Hu.
  apply (constructor_run false types values args buildNode kind intrinsicName realm).
  intros [Hf|[[Hf _]|[Hf|Hf]]]; congruence.
Qed.

Lemma clone_run (realm : Realm VD) (this : positive) (v : AbstractValue VD) :
  objects realm !! this = Some (AbstractObject v) ->
  isPartial realm = true ->
  getType (types v) <> ObjectValue ->
  getType (types v) <> NullValue ->
  getType (types v) <> UndefinedValue ->
  exists result realm' c,
    AbstractValue.clone this realm = (Ok result, realm')
    /\ objects realm !! result = None
    /\ result <> this
    /\ objects realm' !! result = Some (AbstractObject c)
    /\ intrinsicName c = None
    /\ args c = args v
    /\ arrays realm' = arrays realm
    /\ types c = types v /\ values c = values v /\ _buildNode c = _buildNode v
    /\ kind c = (if truthy_string (kind v) then kind v else None)
    /\ instanceofAbstractObjectValue c = false
    /\ objects realm' !! this = Some (AbstractObject v)
    /\ (forall l, l <> result -> objects realm' !! l = objects realm !! l)
    /\ isPartial realm' = true /\ intrinsics realm' = intrinsics realm.
Proof.
  intros Hv Hp Ho Hn Hu. unfold AbstractValue.clone.
  unfold bind at 1. unfold readAbstract at 1. unfold bind at 1, getState. rewrite Hv.
  unfold ret at 1.
  destruct (constructor_plain (types v) (values v) (args v) (_buildNode v) None None
              realm Hp Ho Hn Hu) as (result & Hrun & Hfresh).
  unfold bind at 1. rewrite Hrun.
  assert (Hne : result <> this) by congruence.
  destruct (truthy_string (kind v)) eqn:Hk; run_realm;
    (eexists _, _, _; split; [reflexivity|]; realm_proj; split; [assumption|];
     split; [assumption|]; rewrite ?lookup_insert_eq;
     split; [reflexivity|]; realm_proj; rewrite ?Hk; repeat (split; [reflexivity|]);
     split; [rewrite !lookup_insert_ne by congruence; assumption|];
     split; [intros l Hl; rewrite !lookup_insert_ne by congruence; reflexivity|];
     split; [assumption|reflexivity]).
Qed.

(** C10: the clone is a new abstract value with the type and value domains,
    the recipe and (when truthy) the kind of the original; its [intrinsicName]
    is unset whatever the original's is; and its [args] field is the
    reference the original holds, to the same array: no array is created. *)
Theorem clone_spec (realm : Realm VD) (this : positive) (v : AbstractValue VD) :
  objects realm !! this = Some (AbstractObject v) ->
  isPartial realm = true ->
  getType (types v) <> ObjectValue ->
  getType (types v) <> NullValue ->
  getType (types v) <> UndefinedValue ->
  exists result realm' c,
    AbstractValue.clone this realm = (Ok result, realm')
    /\ result <> this
    /\ objects realm !! result = None
    /\ objects realm' !! result = Some (AbstractObject c)
    /\ objects realm' !! this = Some (AbstractObject v)
    /\ intrinsicName c = None
    /\ args c = args v
    /\ arrays realm' = arrays realm
    /\ types c = types v /\ values c = values v /\ _buildNode c = _buildNode v
    /\ kind c = (if truthy_string (kind v) then kind v else None).
Proof.
  intros Hv Hp Ho Hn Hu.
  destruct (clone_run realm this v Hv Hp Ho Hn Hu)
    as (result & realm' & c & Hrun & Hfresh & Hne & Hres & Hname & Hargs & Harr
        & Htypes & Hvalues & Hbuild & Hkind & _ & Hthis & _).
  exists result, realm', c. repeat split; assumption.
Qed.


(** C4: when the value domain cannot include the deletion sentinel,
    [promoteEmptyToUndefined] returns [this] and leaves the store as it is.
    Otherwise it returns a new value, a clone of [this] whose value domain is
    the promoted one, whose dependencies are [[cond, undefined, this]] and
    whose recipe is the conditional expression over them; [cond] is a new
    boolean abstract value with dependencies [[this, empty]] and the strict
    equality of the two as its recipe. *)
Theorem promoteEmptyToUndefined_spec (realm : Realm VD) (this : positive)
    (v : AbstractValue VD) :
  objects realm !! this = Some (AbstractObject v) ->
  (ValuesDomain.includesValueOfType (values v) EmptyValue = false ->
     AbstractValue.promoteEmptyToUndefined this realm = (Ok this, realm))
  /\ (ValuesDomain.includesValueOfType (values v) EmptyValue = true ->
      isPartial realm = true ->
      getType (types v) <> ObjectValue ->
      getType (types v) <> NullValue ->
      getType (types v) <> UndefinedValue ->
      exists result cond realm' r g,
        AbstractValue.promoteEmptyToUndefined this realm = (Ok result, realm')
        /\ result <> this /\ cond <> this /\ cond <> result
        /\ objects realm !! result = None /\ objects realm !! cond = None
        /\ objects realm' !! this = Some (AbstractObject v)
        /\ objects realm' !! result = Some (AbstractObject r)
        /\ types r = types v
        /\ values r = ValuesDomain.promoteEmptyToUndefined (values v)
        /\ arrays realm' !! args r = Some [cond; undefined (intrinsics realm); this]
        /\ _buildNode r = Closure AbstractValue.conditional
        /\ objects realm' !! cond = Some (AbstractObject g)
        /\ types g = mkTypesDomain BooleanValue
        /\ values g = ValuesDomain.topVal
        /\ arrays realm' !! args g = Some [this; empty (intrinsics realm)]
        /\ _buildNode g = Closure AbstractValue.strictEquality
        /\ (forall x y, AbstractValue.strictEquality [x; y] = t.binaryExpression "===" x y)
        /\ (forall c u o, AbstractValue.conditional [c; u; o]
                          = t.conditionalExpression c u o)).
Proof.
  intros Hv. split.
  - intros He. unfold AbstractValue.promoteEmptyToUndefined. run_realm. reflexivity.
  - intros He Hp Ho Hn Hu.
    destruct (clone_run realm this v Hv Hp Ho Hn Hu)
      as (result & realm1 & c & Hclone & Hfresh & Hne & Hres & Hname & Hargs & Harr
          & Htypes & Hvalues & Hbuild & Hkind & Hvariant & Hthis & Hothers & Hp1 & Hintr).
    unfold AbstractValue.promoteEmptyToUndefined.
    unfold bind at 1. unfold readAbstract at 1. unfold bind at 1, getState. rewrite Hv.
    unfold ret at 1. rewrite He. cbn [negb]. unfold bind at 1. rewrite Hclone.
    run_realm.
    assert (Hcond : objects realm !! l0 = None).
    { rewrite <- Hothers by congruence. assumption. }
    eexists result, l0, _, _, _. split; [reflexivity|]. realm_proj.
    rewrite ?lookup_insert_eq.
    split; [assumption|]. split; [congruence|]. split; [congruence|].
    split; [assumption|]. split; [assumption|].
    split; [rewrite !lookup_insert_ne by congruence; assumption|].
    split; [reflexivity|]. realm_proj.
    split; [assumption|]. split; [congruence|].
    split; [rewrite lookup_insert_eq, Hintr; reflexivity|].
    split; [reflexivity|].
    split; [rewrite !lookup_insert_ne by congruence; rewrite lookup_insert_eq; reflexivity|].
    realm_proj. split; [reflexivity|]. split; [reflexivity|].
    split; [rewrite lookup_insert_ne by congruence; rewrite lookup_insert_eq, Hintr;
            reflexivity|].
    split; [reflexivity|]. split; reflexivity.
Qed.

End AbstractValueProperties.

Lemma mightBeNumber_spec_witness :
  objects Demo.realm1 !! Demo.value1 = Some (AbstractObject Demo.abstract1)
  /\ AbstractValue.mightBeNumber Demo.value1 Demo.realm1 = (Ok true, Demo.realm1)
  /\ AbstractValue.mightNotBeNumber Demo.value1 Demo.realm1 = (Ok false, Demo.realm1).
Proof.
  split; [reflexivity|].
  apply (mightBeNumber_spec Demo.realm1 Demo.value1 Demo.abstract1); reflexivity.
Defined.

Lemma clone_spec_witness :
  objects Demo.realm1 !! Demo.value1 = Some (AbstractObject Demo.abstract1)
  /\ exists result realm' c,
       AbstractValue.clone Demo.value1 Demo.realm1 = (Ok result, realm')
       /\ objects realm' !! result = Some (AbstractObject c)
       /\ intrinsicName Demo.abstract1 = Some "x"
       /\ intrinsicName c = None
       /\ args c = args Demo.abstract1.
Proof.
  split; [reflexivity|].
  destruct (clone_spec Demo.realm1 Demo.value1 Demo.abstract1)
    as (result & realm' & c & Hrun & _ & _ & Hres & _ & Hname & Hargs & _);
    [reflexivity|reflexivity|discriminate|discriminate|discriminate|].
  exists result, realm', c. auto.
Defined.

Lemma promoteEmptyToUndefined_spec_witness :
  objects Demo.realm1 !! Demo.value1 = Some (AbstractObject Demo.abstract1)
  /\ ValuesDomain.includesValueOfType (values Demo.abstract1) EmptyValue = true
  /\ exists result realm' r,
       AbstractValue.promoteEmptyToUndefined Demo.value1 Demo.realm1 = (Ok result, realm')
       /\ result <> Demo.value1
       /\ objects realm' !! result = Some (AbstractObject r)
       /\ values r = Some [NumberValue; UndefinedValue].
Proof.
  split; [reflexivity|]. split; [reflexivity|].
  destruct (promoteEmptyToUndefined_spec Demo.realm1 Demo.value1 Demo.abstract1 eq_refl)
    as [_ Hpromote].
  destruct Hpromote
    as (result & cond & realm' & r & g & Hrun & Hne & _ & _ & _ & _ & _ & Hres & _ & Hval & _);
    [reflexivity|reflexivity|discriminate|discriminate|discriminate|].
  exists result, realm', r. auto.
Defined.

(** ** The effect recorder *)

Ltac gen_proj :=
  cbn [Generator.realm Generator.body Generator.preludeGenerator Generator.set_realm
       Generator.declaresDerivedId Generator.args Generator.buildNode] in *.

Ltac unfold_gen_ops :=
  cbv beta iota zeta delta
    [bind ret throw getState modify demand invariant zoom
     Generator.onRealm onHeap Generator.push Generator.emitInvariant
     readAbstract assignAbstract readValueArray
     AbstractValue.constructor AbstractValue.createAbstract].

Ltac gen_step :=
  first
    [ progress (cbv beta iota zeta)
    | progress gen_proj
    | realm_step ].

Ltac run_gen := unfold_gen_ops; repeat gen_step.

Section GeneratorProperties.

Context {VD : Type} `{!ValuesDomain.Algebra VD}.

Lemma emitPropertyAssignment_run (object : positive) (key : string) (value : positive)
    (g : Generator.Generator VD) :
  exists args,
    arrays (Generator.realm g) !! args = None
    /\ Generator.emitPropertyAssignment object key value g
       = (Ok tt,
          Generator.mkGenerator
            (set_arrays (insert args [object; value]) (Generator.realm g))
            (Generator.body g ++
               [Generator.mkBodyEntry None args
                  (fun nodes => ret
                     (t.expressionStatement
                        (t.assignmentExpression "="
                           (t.memberExpression (node_at nodes 0) (t.identifier key))
                           (node_at nodes 1))))])
            (Generator.preludeGenerator g)).
Proof.
  unfold Generator.emitPropertyAssignment. run_gen. eexists. split; [eassumption|reflexivity].
Qed.

Lemma emitDefineProperty_general_run (object : positive) (key : string)
    (desc : Descriptor.Descriptor) (g : Generator.Generator VD) :
  plainData desc = false ->
  let undef := undefined (intrinsics (Generator.realm g)) in
  exists args,
    arrays (Generator.realm g) !! args = None
    /\ Generator.emitDefineProperty object key desc g
       = (Ok tt,
          Generator.mkGenerator
            (set_arrays
               (insert args
                  [object; default undef (Descriptor.value desc);
                   default undef (Descriptor.get desc);
                   default undef (Descriptor.set desc)])
               (Generator.realm g))
            (Generator.body g ++
               [Generator.mkBodyEntry None args
                  (Generator.buildDefineProperty (Generator.preludeGenerator g) key desc)])
            (Generator.preludeGenerator g)).
Proof.
  intros Hplain undef. subst undef. unfold Generator.emitDefineProperty.
  rewrite Hplain. run_gen. eexists. split; [eassumption|reflexivity].
Qed.

Lemma emitDefineProperty_plain_run (object : positive) (key : string)
    (desc : Descriptor.Descriptor) (descValue : positive) (o : ValueObject VD)
    (g : Generator.Generator VD) :
  plainData desc = true ->
  Descriptor.value desc = Some descValue ->
  objects (Generator.realm g) !! descValue = Some o ->
  Generator.emitDefineProperty object key desc g
  = if instanceofValue o
    then Generator.emitPropertyAssignment object key descValue g
    else (Throw InvariantViolation, g).
Proof.
  intros Hplain Hvalue Ho. unfold Generator.emitDefineProperty.
  rewrite Hplain, Hvalue.
  unfold bind at 1. unfold Generator.onRealm, zoom, readObject, bind, getState, demand.
  rewrite Ho. unfold ret. destruct g as [realm body pg].
  cbn [Generator.set_realm Generator.realm Generator.body Generator.preludeGenerator].
  unfold invariant. destruct (instanceofValue o); reflexivity.
Qed.

Lemma checkedValue_plain (e : Emit) (v : positive) :
  checkedValue e = Some v ->
  exists object key desc,
    e = EmitDefineProperty object key desc
    /\ plainData desc = true /\ Descriptor.value desc = Some v.
Proof.
  destruct e as [| | | |object key desc| | |]; try discriminate. cbn [checkedValue].
  destruct (plainData desc) eqn:Hplain; [|discriminate]. eauto 6.
Qed.

Lemma plainData_value (desc : Descriptor.Descriptor) :
  plainData desc = true -> exists descValue, Descriptor.value desc = Some descValue.
Proof.
  unfold plainData. intros Hplain. apply andb_prop in Hplain as [_ Hv].
  unfold truthy_value in Hv. apply bool_decide_eq_true in Hv as [x Hx]. eauto.
Qed.

Lemma lookup_insert_fresh {A : Type} (m : gmap positive A) (l k : positive) (x y : A) :
  m !! l = None -> m !! k = Some y -> <[l := x]> m !! k = Some y.
Proof. intros Hl Hk. rewrite lookup_insert_ne by congruence. exact Hk. Qed.

(** C9: every [emit*] operation whose input is well typed returns normally
    and appends exactly one entry at the end of the body, the entries recorded
    before staying where they were; it runs no [buildNode], so the store of
    the prelude generators is as it was, and it keeps the objects and arrays
    that existed. The one fault is that of malformed descriptor input:
    [emitDefineProperty] on an enumerable, configurable and writable
    descriptor whose value is not an instance of [Value] raises the
    internal-consistency fault and records nothing. [empty()] answers [true]
    exactly when the body holds no entry, as in a generator just
    constructed. *)
Theorem emit_appends_one (e : Emit) (g : Generator.Generator VD) :
  (wellTyped (Generator.realm g) e ->
   exists g', emit e g = (Ok tt, g') /\ appendsOne g g' /\ Generator.empty g' = false)
  /\ (malformed (Generator.realm g) e -> emit e g = (Throw InvariantViolation, g))
  /\ (Generator.empty g = true <-> Generator.body g = [])
  /\ (forall (realm : Realm VD) g0,
        Generator.constructor realm = Ok g0 -> Generator.empty g0 = true).
Proof.
  split; [|split; [|split]].
  - intros Htyped.
    assert (Hempty : forall (b : list Generator.BodyEntry) x, (length (b ++ [x]) =? 0)%nat = false).
    { intros b x. rewrite length_app. simpl. apply Nat.eqb_neq. lia. }
    unfold appendsOne, Generator.empty.
    destruct e as [key value|key value|key|object key value|object key desc|object key
                  |str|args cond]; cbn [emit].
    + unfold Generator.emitGlobalDeclaration. run_gen.
      eexists. split; [reflexivity|]. gen_proj. realm_proj.
      split; [|apply Hempty]. split; [eauto|]. repeat (split; [reflexivity|]).
      split; [auto|]. intros; now apply lookup_insert_fresh.
    + unfold Generator.emitGlobalAssignment. run_gen.
      eexists. split; [reflexivity|]. gen_proj. realm_proj.
      split; [|apply Hempty]. split; [eauto|]. repeat (split; [reflexivity|]).
      split; [auto|]. intros; now apply lookup_insert_fresh.
    + unfold Generator.emitGlobalDelete. run_gen.
      eexists. split; [reflexivity|]. gen_proj. realm_proj.
      split; [|apply Hempty]. split; [eauto|]. repeat (split; [reflexivity|]).
      split; [auto|]. intros; now apply lookup_insert_fresh.
    + destruct (emitPropertyAssignment_run object key value g) as (a & Ha & ->).
      eexists. split; [reflexivity|]. gen_proj. realm_proj.
      split; [|apply Hempty]. split; [eauto|]. repeat (split; [reflexivity|]).
      split; [auto|]. intros; now apply lookup_insert_fresh.
    + destruct (plainData desc) eqn:Hplain.
      * destruct (plainData_value desc Hplain) as [descValue Hv].
        destruct (Htyped descValue) as (o & Ho & Hval); [cbn; now rewrite Hplain|].
        rewrite (emitDefineProperty_plain_run object key desc descValue o g Hplain Hv Ho).
        rewrite Hval.
        destruct (emitPropertyAssignment_run object key descValue g) as (a & Ha & ->).
        eexists. split; [reflexivity|]. gen_proj. realm_proj.
        split; [|apply Hempty]. split; [eauto|]. repeat (split; [reflexivity|]).
        split; [auto|]. intros; now apply lookup_insert_fresh.
      * destruct (emitDefineProperty_general_run object key desc g Hplain) as (a & Ha & ->).
        eexists. split; [reflexivity|]. gen_proj. realm_proj.
        split; [|apply Hempty]. split; [eauto|]. repeat (split; [reflexivity|]).
        split; [auto|]. intros; now apply lookup_insert_fresh.
    + unfold Generator.emitPropertyDelete. run_gen.
      eexists. split; [reflexivity|]. gen_proj. realm_proj.
      split; [|apply Hempty]. split; [eauto|]. repeat (split; [reflexivity|]).
      split; [auto|]. intros; now apply lookup_insert_fresh.
    + unfold Generator.emitConsoleLog. run_gen.
      eexists. split; [reflexivity|]. gen_proj. realm_proj.
      split; [|apply Hempty]. split; [eauto|]. repeat (split; [reflexivity|]).
      split; [intros; now apply lookup_insert_fresh|].
      intros; now apply lookup_insert_fresh.
    + run_gen.
      eexists. split; [reflexivity|]. gen_proj. realm_proj.
      split; [|apply Hempty]. split; [eauto|]. repeat (split; [reflexivity|]).
      split; auto.
  - intros (v & Hchecked & Hforeign).
    destruct (checkedValue_plain e v Hchecked) as (object & key & desc & -> & Hplain & Hv).
    cbn [emit].
    now rewrite (emitDefineProperty_plain_run object key desc v ForeignObject g Hplain Hv).
  - unfold Generator.empty. destruct (Generator.body g); simpl; split; congruence.
  - intros realm g0. unfold Generator.constructor.
    destruct (isPartial realm); [|discriminate].
    destruct (Generator.realmPreludeGeneratorOf realm); [|discriminate].
    intros [= <-]. reflexivity.
Qed.






End GeneratorProperties.


Lemma emit_appends_one_witness :
  let realm := set_objects (insert 9%positive ForeignObject) Demo.realm1 in
  let g := Generator.mkGenerator realm [] Demo.pg in
  let desc :=
    Descriptor.mkDescriptor (Some true) (Some true) (Some true) (Some 9%positive)
      None None in
  (exists g', emit (EmitConsoleLog "done") g = (Ok tt, g')
              /\ appendsOne g g' /\ Generator.empty g' = false)
  /\ malformed realm (EmitDefineProperty Demo.value1 "p" desc)
  /\ emit (EmitDefineProperty Demo.value1 "p" desc) g = (Throw InvariantViolation, g)
  /\ Generator.empty g = true.
Proof.
  intros realm g desc.
  assert (Hbad : malformed realm (EmitDefineProperty Demo.value1 "p" desc)).
  { exists 9%positive. split; reflexivity. }
  split.
  - apply (emit_appends_one (EmitConsoleLog "done") g). intros v Hv. discriminate.
  - split; [exact Hbad|]. split; [|reflexivity].
    now apply (emit_appends_one (EmitDefineProperty Demo.value1 "p" desc) g).
Defined.

Lemma evalCondition_object (name : string) (v : RuntimeValue) :
  evalCondition name v (Generator.typeofCondition "object" [t.identifier name])
  = Some (negb (String.eqb (typeofResult v) "object") || isNull v).
Proof.
  unfold Generator.typeofCondition, node_at. cbn [String.eqb Ascii.eqb Bool.eqb nth].
  cbn [evalCondition]. rewrite String.eqb_refl. reflexivity.
Qed.

(** C1, as stated, fails for the object class: the condition recorded for it
    is true when the checked variable holds [null], so the scheduled statement
    throws on [null] instead of letting it pass. *)
Lemma derive_object_check_rejects_null :
  let g' := snd (Generator.derive (mkTypesDomain ObjectValue) None 1%positive
                   (FixedNode (t.identifier "x")) None Demo.generator1) in
  exists declaration check condition consequent,
    Generator.body g' = [declaration; check]
    /\ Generator.declaresDerivedId declaration = Some (t.identifier "_0")
    /\ fst (Generator.buildNode check [t.identifier "_0"] emptyHeap)
       = Ok (t.ifStatement condition consequent)
    /\ condition
       = t.logicalExpression "||"
           (t.binaryExpression "!=="
              (t.unaryExpression "typeof" (t.identifier "_0")) (t.stringLiteral "object"))
           (t.binaryExpression "===" (t.identifier "_0") t.nullLiteral)
    /\ evalCondition "_0" rtNull condition = Some true.
Proof.
  eexists _, _, _, _. split; [vm_compute; reflexivity|].
  split; [reflexivity|]. split; [reflexivity|]. split; reflexivity.
Qed.

Section DeriveProperties.

Context {VD : Type} `{!ValuesDomain.Algebra VD}.

Lemma typeofStringOf_run (type : ValueClass) (g : Generator.Generator VD) :
  Generator.typeofStringOf type g
  = match type with
    | UndefinedValue | NullValue => (Throw InvariantViolation, g)
    | _ => (Ok (typeofTag type), g)
    end.
Proof. destruct type; reflexivity. Qed.

Lemma derive_run (types : TypesDomain) (values : VD) (args : positive)
    (buildNode_ : BuildNode) (kind : option string) (g : Generator.Generator VD)
    (pv : PGView) (tag : string) :
  isPartial (Generator.realm g) = true ->
  view (heap (Generator.realm g)) (Generator.preludeGenerator g) = Some pv ->
  instanceofFunction buildNode_ = true \/ arrays (Generator.realm g) !! args = Some [] ->
  typeofTag (getType types) = Some tag ->
  let name := uid (uidCounterOf pv) in
  let id := t.identifier name in
  exists res checked g',
    Generator.derive types values args buildNode_ kind g = (Ok res, g')
    /\ objects (Generator.realm g) !! res = None
    /\ arrays (Generator.realm g) !! checked = None
    /\ Generator.body g' =
         Generator.body g ++
           [Generator.mkBodyEntry (Some id) args
              (fun nodes => ret
                 (t.variableDeclaration "var"
                    [t.variableDeclarator id (applyRecipe buildNode_ nodes)]));
            Generator.mkBodyEntry None checked
              (fun nodes => ret
                 (Generator.invariantStatement (Generator.typeofCondition tag nodes)))]
    /\ arrays (Generator.realm g') !! checked = Some [res]
    /\ objects (Generator.realm g') !! res
       = Some (AbstractObject
                 (mkAbstractValue (same_class (getType types) ObjectValue) (Some name)
                    types values args (FixedNode id) kind))
    /\ view (heap (Generator.realm g')) (Generator.preludeGenerator g')
       = Some (mkPGView (preludeOf pv) (derivedIdsOf pv ++ [id]) (memoisedRefsOf pv)
                 (increment (uidCounterOf pv)))
    /\ Generator.preludeGenerator g' = Generator.preludeGenerator g
    /\ isPartial (Generator.realm g') = true
    /\ (forall l a, arrays (Generator.realm g) !! l = Some a ->
                    arrays (Generator.realm g') !! l = Some a).
Proof.
  intros Hp Hv Hpre Htag name id.
  assert (Hnn : same_class (getType types) NullValue = false).
  { apply same_class_false. intros E. rewrite E in Htag. discriminate. }
  assert (Hnu : same_class (getType types) UndefinedValue = false).
  { apply same_class_false. intros E. rewrite E in Htag. discriminate. }
  assert (Htype : forall g0 : Generator.Generator VD,
             Generator.typeofStringOf (getType types) g0 = (Ok (Some tag), g0)).
  { intros g0. rewrite typeofStringOf_run, <- Htag.
    destruct (getType types); try reflexivity; discriminate. }
  apply view_Some in Hv as (pg & Hi & Hpl & Hd & Hm & Hc).
  unfold Generator.derive.
  assert (Hfirst : (if instanceofFunction buildNode_
                    then ret tt
                    else let! content := Generator.onRealm (readValueArray args) in
                         invariant (length content =? 0)%nat) g = (Ok tt, g)).
  { destruct buildNode_ as [f|node]; [reflexivity|].
    destruct Hpre as [Hpre|Hpre]; [discriminate|].
    cbn [instanceofFunction]. run_gen. now destruct g as [[] ? ?]. }
  unfold bind at 1. rewrite Hfirst.
  unfold PreludeGenerator.generateUid, addDerivedId.
  unfold_heap_ops. unfold_gen_ops.
  destruct (same_class (getType types) ObjectValue) eqn:Hobj;
  repeat first [gen_step | heap_step];
  rewrite Htype;
  repeat first [gen_step | heap_step];
  (eexists _, _, _; split; [reflexivity|]; gen_proj; realm_proj; heap_proj;
   split; [assumption|]; split; [eassumption|];
   split; [subst id name; rewrite <- Hc;
           destruct buildNode_; rewrite <- app_assoc; reflexivity|];
   split; [apply lookup_insert_eq|];
   split; [rewrite !lookup_insert_eq; subst id name; rewrite Hc; reflexivity|];
   split; [unfold view; repeat heap_step; subst id name; rewrite Hc; reflexivity|];
   split; [reflexivity|]; split; [assumption|];
   intros k a Ha; rewrite lookup_insert_ne by congruence; exact Ha).
Qed.

Lemma derive_faults (types : TypesDomain) (values : VD) (args : positive)
    (buildNode_ : BuildNode) (kind : option string) (g : Generator.Generator VD)
    (pv : PGView) :
  view (heap (Generator.realm g)) (Generator.preludeGenerator g) = Some pv ->
  instanceofFunction buildNode_ = true \/ is_Some (arrays (Generator.realm g) !! args) ->
  getType types = NullValue \/ getType types = UndefinedValue ->
  exists g', Generator.derive types values args buildNode_ kind g
             = (Throw InvariantViolation, g').
Proof.
  intros Hv Hpre Htype.
  assert (Hn : same_class (getType types) NullValue
               || same_class (getType types) UndefinedValue = true).
  { destruct Htype as [-> | ->]; reflexivity. }
  assert (Ho : same_class (getType types) ObjectValue = false).
  { destruct Htype as [-> | ->]; reflexivity. }
  apply view_Some in Hv as (pg & Hi & Hpl & Hd & Hm & Hc).
  unfold Generator.derive.
  assert (Hfirst : (if instanceofFunction buildNode_
                    then ret tt
                    else let! content := Generator.onRealm (readValueArray args) in
                         invariant (length content =? 0)%nat) g = (Ok tt, g)
                   \/ (if instanceofFunction buildNode_
                    then ret tt
                    else let! content := Generator.onRealm (readValueArray args) in
                         invariant (length content =? 0)%nat) g
                      = (Throw InvariantViolation, g)).
  { destruct buildNode_ as [f|node]; [left; reflexivity|].
    destruct Hpre as [Hpre|[content Hpre]]; [discriminate|].
    cbn [instanceofFunction]. run_gen.
    destruct g as [r b p]. destruct (length content =? 0)%nat; [left|right]; reflexivity. }
  unfold bind at 1. destruct Hfirst as [-> | ->]; [|eauto].
  unfold PreludeGenerator.generateUid, addDerivedId.
  unfold_heap_ops. unfold_gen_ops.
  repeat first [gen_step | heap_step].
  destruct (isPartial (Generator.realm g)); [|eauto].
  repeat first [gen_step | heap_step].
  destruct (same_class (getType types) NullValue);
    destruct (same_class (getType types) UndefinedValue);
    try discriminate; cbn [negb andb]; eauto.
Qed.

Lemma uid_identifier_fresh (c c' : N) :
  c' <> c -> t.identifier (uid c') <> t.identifier (uid c).
Proof. intros Hne Heq. apply Hne. apply uid_inj. congruence. Qed.

Lemma wellFormed_set_arrays (realm : Realm VD) f :
  wellFormed realm -> wellFormed (set_arrays f realm).
Proof. intros Hwf l a Hl. exact (Hwf l a Hl). Qed.

Lemma wellFormed_set_heap (realm : Realm VD) h :
  wellFormed realm -> wellFormed (set_heap h realm).
Proof. intros Hwf l a Hl. exact (Hwf l a Hl). Qed.

Lemma wellFormed_new_string (realm : Realm VD) l str f :
  wellFormed realm ->
  wellFormed (set_arrays f (set_objects (insert l (StringObject str)) realm)).
Proof.
  intros Hwf k a Hk. cbn in Hk.
  apply lookup_insert_Some in Hk as [[_ Hk]|[_ Hk]]; [discriminate|exact (Hwf k a Hk)].
Qed.

Lemma extends_refl (realm : Realm VD) : extends realm realm.
Proof. unfold extends. auto. Qed.

Lemma extends_trans (r1 r2 r3 : Realm VD) :
  extends r1 r2 -> extends r2 r3 -> extends r1 r3.
Proof.
  intros (H1 & H2 & H3 & H4 & H5) (K1 & K2 & K3 & K4 & K5). unfold extends.
  split; [congruence|]. split; [congruence|]. split; [congruence|]. split; auto.
Qed.

Lemma extends_new_array (realm : Realm VD) (l : positive) (content : list positive) :
  arrays realm !! l = None -> extends realm (set_arrays (insert l content) realm).
Proof.
  intros Hl. unfold extends. cbn. repeat (split; [reflexivity|]).
  split; [auto|]. intros k a Hk. now apply lookup_insert_fresh.
Qed.

Lemma extends_new_object (realm : Realm VD) (l : positive) (o : ValueObject VD) :
  objects realm !! l = None -> extends realm (set_objects (insert l o) realm).
Proof.
  intros Hl. unfold extends. cbn. repeat (split; [reflexivity|]).
  split; [|auto]. intros k a Hk. now apply lookup_insert_fresh.
Qed.

Lemma emitDefineProperty_dangling (object : positive) (key : string)
    (desc : Descriptor.Descriptor) (descValue : positive) (g : Generator.Generator VD) :
  plainData desc = true ->
  Descriptor.value desc = Some descValue ->
  objects (Generator.realm g) !! descValue = None ->
  Generator.emitDefineProperty object key desc g = (Throw DanglingReference, g).
Proof.
  intros Hplain Hvalue Ho. unfold Generator.emitDefineProperty.
  rewrite Hplain, Hvalue.
  unfold bind at 1. unfold Generator.onRealm, zoom, readObject, bind, getState, demand.
  rewrite Ho. destruct g as [realm body pg]. reflexivity.
Qed.

(** Every [emit*] call either throws and leaves the generator as it is, which
    happens only when its input is not well typed, or appends the entry of
    the call. *)
Lemma emit_outcome (e : Emit) (g : Generator.Generator VD) :
  (~ wellTyped (Generator.realm g) e /\ exists f, emit e g = (Throw f, g))
  \/ (wellTyped (Generator.realm g) e
      /\ exists entry realm',
           emit e g = (Ok tt, Generator.mkGenerator realm' (Generator.body g ++ [entry])
                                (Generator.preludeGenerator g))
           /\ extends (Generator.realm g) realm'
           /\ (wellFormed (Generator.realm g) -> wellFormed realm')
           /\ records realm' (Generator.preludeGenerator g) e entry).
Proof.
  assert (Hother : checkedValue e = None -> wellTyped (Generator.realm g) e).
  { intros Hnone v Hv. congruence. }
  destruct e as [key value|key value|key|object key value|object key desc|object key
                |str|args cond]; cbn [emit].
  - right. split; [now apply Hother|].
    unfold Generator.emitGlobalDeclaration. run_gen.
    eexists _, _. split; [reflexivity|]. split; [now apply extends_new_array|].
    split; [apply wellFormed_set_arrays|]. split; [reflexivity|]. realm_proj. gen_proj.
    split; [apply lookup_insert_eq|reflexivity].
  - right. split; [now apply Hother|].
    unfold Generator.emitGlobalAssignment. run_gen.
    eexists _, _. split; [reflexivity|]. split; [now apply extends_new_array|].
    split; [apply wellFormed_set_arrays|]. split; [reflexivity|]. realm_proj. gen_proj.
    split; [apply lookup_insert_eq|reflexivity].
  - right. split; [now apply Hother|].
    unfold Generator.emitGlobalDelete. run_gen.
    eexists _, _. split; [reflexivity|]. split; [now apply extends_new_array|].
    split; [apply wellFormed_set_arrays|]. split; [reflexivity|]. realm_proj. gen_proj.
    split; [apply lookup_insert_eq|reflexivity].
  - right. split; [now apply Hother|].
    destruct (emitPropertyAssignment_run object key value g) as (a & Ha & ->).
    eexists _, _. split; [reflexivity|]. split; [now apply extends_new_array|].
    split; [apply wellFormed_set_arrays|]. split; [reflexivity|]. realm_proj. gen_proj.
    split; [apply lookup_insert_eq|reflexivity].
  - destruct (plainData desc) eqn:Hplain.
    + destruct (plainData_value desc Hplain) as [descValue Hv].
      assert (Hchecked : checkedValue (EmitDefineProperty object key desc) = Some descValue)
        by (cbn; now rewrite Hplain).
      destruct (objects (Generator.realm g) !! descValue) as [o|] eqn:Ho.
      * rewrite (emitDefineProperty_plain_run object key desc descValue o g Hplain Hv Ho).
        destruct (instanceofValue o) eqn:Hval.
        -- right. split.
           { intros v Hv'. rewrite Hchecked in Hv'. injection Hv' as <-. eauto. }
           destruct (emitPropertyAssignment_run object key descValue g) as (a & Ha & ->).
           eexists _, _. split; [reflexivity|]. split; [now apply extends_new_array|].
           split; [apply wellFormed_set_arrays|]. split; [reflexivity|].
           realm_proj. gen_proj. cbn [dependenciesOf]. rewrite Hplain, Hv.
           split; [apply lookup_insert_eq|reflexivity].
        -- left. split; [|eauto]. intros Htyped.
           destruct (Htyped descValue Hchecked) as (o' & Ho' & Hval'). congruence.
      * left. split.
        { intros Htyped. destruct (Htyped descValue Hchecked) as (o' & Ho' & _). congruence. }
        rewrite (emitDefineProperty_dangling object key desc descValue g Hplain Hv Ho). eauto.
    + right. split; [apply Hother; cbn; now rewrite Hplain|].
      destruct (emitDefineProperty_general_run object key desc g Hplain) as (a & Ha & ->).
      eexists _, _. split; [reflexivity|]. split; [now apply extends_new_array|].
      split; [apply wellFormed_set_arrays|]. split; [reflexivity|].
      realm_proj. gen_proj. cbn [dependenciesOf]. rewrite Hplain.
      split; [apply lookup_insert_eq|reflexivity].
  - right. split; [now apply Hother|].
    unfold Generator.emitPropertyDelete. run_gen.
    eexists _, _. split; [reflexivity|]. split; [now apply extends_new_array|].
    split; [apply wellFormed_set_arrays|]. split; [reflexivity|]. realm_proj. gen_proj.
    split; [apply lookup_insert_eq|reflexivity].
  - right. split; [now apply Hother|].
    unfold Generator.emitConsoleLog. run_gen.
    eexists _, _. split; [reflexivity|]. split.
    { eapply extends_trans; [apply extends_new_object; eassumption|].
      apply extends_new_array. realm_proj. eassumption. }
    split; [apply wellFormed_new_string|]. split; [reflexivity|]. realm_proj. gen_proj.
    eexists. split; [apply lookup_insert_eq|]. split; [apply lookup_insert_eq|reflexivity].
  - right. split; [now apply Hother|]. run_gen. destruct g as [realm body pg].
    eexists _, _. split; [reflexivity|]. split; [apply extends_refl|].
    split; [auto|]. split; [reflexivity|]. split; reflexivity.
Qed.

Lemma derive_precondition (args : positive) (buildNode_ : BuildNode)
    (g : Generator.Generator VD) :
  (if instanceofFunction buildNode_
   then ret tt
   else let! content := Generator.onRealm (readValueArray args) in
        invariant (length content =? 0)%nat) g
  = match buildNode_ with
    | Closure _ => (Ok tt, g)
    | FixedNode _ =>
        match arrays (Generator.realm g) !! args with
        | Some [] => (Ok tt, g)
        | Some (_ :: _) => (Throw InvariantViolation, g)
        | None => (Throw DanglingReference, g)
        end
    end.
Proof.
  destruct buildNode_ as [f|node]; [reflexivity|]. cbn [instanceofFunction].
  destruct g as [realm body pg]. cbn [Generator.realm].
  destruct (arrays realm !! args) as [[|x rest]|] eqn:Ha; run_gen; reflexivity.
Qed.

(** The declaration entry of [derive]. *)
Lemma derive_aborts (types : TypesDomain) (values : VD) (args : positive)
    (buildNode_ : BuildNode) (kind : option string) (g : Generator.Generator VD)
    (pv : PGView) :
  view (heap (Generator.realm g)) (Generator.preludeGenerator g) = Some pv ->
  instanceofFunction buildNode_ = true \/ arrays (Generator.realm g) !! args = Some [] ->
  isPartial (Generator.realm g) = false
  \/ getType types = NullValue \/ getType types = UndefinedValue ->
  let id := t.identifier (uid (uidCounterOf pv)) in
  exists g',
    Generator.derive types values args buildNode_ kind g = (Throw InvariantViolation, g')
    /\ Generator.body g' =
         Generator.body g ++
           [Generator.mkBodyEntry (Some id) args
              (fun nodes => ret
                 (t.variableDeclaration "var"
                    [t.variableDeclarator id (applyRecipe buildNode_ nodes)]))]
    /\ view (heap (Generator.realm g')) (Generator.preludeGenerator g')
       = Some (mkPGView (preludeOf pv) (derivedIdsOf pv ++ [id]) (memoisedRefsOf pv)
                 (increment (uidCounterOf pv)))
    /\ Generator.preludeGenerator g' = Generator.preludeGenerator g
    /\ objects (Generator.realm g') = objects (Generator.realm g)
    /\ arrays (Generator.realm g') = arrays (Generator.realm g)
    /\ isPartial (Generator.realm g') = isPartial (Generator.realm g).
Proof.
  intros Hv Hpre Hbad id.
  apply view_Some in Hv as (pg & Hi & Hpl & Hd & Hm & Hc).
  unfold Generator.derive. unfold bind at 1. rewrite derive_precondition.
  assert (Hfirst : match buildNode_ with
                   | Closure _ => (Ok tt, g)
                   | FixedNode _ =>
                       match arrays (Generator.realm g) !! args with
                       | Some [] => (Ok tt, g)
                       | Some (_ :: _) => (Throw InvariantViolation, g)
                       | None => (Throw DanglingReference, g)
                       end
                   end = (Ok tt, g)).
  { destruct buildNode_; [reflexivity|]. destruct Hpre as [Hpre|Hpre]; [discriminate|].
    now rewrite Hpre. }
  rewrite Hfirst.
  unfold PreludeGenerator.generateUid, addDerivedId.
  unfold_heap_ops. unfold_gen_ops.
  repeat first [gen_step | heap_step].
  destruct (isPartial (Generator.realm g)) eqn:Hp.
  - destruct Hbad as [Hbad|Hbad]; [discriminate|].
    assert (Ho : same_class (getType types) ObjectValue = false)
      by (destruct Hbad as [-> | ->]; reflexivity).
    destruct Hbad as [Hbad|Hbad].
    + assert (Hn : same_class (getType types) NullValue = true) by now rewrite Hbad.
      repeat first [gen_step | heap_step].
      eexists. split; [reflexivity|]. gen_proj. realm_proj. heap_proj.
      split; [subst id; rewrite <- Hc; destruct buildNode_; reflexivity|].
      split; [unfold view; repeat heap_step; subst id; rewrite Hc; reflexivity|].
      repeat split; assumption.
    + assert (Hn : same_class (getType types) NullValue = false) by now rewrite Hbad.
      assert (Hu : same_class (getType types) UndefinedValue = true) by now rewrite Hbad.
      repeat first [gen_step | heap_step].
      eexists. split; [reflexivity|]. gen_proj. realm_proj. heap_proj.
      split; [subst id; rewrite <- Hc; destruct buildNode_; reflexivity|].
      split; [unfold view; repeat heap_step; subst id; rewrite Hc; reflexivity|].
      repeat split; assumption.
  - repeat first [gen_step | heap_step].
    eexists. split; [reflexivity|]. gen_proj. realm_proj. heap_proj.
    split; [subst id; rewrite <- Hc; destruct buildNode_; reflexivity|].
    split; [unfold view; repeat heap_step; subst id; rewrite Hc; reflexivity|].
    repeat split; assumption.
Qed.

Lemma derive_untagged_run (types : TypesDomain) (values : VD) (args : positive)
    (buildNode_ : BuildNode) (kind : option string) (g : Generator.Generator VD)
    (pv : PGView) :
  isPartial (Generator.realm g) = true ->
  view (heap (Generator.realm g)) (Generator.preludeGenerator g) = Some pv ->
  instanceofFunction buildNode_ = true \/ arrays (Generator.realm g) !! args = Some [] ->
  typeofTag (getType types) = None ->
  getType types <> NullValue -> getType types <> UndefinedValue ->
  let name := uid (uidCounterOf pv) in
  let id := t.identifier name in
  exists res g',
    Generator.derive types values args buildNode_ kind g = (Ok res, g')
    /\ objects (Generator.realm g) !! res = None
    /\ Generator.body g' =
         Generator.body g ++
           [Generator.mkBodyEntry (Some id) args
              (fun nodes => ret
                 (t.variableDeclaration "var"
                    [t.variableDeclarator id (applyRecipe buildNode_ nodes)]))]
    /\ objects (Generator.realm g') !! res
       = Some (AbstractObject
                 (mkAbstractValue false (Some name) types values args (FixedNode id) kind))
    /\ view (heap (Generator.realm g')) (Generator.preludeGenerator g')
       = Some (mkPGView (preludeOf pv) (derivedIdsOf pv ++ [id]) (memoisedRefsOf pv)
                 (increment (uidCounterOf pv)))
    /\ Generator.preludeGenerator g' = Generator.preludeGenerator g
    /\ isPartial (Generator.realm g') = true
    /\ arrays (Generator.realm g') = arrays (Generator.realm g).
Proof.
  intros Hp Hv Hpre Htag Hn Hu name id.
  assert (Ho : same_class (getType types) ObjectValue = false).
  { apply same_class_false. intros E. rewrite E in Htag. discriminate. }
  apply same_class_false in Hn, Hu.
  assert (Htype : forall g0 : Generator.Generator VD,
             Generator.typeofStringOf (getType types) g0 = (Ok None, g0)).
  { intros g0. rewrite typeofStringOf_run, <- Htag.
    destruct (getType types); try reflexivity; discriminate. }
  apply view_Some in Hv as (pg & Hi & Hpl & Hd & Hm & Hc).
  unfold Generator.derive. unfold bind at 1. rewrite derive_precondition.
  assert (Hfirst : match buildNode_ with
                   | Closure _ => (Ok tt, g)
                   | FixedNode _ =>
                       match arrays (Generator.realm g) !! args with
                       | Some [] => (Ok tt, g)
                       | Some (_ :: _) => (Throw InvariantViolation, g)
                       | None => (Throw DanglingReference, g)
                       end
                   end = (Ok tt, g)).
  { destruct buildNode_; [reflexivity|]. destruct Hpre as [Hpre|Hpre]; [discriminate|].
    now rewrite Hpre. }
  rewrite Hfirst.
  unfold PreludeGenerator.generateUid, addDerivedId.
  unfold_heap_ops. unfold_gen_ops.
  repeat first [gen_step | heap_step].
  rewrite Htype.
  repeat first [gen_step | heap_step].
  eexists _, _. split; [reflexivity|]. gen_proj. realm_proj. heap_proj.
  split; [assumption|].
  split; [subst id name; rewrite <- Hc; destruct buildNode_; reflexivity|].
  split; [rewrite !lookup_insert_eq; subst id name; rewrite Hc; reflexivity|].
  split; [unfold view; repeat heap_step; subst id name; rewrite Hc; reflexivity|].
  repeat split; assumption.
Qed.

Lemma derive_stopped (types : TypesDomain) (values : VD) (args : positive)
    (node : t.Expr) (kind : option string) (g : Generator.Generator VD) :
  Generator.derive types values args (FixedNode node) kind g
  = match arrays (Generator.realm g) !! args with
    | Some [] => Generator.derive types values args (FixedNode node) kind g
    | Some (_ :: _) => (Throw InvariantViolation, g)
    | None => (Throw DanglingReference, g)
    end.
Proof.
  destruct (arrays (Generator.realm g) !! args) as [[|x rest]|] eqn:Ha; [reflexivity| |];
    unfold Generator.derive; unfold bind at 1; rewrite derive_precondition, Ha; reflexivity.
Qed.

(** What [derive] leaves behind, whatever it is given and however it ends. *)
Lemma recorded_nothing (pv : PGView) (entries : list Generator.BodyEntry) :
  declaredIds entries = [] -> recorded pv pv entries.
Proof.
  intros He. unfold recorded. rewrite He. cbn.
  rewrite app_nil_r, N.add_0_r. repeat split. lia.
Qed.

Lemma recorded_one (pv : PGView) (entries : list Generator.BodyEntry) :
  declaredIds entries = [t.identifier (uid (uidCounterOf pv))] ->
  recorded pv
    (mkPGView (preludeOf pv) (derivedIdsOf pv ++ [t.identifier (uid (uidCounterOf pv))])
       (memoisedRefsOf pv) (increment (uidCounterOf pv)))
    entries.
Proof.
  intros He. unfold recorded. rewrite He. cbn.
  split; [reflexivity|]. split; [reflexivity|]. split; [reflexivity|].
  split; [apply increment_le|]. intros Hb.
  rewrite increment_below by lia. rewrite N.add_0_r. split; reflexivity.
Qed.

Lemma mintedRun_app (c : N) (k1 k2 : nat) :
  mintedRun c (k1 + k2) = mintedRun c k1 ++ mintedRun (c + N.of_nat k1) k2.
Proof.
  unfold mintedRun. rewrite seq_app, map_app. f_equal. cbn [Nat.add].
  rewrite <- (Nat.add_0_r k1) at 1. rewrite <- (fmap_add_seq k1 0 k2).
  change (fmap (Nat.add k1) (seq 0 k2)) with (map (Nat.add k1) (seq 0 k2)).
  rewrite map_map. apply map_ext. intros i. do 2 f_equal. lia.
Qed.

Lemma recorded_trans (pv pv1 pv2 : PGView) (entries1 entries2 : list Generator.BodyEntry) :
  recorded pv pv1 entries1 -> recorded pv1 pv2 entries2 ->
  recorded pv pv2 (entries1 ++ entries2).
Proof.
  intros (Hp1 & Hm1 & Hd1 & Hle1 & Hb1) (Hp2 & Hm2 & Hd2 & Hle2 & Hb2).
  unfold recorded, declaredIds in *. rewrite omap_app, length_app.
  split; [congruence|]. split; [congruence|].
  split; [rewrite Hd2, Hd1, app_assoc; reflexivity|].
  split; [lia|]. intros Hb. rewrite Nat2N.inj_add in Hb.
  destruct Hb1 as [Hc1 Hr1]; [lia|]. destruct Hb2 as [Hc2 Hr2]; [lia|].
  split; [rewrite Nat2N.inj_add; lia|].
  rewrite mintedRun_app, <- Hc1, <- Hr1, <- Hr2. reflexivity.
Qed.

Lemma mintedRun_NoDup (c : N) (k : nat) : NoDup (mintedRun c k).
Proof.
  unfold mintedRun. apply NoDup_fmap_2_strong; [|apply NoDup_seq].
  intros i j _ _ Heq. assert (Hu : uid (c + N.of_nat i) = uid (c + N.of_nat j)) by congruence.
  apply uid_inj in Hu. lia.
Qed.

Lemma derive_always (types : TypesDomain) (values : VD) (args : positive)
    (buildNode_ : BuildNode) (kind : option string) (g : Generator.Generator VD)
    (pv : PGView) :
  view (heap (Generator.realm g)) (Generator.preludeGenerator g) = Some pv ->
  exists r g' entries pv',
    Generator.derive types values args buildNode_ kind g = (r, g')
    /\ Generator.body g' = Generator.body g ++ entries
    /\ Generator.preludeGenerator g' = Generator.preludeGenerator g
    /\ isPartial (Generator.realm g') = isPartial (Generator.realm g)
    /\ view (heap (Generator.realm g')) (Generator.preludeGenerator g') = Some pv'
    /\ recorded pv pv' entries.
Proof.
  intros Hv.
  assert (Hminted : forall r g' entries,
             Generator.derive types values args buildNode_ kind g = (r, g') ->
             Generator.body g' = Generator.body g ++ entries ->
             Generator.preludeGenerator g' = Generator.preludeGenerator g ->
             isPartial (Generator.realm g') = isPartial (Generator.realm g) ->
             declaredIds entries = [t.identifier (uid (uidCounterOf pv))] ->
             view (heap (Generator.realm g')) (Generator.preludeGenerator g')
             = Some (mkPGView (preludeOf pv)
                       (derivedIdsOf pv ++ [t.identifier (uid (uidCounterOf pv))])
                       (memoisedRefsOf pv) (increment (uidCounterOf pv))) ->
             exists r g' entries pv',
               Generator.derive types values args buildNode_ kind g = (r, g')
               /\ Generator.body g' = Generator.body g ++ entries
               /\ Generator.preludeGenerator g' = Generator.preludeGenerator g
               /\ isPartial (Generator.realm g') = isPartial (Generator.realm g)
               /\ view (heap (Generator.realm g')) (Generator.preludeGenerator g') = Some pv'
               /\ recorded pv pv' entries).
  { intros r g' entries Hrun Hbody Hpg Hp Hd Hv'.
    eexists r, g', entries, _. repeat (split; [eassumption|]). now apply recorded_one. }
  assert (Hgo : instanceofFunction buildNode_ = true
                \/ arrays (Generator.realm g) !! args = Some [] ->
                exists r g' entries pv',
                  Generator.derive types values args buildNode_ kind g = (r, g')
                  /\ Generator.body g' = Generator.body g ++ entries
                  /\ Generator.preludeGenerator g' = Generator.preludeGenerator g
                  /\ isPartial (Generator.realm g') = isPartial (Generator.realm g)
                  /\ view (heap (Generator.realm g')) (Generator.preludeGenerator g')
                     = Some pv'
                  /\ recorded pv pv' entries).
  { intros Hpre.
    destruct (isPartial (Generator.realm g)) eqn:Hp.
    - destruct (decide (getType types = NullValue)) as [Hn|Hn];
        [|destruct (decide (getType types = UndefinedValue)) as [Hu|Hu]].
      + destruct (derive_aborts types values args buildNode_ kind g pv Hv Hpre)
          as (g' & Hrun & Hbody & Hv' & Hpg & _ & _ & Hp'); [tauto|].
        eapply Hminted; eauto; congruence.
      + destruct (derive_aborts types values args buildNode_ kind g pv Hv Hpre)
          as (g' & Hrun & Hbody & Hv' & Hpg & _ & _ & Hp'); [tauto|].
        eapply Hminted; eauto; congruence.
      + destruct (typeofTag (getType types)) as [tag|] eqn:Htag.
        * destruct (derive_run types values args buildNode_ kind g pv tag Hp Hv Hpre Htag)
            as (res & checked & g' & Hrun & _ & _ & Hbody & _ & _ & Hv' & Hpg & Hp' & _).
          eapply Hminted; eauto.
        * destruct (derive_untagged_run types values args buildNode_ kind g pv
                      Hp Hv Hpre Htag Hn Hu)
            as (res & g' & Hrun & _ & Hbody & _ & Hv' & Hpg & Hp' & _).
          eapply Hminted; eauto.
    - destruct (derive_aborts types values args buildNode_ kind g pv Hv Hpre)
        as (g' & Hrun & Hbody & Hv' & Hpg & _ & _ & Hp'); [tauto|].
      eapply Hminted; eauto; congruence. }
  assert (Hstop : forall f,
             Generator.derive types values args buildNode_ kind g = (Throw f, g) ->
             exists r g' entries pv',
               Generator.derive types values args buildNode_ kind g = (r, g')
               /\ Generator.body g' = Generator.body g ++ entries
               /\ Generator.preludeGenerator g' = Generator.preludeGenerator g
               /\ isPartial (Generator.realm g') = isPartial (Generator.realm g)
               /\ view (heap (Generator.realm g')) (Generator.preludeGenerator g') = Some pv'
               /\ recorded pv pv' entries).
  { intros f Hrun. exists (Throw f), g, [], pv. split; [exact Hrun|].
    split; [now rewrite app_nil_r|]. split; [reflexivity|]. split; [reflexivity|].
    split; [exact Hv|]. now apply recorded_nothing. }
  destruct buildNode_ as [f|node].
  - apply Hgo. now left.
  - destruct (arrays (Generator.realm g) !! args) as [[|x rest]|] eqn:Ha.
    + apply Hgo. now right.
    + apply (Hstop InvariantViolation). rewrite derive_stopped, Ha. reflexivity.
    + apply (Hstop DanglingReference). rewrite derive_stopped, Ha. reflexivity.
Qed.

Lemma perform1_always (op : GenOp VD) (g : Generator.Generator VD) (pv : PGView) :
  view (heap (Generator.realm g)) (Generator.preludeGenerator g) = Some pv ->
  exists r g' entries pv',
    perform1 op g = (r, g')
    /\ Generator.body g' = Generator.body g ++ entries
    /\ Generator.preludeGenerator g' = Generator.preludeGenerator g
    /\ isPartial (Generator.realm g') = isPartial (Generator.realm g)
    /\ view (heap (Generator.realm g')) (Generator.preludeGenerator g') = Some pv'
    /\ recorded pv pv' entries.
Proof.
  intros Hv. destruct op as [e|types values args buildNode_ kind]; cbn [perform1].
  - destruct (emit_outcome e g)
      as [(_ & f & Hrun)|(_ & entry & realm' & Hrun & (Hheap & Hp & _) & _ & Hd & _)].
    + exists (Throw f), g, [], pv. split; [exact Hrun|]. split; [now rewrite app_nil_r|].
      split; [reflexivity|]. split; [reflexivity|]. split; [exact Hv|].
      now apply recorded_nothing.
    + eexists _, _, [entry], pv. split; [exact Hrun|].
      cbn [Generator.body Generator.realm Generator.preludeGenerator].
      split; [reflexivity|]. split; [reflexivity|]. split; [exact Hp|].
      split; [now rewrite Hheap|]. apply recorded_nothing. unfold declaredIds. cbn.
      now rewrite Hd.
  - destruct (derive_always types values args buildNode_ kind g pv Hv)
      as (r & g' & entries & pv' & Hrun & Hrest).
    unfold bind. rewrite Hrun.
    destruct r as [res|f]; eexists _, g', entries, pv'; (split; [reflexivity|]); exact Hrest.
Qed.

Lemma perform_always (ops : list (GenOp VD)) :
  forall (g : Generator.Generator VD) (pv : PGView),
    view (heap (Generator.realm g)) (Generator.preludeGenerator g) = Some pv ->
    exists r g' entries pv',
      perform ops g = (r, g')
      /\ Generator.body g' = Generator.body g ++ entries
      /\ Generator.preludeGenerator g' = Generator.preludeGenerator g
      /\ isPartial (Generator.realm g') = isPartial (Generator.realm g)
      /\ view (heap (Generator.realm g')) (Generator.preludeGenerator g') = Some pv'
      /\ recorded pv pv' entries.
Proof.
  induction ops as [|op rest IH]; intros g pv Hv.
  - exists (Ok tt), g, [], pv. split; [reflexivity|]. split; [now rewrite app_nil_r|].
    split; [reflexivity|]. split; [reflexivity|]. split; [exact Hv|].
    now apply recorded_nothing.
  - destruct (perform1_always op g pv Hv)
      as (r & g1 & entries1 & pv1 & Hrun & Hb & Hpg & Hp & Hv1 & Hr).
    cbn [perform]. unfold bind. rewrite Hrun. destruct r as [[]|f].
    + destruct (IH g1 pv1 Hv1)
        as (r2 & g2 & entries2 & pv2 & Hrun2 & Hb2 & Hpg2 & Hp2 & Hv2 & Hr2).
      exists r2, g2, (entries1 ++ entries2), pv2. split; [exact Hrun2|].
      split; [rewrite Hb2, Hb, app_assoc; reflexivity|]. split; [congruence|].
      split; [congruence|]. split; [exact Hv2|]. eapply recorded_trans; eassumption.
    + exists (Throw f), g1, entries1, pv1. auto 10.
Qed.

(** C1 (amended): [derive] with a type of class [NumberValue] declares the
    identifier named after the current counter, which no other counter value
    names, adds it to the derived identifiers and increments the counter. The
    identifier differs from every identifier the prelude generator holds as
    declared, these having been minted below the counter; and, the counter
    being below [2^53], from the identifier any later [derive] declares,
    whatever [emit*] and [derive] calls are made on the generator in between.
    [derive] records the declaration and, after it, exactly one invariant
    check, on the new value, whose condition is [typeof <node> !== "number"].
    With the object class the condition is
    [typeof <node> !== "object" || <node> === null], which is true, so that
    the check throws, on every value whose [typeof] is not ["object"] and on
    [null] as well. With the null or the undefined class [derive] raises the
    internal-consistency fault. *)
Theorem derive_spec (types : TypesDomain) (values : VD) (args : positive)
    (buildNode_ : BuildNode) (kind : option string) (g : Generator.Generator VD)
    (pv : PGView) :
  isPartial (Generator.realm g) = true ->
  view (heap (Generator.realm g)) (Generator.preludeGenerator g) = Some pv ->
  instanceofFunction buildNode_ = true \/ arrays (Generator.realm g) !! args = Some [] ->
  let id := t.identifier (String "_" (base62.encode (uidCounterOf pv))) in
  (getType types = NumberValue ->
   exists res g' declaration check,
     Generator.derive types values args buildNode_ kind g = (Ok res, g')
     /\ Generator.body g' = Generator.body g ++ [declaration; check]
     /\ Generator.declaresDerivedId declaration = Some id
     /\ (forall nodes h,
           Generator.buildNode declaration nodes h
           = (Ok (t.variableDeclaration "var"
                    [t.variableDeclarator id (applyRecipe buildNode_ nodes)]), h))
     /\ view (heap (Generator.realm g')) (Generator.preludeGenerator g')
        = Some (mkPGView (preludeOf pv) (derivedIdsOf pv ++ [id]) (memoisedRefsOf pv)
                  (if uidCounterOf pv <? 2 ^ 53 then uidCounterOf pv + 1
                   else uidCounterOf pv))
     /\ objects (Generator.realm g) !! res = None
     /\ objects (Generator.realm g') !! res
        = Some (AbstractObject
                  (mkAbstractValue false
                     (Some (String "_" (base62.encode (uidCounterOf pv))))
                     types values args (FixedNode id) kind))
     /\ Generator.declaresDerivedId check = None
     /\ arrays (Generator.realm g') !! Generator.args check = Some [res]
     /\ (forall node h,
           Generator.buildNode check [node] h
           = (Ok (t.ifStatement
                    (t.binaryExpression "!=="
                       (t.unaryExpression "typeof" node) (t.stringLiteral "number"))
                    (t.blockStatement
                       [t.throwStatement
                          (t.newExpression (t.identifier "Error")
                             [t.stringLiteral "Prepack model invariant violation"])])),
              h))
     /\ (freshNames pv -> id ∉ declaredNames pv)
     /\ (uidCounterOf pv < 2 ^ 53 ->
         forall ops, exists r g1 pv1,
           perform ops g' = (r, g1)
           /\ view (heap (Generator.realm g1)) (Generator.preludeGenerator g1) = Some pv1
           /\ id ∈ derivedIdsOf pv1
           /\ forall types2 values2 args2 buildNode2 kind2,
                getType types2 = NumberValue ->
                instanceofFunction buildNode2 = true
                \/ arrays (Generator.realm g1) !! args2 = Some [] ->
                exists res2 g2 declaration2 check2 id2,
                  Generator.derive types2 values2 args2 buildNode2 kind2 g1 = (Ok res2, g2)
                  /\ Generator.body g2 = Generator.body g1 ++ [declaration2; check2]
                  /\ Generator.declaresDerivedId declaration2 = Some id2
                  /\ id2 <> id))
  /\ (forall c, c <> uidCounterOf pv ->
        t.identifier (String "_" (base62.encode c)) <> id)
  /\ (getType types = ObjectValue ->
      exists res g' declaration check,
        Generator.derive types values args buildNode_ kind g = (Ok res, g')
        /\ Generator.body g' = Generator.body g ++ [declaration; check]
        /\ Generator.declaresDerivedId declaration = Some id
        /\ arrays (Generator.realm g') !! Generator.args check = Some [res]
        /\ (forall node h,
              Generator.buildNode check [node] h
              = (Ok (t.ifStatement
                       (t.logicalExpression "||"
                          (t.binaryExpression "!=="
                             (t.unaryExpression "typeof" node) (t.stringLiteral "object"))
                          (t.binaryExpression "===" node t.nullLiteral))
                       (t.blockStatement
                          [t.throwStatement
                             (t.newExpression (t.identifier "Error")
                                [t.stringLiteral "Prepack model invariant violation"])])),
                 h))
        /\ (forall name v,
              evalCondition name v
                (t.logicalExpression "||"
                   (t.binaryExpression "!=="
                      (t.unaryExpression "typeof" (t.identifier name))
                      (t.stringLiteral "object"))
                   (t.binaryExpression "===" (t.identifier name) t.nullLiteral))
              = Some (negb (String.eqb (typeofResult v) "object") || isNull v)))
  /\ (getType types = NullValue \/ getType types = UndefinedValue ->
      exists g', Generator.derive types values args buildNode_ kind g
                 = (Throw InvariantViolation, g')).
Proof.
  intros Hp Hv Hpre id. change (2 ^ 53) with maxCounter. split; [|split; [|split]].
  - intros Htype.
    destruct (derive_run types values args buildNode_ kind g pv "number" Hp Hv Hpre)
      as (res & checked & g' & Hrun & Hfresh & Hchecked & Hbody & Harr & Hobj & Hv'
          & Hpg & Hp' & Hkeep); [now rewrite Htype|].
    rewrite Htype in Hobj. change (same_class NumberValue ObjectValue) with false in Hobj.
    eexists res, g', _, _. split; [exact Hrun|]. split; [exact Hbody|].
    cbn [Generator.declaresDerivedId Generator.args Generator.buildNode].
    split; [reflexivity|]. split; [reflexivity|]. split; [exact Hv'|].
    split; [exact Hfresh|]. split; [exact Hobj|]. split; [reflexivity|].
    split; [exact Harr|]. split; [reflexivity|]. split.
    + intros [_ Hbelow] Hin. rewrite Forall_forall in Hbelow.
      destruct (Hbelow id Hin) as (c & Heq & Hc).
      subst id. injection Heq as Hu. apply encode_inj in Hu. lia.
    + intros Hbound ops.
      destruct (perform_always ops g' _ Hv')
        as (r & g1 & entries & pv1 & Hperform & _ & _ & Hp1 & Hv1 & _ & _ & Hd1 & Hle1 & _).
      cbn [uidCounterOf derivedIdsOf] in Hd1, Hle1.
      rewrite (increment_below _ Hbound) in Hle1.
      exists r, g1, pv1. split; [exact Hperform|]. split; [exact Hv1|].
      split; [rewrite Hd1, !elem_of_app; left; right; apply list_elem_of_singleton;
              reflexivity|].
      intros types2 values2 args2 buildNode2 kind2 Htype2 Hpre2.
      destruct (derive_run types2 values2 args2 buildNode2 kind2 g1 pv1 "number")
        as (res2 & checked2 & g2 & Hrun2 & _ & _ & Hbody2 & _);
        [congruence|exact Hv1|exact Hpre2|now rewrite Htype2|].
      eexists res2, g2, _, _, _. split; [exact Hrun2|]. split; [exact Hbody2|].
      cbn [Generator.declaresDerivedId]. split; [reflexivity|].
      apply uid_identifier_fresh. lia.
  - intros c Hc. now apply uid_identifier_fresh.
  - intros Htype.
    destruct (derive_run types values args buildNode_ kind g pv "object" Hp Hv Hpre)
      as (res & checked & g' & Hrun & Hfresh & Hchecked & Hbody & Harr & _);
      [now rewrite Htype|].
    eexists res, g', _, _. split; [exact Hrun|]. split; [exact Hbody|].
    cbn [Generator.declaresDerivedId Generator.args Generator.buildNode].
    split; [reflexivity|]. split; [exact Harr|]. split; [reflexivity|].
    intros name v. apply (evalCondition_object name v).
  - intros Htype. apply (derive_faults types values args buildNode_ kind g pv Hv); [|exact Htype].
    destruct Hpre as [Hpre|Hpre]; [now left|right; eauto].
Qed.

End DeriveProperties.

(** C1, as stated, fails in two ways. For the object class the condition
    recorded is true when the checked variable holds [null], so the scheduled
    statement throws on [null] instead of letting it pass. And an identifier
    is reused once the prelude generator has been restored from a snapshot:
    [derive], [restore], [derive] declares the same identifier twice. *)
Lemma derive_rejects_null_and_repeats_after_restore :
  (let g' := snd (Generator.derive (mkTypesDomain ObjectValue) None 1%positive
                    (FixedNode (t.identifier "x")) None Demo.generator1) in
   exists declaration check condition consequent,
     Generator.body g' = [declaration; check]
     /\ Generator.declaresDerivedId declaration = Some (t.identifier "_0")
     /\ fst (Generator.buildNode check [t.identifier "_0"] emptyHeap)
        = Ok (t.ifStatement condition consequent)
     /\ condition
        = t.logicalExpression "||"
            (t.binaryExpression "!=="
               (t.unaryExpression "typeof" (t.identifier "_0")) (t.stringLiteral "object"))
            (t.binaryExpression "===" (t.identifier "_0") t.nullLiteral)
     /\ evalCondition "_0" rtNull condition = Some true)
  /\ (let prog :=
        let! saved := Generator.onRealm (onHeap (PreludeGenerator.save Demo.pg)) in
        let! r1 := Generator.derive (mkTypesDomain NumberValue) None 1%positive
                     (FixedNode (t.identifier "x")) None in
        let! _ := Generator.onRealm (onHeap (PreludeGenerator.restore Demo.pg saved)) in
        let! r2 := Generator.derive (mkTypesDomain NumberValue) None 1%positive
                     (FixedNode (t.identifier "y")) None in
        let! g := getState in
        ret (map Generator.declaresDerivedId (Generator.body g)) in
      fst (prog Demo.generator1)
      = Ok [Some (t.identifier "_0"); None; Some (t.identifier "_0"); None]).
Proof.
  split; [exact derive_object_check_rejects_null|]. vm_compute. reflexivity.
Qed.

Lemma derive_spec_witness :
  isPartial (Generator.realm Demo.generator1) = true
  /\ view (heap (Generator.realm Demo.generator1))
       (Generator.preludeGenerator Demo.generator1) = Some (mkPGView [] [] ∅ 0)
  /\ arrays (Generator.realm Demo.generator1) !! 1%positive = Some []
  /\ exists res g' declaration check,
       Generator.derive (mkTypesDomain NumberValue) None 1%positive
         (FixedNode (t.identifier "x")) None Demo.generator1 = (Ok res, g')
       /\ Generator.body g' = [declaration; check]
       /\ Generator.declaresDerivedId declaration = Some (t.identifier "_0").
Proof.
  split; [reflexivity|]. split; [reflexivity|]. split; [reflexivity|].
  destruct (derive_spec (mkTypesDomain NumberValue) None 1%positive
              (FixedNode (t.identifier "x")) None Demo.generator1 (mkPGView [] [] ∅ 0)
              eq_refl eq_refl (or_intror eq_refl)) as [Hnumber _].
  destruct (Hnumber eq_refl)
    as (res & g' & declaration & check & Hrun & Hbody & Hid & _).
  exists res, g', declaration, check. auto.
Defined.

(** ** The operations on concrete inputs *)

Example split_examples :
  split "." "a.b.c" = ["a"; "b"; "c"]
  /\ split "." "Object" = ["Object"]
  /\ split "." "" = [""]
  /\ split "." "a..b." = ["a"; ""; "b"; ""].
Proof. repeat split. Qed.

Example encode_examples :
  map base62.encode [0; 9; 10; 35; 36; 61; 62; 3843; 3844]
  = ["0"; "9"; "a"; "z"; "A"; "Z"; "10"; "ZZ"; "100"].
Proof. reflexivity. Qed.

Example convertStringToMember_example :
  PreludeGenerator.convertStringToMember "a.b.c"
  = t.memberExpression
      (t.memberExpression (t.identifier "a") (t.identifier "b")) (t.identifier "c").
Proof. reflexivity. Qed.

Example memoiseReference_thrice :
  let prog :=
    let! r1 := PreludeGenerator.memoiseReference Demo.pg "a.b.c" in
    let! r2 := PreludeGenerator.memoiseReference Demo.pg "a.b.c" in
    let! r3 := PreludeGenerator.memoiseReference Demo.pg "a.b.c" in
    let! h := getState in
    ret (r1, r2, r3, view h Demo.pg) in
  fst (prog Demo.heap0)
  = Ok (t.identifier "_0", t.identifier "_0", t.identifier "_0",
        Some (mkPGView
                [binding (t.identifier "_0") "a.b.c"] []
                (<["a.b.c" := t.identifier "_0"]> ∅) 1)).
Proof. vm_compute. reflexivity. Qed.

Example derive_number_twice :
  let prog :=
    let! r1 := Generator.derive (mkTypesDomain NumberValue) None 1%positive
                 (FixedNode (t.identifier "x")) None in
    let! r2 := Generator.derive (mkTypesDomain NumberValue) None 1%positive
                 (Closure (fun _ => t.identifier "y")) None in
    let! g := getState in
    ret (r1, r2, map Generator.declaresDerivedId (Generator.body g),
         view (heap (Generator.realm g)) Demo.pg) in
  fst (prog Demo.generator1)
  = Ok (4%positive, 5%positive,
        [Some (t.identifier "_0"); None; Some (t.identifier "_1"); None],
        Some (mkPGView [] [t.identifier "_0"; t.identifier "_1"] ∅ 2)).
Proof. vm_compute. reflexivity. Qed.

Example defineProperty_getter :
  let desc :=
    Descriptor.mkDescriptor None (Some true) (Some true) None (Some 3%positive) None in
  let prog :=
    let! _ := Generator.emitDefineProperty 3%positive "p" desc in
    let! _ := Generator.emitDefineProperty 3%positive "q" desc in
    getState in
  match prog Demo.generator1 with
  | (Ok g, _) =>
      Some (map (fun e => arrays (Generator.realm g) !! Generator.args e) (Generator.body g),
            match replay (map (fun e => Generator.buildNode e
                                          [t.identifier "o"; t.identifier "v";
                                           t.identifier "g"; t.identifier "s"])
                            (Generator.body g)) (heap (Generator.realm g)) with
            | (stmts, h) => (stmts, preludeOf <$> view h Demo.pg)
            end)
  | _ => None
  end
  = let descriptor :=
      t.objectExpression
        [(t.identifier "enumerable", t.booleanLiteral true);
         (t.identifier "configurable", t.booleanLiteral true);
         (t.identifier "get", t.identifier "g");
         (t.identifier "set", t.identifier "s")] in
    Some ([Some [3; 1; 3; 1]%positive; Some [3; 1; 3; 1]%positive],
          (Ok [t.expressionStatement
                 (t.callExpression (t.identifier "_0")
                    [t.identifier "o"; t.stringLiteral "p"; descriptor]);
               t.expressionStatement
                 (t.callExpression (t.identifier "_0")
                    [t.identifier "o"; t.stringLiteral "q"; descriptor])],
           Some [binding (t.identifier "_0") "Object.defineProperty"])).
Proof. vm_compute. reflexivity. Qed.
(** * Further properties *)

(** ** The prelude generator *)

(** X1: the path a key converts to spells the key back, segment by segment,
    so two different keys never convert to the same expression. *)
Theorem convertStringToMember_roundtrip (key key' : string) :
  (exists segs,
     pathOf (PreludeGenerator.convertStringToMember key) = Some segs
     /\ segs = split "." key /\ join "." segs = key)
  /\ (PreludeGenerator.convertStringToMember key
      = PreludeGenerator.convertStringToMember key' -> key = key').
Proof.
  split.
  - exists (split "." key). split; [apply pathOf_convertStringToMember|].
    split; [reflexivity|apply join_split].
  - apply convertStringToMember_inj.
Qed.

Lemma copyPG_self h this v :
  view h this = Some v ->
  exists h',
    PreludeGenerator.copyPG this this h = (Ok tt, h')
    /\ view h' this = Some v
    /\ (forall q, q <> this -> is_Some (view h q) ->
          preserved h h' q /\ separate h' this q).
Proof.
  intros Hv. apply view_Some in Hv as (f & Hi & Hp & Hd & Hm & Hc).
  unfold PreludeGenerator.copyPG. run_heap.
  eexists. split; [reflexivity|].
  split.
  - unfold view. run_heap. rewrite Hc. now destruct v.
  - intros q Hq [vq Hvq].
    apply view_Some in Hvq as (pq & Hqi & Hqp & Hqd & Hqm & Hqc).
    split.
    + unfold preserved, view. run_heap. split; reflexivity.
    + eapply separate_intro; [congruence| | | | |].
      * run_heap. reflexivity.
      * run_heap. reflexivity.
      * repeat split; cbn; congruence.
      * unfold view. run_heap. eauto.
      * unfold view. run_heap. eauto.
Qed.

(** X2: restoring a generator from itself keeps its contents: [copyPG] reads
    each container before it replaces it, and the other generators are left
    alone. *)
Theorem restore_from_itself h this v :
  view h this = Some v ->
  exists h',
    PreludeGenerator.restore this this h = (Ok tt, h')
    /\ view h' this = Some v
    /\ (forall q, q <> this -> is_Some (view h q) -> view h' q = view h q).
Proof.
  intros Hv. destruct (copyPG_self h this v Hv) as (h' & Hrun & Hv' & Hframe).
  exists h'. split; [exact Hrun|]. split; [exact Hv'|].
  intros q Hq Hvq. now apply preserved_view, Hframe.
Qed.

Lemma restore_from_itself_witness :
  view Demo.heap0 Demo.pg = Some (mkPGView [] [] ∅ 0)
  /\ exists h', PreludeGenerator.restore Demo.pg Demo.pg Demo.heap0 = (Ok tt, h')
                /\ view h' Demo.pg = Some (mkPGView [] [] ∅ 0).
Proof.
  split; [reflexivity|].
  destruct (restore_from_itself Demo.heap0 Demo.pg (mkPGView [] [] ∅ 0) eq_refl)
    as (h' & Hrun & Hv & _).
  exists h'. auto.
Defined.

Lemma mintDerivedId_spec h this v :
  view h this = Some v ->
  let id := t.identifier (uid (uidCounterOf v)) in
  exists h',
    mintDerivedId this h = (Ok id, h')
    /\ view h' this = Some (mkPGView (preludeOf v) (derivedIdsOf v ++ [id])
                              (memoisedRefsOf v) (increment (uidCounterOf v)))
    /\ keepsOthers this h h'.
Proof.
  intros Hv id.
  destruct (generateUid_spec h this v Hv) as (h1 & Hrun1 & Hv1 & Hpres & Hsep).
  destruct (addDerivedId_spec h1 this _ id Hv1) as (h2 & Hrun2 & Hv2 & Hframe).
  exists h2. unfold mintDerivedId, bind, ret. rewrite Hrun1. fold id. rewrite Hrun2.
  split; [reflexivity|]. split; [exact Hv2|].
  eapply keepsOthers_trans; [eapply generateUid_keeps; eauto|].
  intros q Hq. destruct (Hframe q Hq) as [Hs Hp]. split; [assumption|].
  now apply preserved_view.
Qed.

Lemma increment_le_succ c : increment c <= c + 1.
Proof. unfold increment. destruct (N.ltb_spec c maxCounter); lia. Qed.

Section StepInvariant.

Variable this : positive.
Variable P : nat -> PGView -> Prop.

Hypothesis P_later : forall n v, P n v -> P (S n) v.
Hypothesis P_generateUid : forall n v,
  P n v ->
  P (S n) (mkPGView (preludeOf v) (derivedIdsOf v) (memoisedRefsOf v)
             (increment (uidCounterOf v))).
Hypothesis P_mintDerivedId : forall n v,
  P n v ->
  P (S n) (mkPGView (preludeOf v)
             (derivedIdsOf v ++ [t.identifier (uid (uidCounterOf v))])
             (memoisedRefsOf v) (increment (uidCounterOf v))).
Hypothesis P_memoiseReference : forall n v key,
  P n v -> memoisedRefsOf v !! key = None ->
  P (S n) (mkPGView (preludeOf v ++ [binding (t.identifier (uid (uidCounterOf v))) key])
             (derivedIdsOf v)
             (<[key := t.identifier (uid (uidCounterOf v))]> (memoisedRefsOf v))
             (increment (uidCounterOf v))).

Let holds (n : nat) (h : Heap) (q : positive) : Prop :=
  exists v, view h q = Some v /\ P n v.

(** A property of the generator and of its snapshots that every call keeps,
    [n] counting the calls made so far. *)
Lemma runSteps_invariant steps : forall n snapshots h,
  holds n h this ->
  Forall (fun s => separate h this s /\ holds n h s) snapshots ->
  exists h',
    runSteps this steps snapshots h = (Ok tt, h')
    /\ holds (length steps + n) h' this
    /\ keepsOthers this h h'.
Proof.
  induction steps as [|c rest IH]; intros n snapshots h (v & Hv & HP) Hsnaps.
  - exists h. split; [reflexivity|]. split; [exists v; auto|apply keepsOthers_refl].
  - assert (Hstep : forall h1 (snapshots1 : list positive),
               holds (S n) h1 this -> keepsOthers this h h1 ->
               Forall (fun s => separate h1 this s /\ holds (S n) h1 s) snapshots1 ->
               exists h',
                 runSteps this rest snapshots1 h1 = (Ok tt, h')
                 /\ holds (length (c :: rest) + n) h' this /\ keepsOthers this h h').
    { intros h1 snapshots1 Hh1 Hk1 Hs1.
      destruct (IH (S n) snapshots1 h1 Hh1 Hs1) as (h' & Hrun & Hh' & Hk').
      exists h'. split; [assumption|]. cbn [length]. rewrite <- plus_n_Sm in Hh'.
      split; [assumption|]. eapply keepsOthers_trans; eauto. }
    assert (Hmove : forall h1, keepsOthers this h h1 ->
               Forall (fun s => separate h1 this s /\ holds (S n) h1 s) snapshots).
    { intros h1 Hk. eapply Forall_impl; [exact Hsnaps|].
      intros s [Hs (w & Hw & HPw)]. destruct (Hk s Hs) as [Hs1 Hv1].
      split; [assumption|]. exists w. split; [congruence|auto]. }
    destruct c as [|key| | |k]; simpl runSteps.
    + destruct (generateUid_spec h this v Hv) as (h1 & Hrun & Hv1 & Hpres & Hsep).
      assert (Hk : keepsOthers this h h1) by (eapply generateUid_keeps; eauto).
      unfold bind at 1. rewrite Hrun.
      apply Hstep; [eexists; split; [exact Hv1|auto]|assumption|auto].
    + destruct (memoisedRefsOf v !! key) as [ref|] eqn:Hk.
      * unfold bind at 1. rewrite (memoiseReference_hit h this v key ref Hv Hk).
        apply Hstep; [exists v; auto|apply keepsOthers_refl|auto using keepsOthers_refl].
      * destruct (memoiseReference_miss h this v key Hv Hk) as (h1 & Hrun & Hv1 & Hframe).
        assert (Hkeep : keepsOthers this h h1).
        { intros q Hq. destruct (Hframe q Hq) as [Hs Hp1].
          split; [assumption|now apply preserved_view]. }
        unfold bind at 1. rewrite Hrun.
        apply Hstep; [eexists; split; [exact Hv1|]|assumption|auto].
        apply P_memoiseReference; assumption.
    + destruct (mintDerivedId_spec h this v Hv) as (h1 & Hrun & Hv1 & Hkeep).
      unfold bind at 1. rewrite Hrun.
      apply Hstep; [eexists; split; [exact Hv1|auto]|assumption|auto].
    + destruct (save_spec h this v Hv) as (saved & h1 & Hrun & Hfresh & Hvs & Hsep & Hpres).
      destruct (save_keeps h h1 this v saved Hv Hrun) as [Hkeep Hv1].
      unfold bind at 1. rewrite Hrun.
      apply Hstep; [exists v; auto|assumption|].
      apply Forall_app. split; [auto|].
      constructor; [|constructor]. split; [assumption|exists v; auto].
    + destruct (snapshots !! k) as [saved|] eqn:Hn.
      * pose proof (Forall_lookup_1 _ _ _ _ Hsnaps Hn) as [Hsep (w & Hw & HPw)].
        destruct (restore_spec h this saved w Hsep Hw) as (h1 & Hrun & Hv1 & Hframe).
        destruct (restore_keeps h h1 this saved w Hsep Hw Hrun) as [Hkeep _].
        unfold bind at 1. rewrite Hrun.
        apply Hstep; [exists w; auto|assumption|auto].
      * unfold bind at 1, ret at 1.
        apply Hstep; [exists v; auto|apply keepsOthers_refl|auto using keepsOthers_refl].
Qed.

End StepInvariant.

Lemma declaredNames_snoc_prelude v ref key derived memo c :
  declaredNames (mkPGView (preludeOf v ++ [binding ref key]) derived memo c)
  = omap declaredRef (preludeOf v) ++ [ref] ++ derived.
Proof.
  unfold declaredNames. cbn [preludeOf derivedIdsOf].
  rewrite omap_app. simpl. now rewrite <- app_assoc.
Qed.

Lemma freshNames_generateUid v :
  freshNames v ->
  freshNames (mkPGView (preludeOf v) (derivedIdsOf v) (memoisedRefsOf v) (uidCounterOf v + 1)).
Proof.
  intros [Hnd Hall]. split; [exact Hnd|].
  eapply Forall_impl; [exact Hall|]. intros e (c & -> & Hc). exists c.
  split; [reflexivity|]. cbn. lia.
Qed.

Lemma freshNames_not_in v :
  freshNames v -> t.identifier (uid (uidCounterOf v)) ∉ declaredNames v.
Proof.
  intros [_ Hall] Hin. rewrite Forall_forall in Hall.
  destruct (Hall _ Hin) as (c & Heq & Hc).
  injection Heq as Heq. apply encode_inj in Heq. lia.
Qed.

Lemma freshNames_mintDerivedId v :
  freshNames v ->
  freshNames (mkPGView (preludeOf v) (derivedIdsOf v ++ [t.identifier (uid (uidCounterOf v))])
                (memoisedRefsOf v) (uidCounterOf v + 1)).
Proof.
  intros Hf. pose proof (freshNames_not_in v Hf) as Hnew. destruct Hf as [Hnd Hall].
  unfold freshNames, declaredNames in *. cbn [preludeOf derivedIdsOf uidCounterOf].
  rewrite app_assoc. split.
  - apply NoDup_app. split; [exact Hnd|]. split; [|apply NoDup_singleton].
    intros x Hx Hx'. apply list_elem_of_singleton in Hx'. subst x. contradiction.
  - apply Forall_app. split.
    + eapply Forall_impl; [exact Hall|]. intros e (c & -> & Hc). exists c.
      split; [reflexivity|lia].
    + constructor; [|constructor]. exists (uidCounterOf v). split; [reflexivity|lia].
Qed.

Lemma freshNames_memoiseReference v key :
  freshNames v ->
  freshNames (mkPGView (preludeOf v ++ [binding (t.identifier (uid (uidCounterOf v))) key])
       (derivedIdsOf v)
       (<[key := t.identifier (uid (uidCounterOf v))]> (memoisedRefsOf v))
       (uidCounterOf v + 1)).
Proof.
  intros Hf. pose proof (freshNames_not_in v Hf) as Hnew. destruct Hf as [Hnd Hall].
  unfold freshNames. rewrite declaredNames_snoc_prelude. cbn [uidCounterOf].
  unfold declaredNames in *.
  set (refs := omap declaredRef (preludeOf v)) in *.
  set (id := t.identifier (uid (uidCounterOf v))) in *.
  rewrite elem_of_app in Hnew.
  split.
  - apply NoDup_app in Hnd as (Hn1 & Hn2 & Hn3).
    apply NoDup_app. split; [exact Hn1|]. split.
    + intros x Hx Hx'. apply elem_of_cons in Hx'. destruct Hx' as [->|Hx'].
      * apply Hnew. now left.
      * now apply (Hn2 x Hx).
    + simpl. apply NoDup_cons. split; [|exact Hn3].
      intros Hin. apply Hnew. now right.
  - apply Forall_app in Hall as [H1 H2].
    assert (Hw : forall l, Forall (fun e => exists c, e = t.identifier (uid c)
                                                      /\ c < uidCounterOf v) l ->
                 Forall (fun e => exists c, e = t.identifier (uid c)
                                            /\ c < uidCounterOf v + 1) l).
    { intros l Hl. eapply Forall_impl; [exact Hl|]. intros e (c & -> & Hc).
      exists c. split; [reflexivity|lia]. }
    apply Forall_app. split; [auto|]. simpl. constructor; [|auto].
    exists (uidCounterOf v). split; [reflexivity|lia].
Qed.

Lemma bindings_refs (entries : list (string * t.Expr)) :
  omap declaredRef (map (fun e => binding (snd e) (fst e)) entries) = map snd entries.
Proof.
  induction entries as [|[k r] rest IH]; [reflexivity|].
  cbn [map omap declaredRef binding list_omap fst snd]. simpl. now rewrite IH.
Qed.

Lemma memo_injective v key1 key2 ref :
  consistent v -> freshNames v ->
  memoisedRefsOf v !! key1 = Some ref -> memoisedRefsOf v !! key2 = Some ref ->
  key1 = key2.
Proof.
  intros (entries & Hnd & Hp & Hm) [Hfresh _] H1 H2.
  unfold declaredNames in Hfresh. rewrite Hp, bindings_refs in Hfresh.
  apply NoDup_app in Hfresh as (Hrefs & _ & _).
  rewrite Hm in H1, H2.
  apply elem_of_list_to_map in H1; [|exact Hnd].
  apply elem_of_list_to_map in H2; [|exact Hnd].
  apply list_elem_of_lookup in H1 as [i Hi]. apply list_elem_of_lookup in H2 as [j Hj].
  assert (i = j).
  { eapply NoDup_lookup; [exact Hrefs| |]; rewrite list_lookup_fmap.
    - rewrite Hi. reflexivity.
    - rewrite Hj. reflexivity. }
  subst j. congruence.
Qed.

(** X3: through any sequence of at most [2^53] calls on a new prelude
    generator, snapshots and restores included, the counter is at most the
    number of calls made and no identifier is held as declared twice: the
    identifiers bound in the prelude and those in [derivedIds] are pairwise
    different, and two different keys are never memoised as the same
    reference. *)
Theorem declared_names_distinct (h0 : Heap) (steps : list Step) :
  N.of_nat (length steps) <= 2 ^ 53 ->
  exists this h1 h2 v,
    PreludeGenerator.new h0 = (Ok this, h1)
    /\ runSteps this steps [] h1 = (Ok tt, h2)
    /\ view h2 this = Some v
    /\ uidCounterOf v <= N.of_nat (length steps)
    /\ NoDup (declaredNames v)
    /\ (forall key1 key2 ref,
          memoisedRefsOf v !! key1 = Some ref -> memoisedRefsOf v !! key2 = Some ref ->
          key1 = key2).
Proof.
  change (2 ^ 53) with maxCounter. intros Hbound.
  destruct (new_spec h0) as (this & h1 & Hnew & _ & Hv1 & _).
  destruct (runSteps_invariant this
              (fun n v => consistent v
                          /\ uidCounterOf v <= N.of_nat n
                          /\ (N.of_nat n <= maxCounter -> freshNames v))) with
    (steps := steps) (n := O) (snapshots := @nil positive) (h := h1)
    as (h2 & Hrun & (v & Hv & Hc & Hle & Hf) & _).
  - intros n v (Hc & Hle & Hf). split; [exact Hc|]. split; [lia|]. intros Hn. apply Hf. lia.
  - intros n v (Hc & Hle & Hf). split; [now apply consistent_generateUid|].
    cbn [uidCounterOf]. split; [pose proof (increment_le_succ (uidCounterOf v)); lia|].
    intros Hn. rewrite increment_below by lia. apply freshNames_generateUid, Hf. lia.
  - intros n v (Hc & Hle & Hf). split; [destruct Hc as (entries & Hc); now exists entries|].
    cbn [uidCounterOf]. split; [pose proof (increment_le_succ (uidCounterOf v)); lia|].
    intros Hn. rewrite increment_below by lia. apply freshNames_mintDerivedId, Hf. lia.
  - intros n v key (Hc & Hle & Hf) Hk. split; [now apply consistent_memoiseReference|].
    cbn [uidCounterOf]. split; [pose proof (increment_le_succ (uidCounterOf v)); lia|].
    intros Hn. rewrite increment_below by lia. apply freshNames_memoiseReference, Hf. lia.
  - exists (mkPGView [] [] ∅ 0). split; [exact Hv1|]. split; [apply consistent_new|].
    split; [cbn; lia|]. intros _. split; [constructor|constructor].
  - constructor.
  - rewrite Nat.add_0_r in Hle, Hf. specialize (Hf Hbound).
    exists this, h1, h2, v. split; [exact Hnew|]. split; [exact Hrun|].
    split; [exact Hv|]. split; [exact Hle|]. split; [apply Hf|].
    intros key1 key2 ref. now apply memo_injective.
Qed.

Lemma declared_names_distinct_witness :
  exists this h1 h2 v,
    PreludeGenerator.new emptyHeap = (Ok this, h1)
    /\ runSteps this [StepMintDerivedId; StepSave; StepMemoiseReference "a.b";
                      StepRestore 0; StepMintDerivedId; StepMemoiseReference "c"] [] h1
       = (Ok tt, h2)
    /\ view h2 this = Some v
    /\ NoDup (declaredNames v).
Proof.
  destruct (declared_names_distinct emptyHeap
              [StepMintDerivedId; StepSave; StepMemoiseReference "a.b";
               StepRestore 0; StepMintDerivedId; StepMemoiseReference "c"])
    as (this & h1 & h2 & v & Hnew & Hrun & Hv & _ & Hnd & _); [vm_compute; discriminate|].
  exists this, h1, h2, v. auto.
Defined.

(** ** Symbolic values *)

Section AbstractValueFurther.

Context {VD : Type} `{!ValuesDomain.Algebra VD}.

(** X4: [getIdentifier] returns the node of a value whose recipe is a fixed
    identifier, which is also what [buildNode] returns for it whatever nodes
    it is given; on any other recipe, a closure included, it raises the
    internal-consistency fault. The store is not changed. *)
Theorem getIdentifier_spec (realm : Realm VD) (this : positive) (v : AbstractValue VD) :
  objects realm !! this = Some (AbstractObject v) ->
  (forall name, _buildNode v = FixedNode (t.identifier name) ->
     AbstractValue.getIdentifier this realm = (Ok (t.identifier name), realm)
     /\ AbstractValue.hasIdentifier this realm = (Ok true, realm)
     /\ forall nodes, AbstractValue.buildNode this nodes realm
                      = (Ok (t.identifier name), realm))
  /\ ((forall name, _buildNode v <> FixedNode (t.identifier name)) ->
      AbstractValue.getIdentifier this realm = (Throw InvariantViolation, realm)
      /\ AbstractValue.hasIdentifier this realm = (Ok false, realm)).
Proof.
  intros Hv. unfold AbstractValue.getIdentifier, AbstractValue.hasIdentifier,
    AbstractValue.buildNode.
  split.
  - intros name Hb. run_realm. rewrite Hb. run_realm. rewrite ?Hb. repeat split.
  - intros Hb. run_realm.
    destruct (_buildNode v) as [f|node]; [split; reflexivity|].
    destruct node; try (split; reflexivity). exfalso. eapply Hb. reflexivity.
Qed.

(** X5: when the resolved type is [ObjectValue], [mightBeObject] answers
    [true] and [mightNotBeObject] answers [false] without consulting the value
    domain; otherwise they answer its membership queries for [ObjectValue].
    [mightHaveBeenDeleted] has no fast path: it always asks the value domain
    about the deletion sentinel. *)
Theorem mightBeObject_spec (realm : Realm VD) (this : positive) (v : AbstractValue VD) :
  objects realm !! this = Some (AbstractObject v) ->
  (getType (types v) = ObjectValue ->
     AbstractValue.mightBeObject this realm = (Ok true, realm)
     /\ AbstractValue.mightNotBeObject this realm = (Ok false, realm))
  /\ (getType (types v) <> ObjectValue ->
      AbstractValue.mightBeObject this realm
        = (Ok (ValuesDomain.includesValueOfType (values v) ObjectValue), realm)
      /\ AbstractValue.mightNotBeObject this realm
        = (Ok (ValuesDomain.includesValueNotOfType (values v) ObjectValue), realm))
  /\ AbstractValue.mightHaveBeenDeleted this realm
     = (Ok (ValuesDomain.includesValueOfType (values v) EmptyValue), realm).
Proof.
  intros Hv. unfold AbstractValue.mightBeObject, AbstractValue.mightNotBeObject,
    AbstractValue.mightHaveBeenDeleted.
  split; [|split].
  - intros Ht. apply same_class_true in Ht. run_realm. split; reflexivity.
  - intros Ht. apply same_class_false in Ht. run_realm. split; reflexivity.
  - run_realm. reflexivity.
Qed.

(** Well-formedness through the monad. *)

Lemma preservesWellFormed_ret {A : Type} (a : A) :
  preservesWellFormed (ret a : M (Realm VD) A).
Proof. intros realm Hwf. exact Hwf. Qed.

Lemma preservesWellFormed_throw {A : Type} (f : fault) :
  preservesWellFormed (throw f : M (Realm VD) A).
Proof. intros realm Hwf. exact Hwf. Qed.

Lemma preservesWellFormed_bind {A B : Type} (m : M (Realm VD) A) (k : A -> M (Realm VD) B) :
  preservesWellFormed m -> (forall a, preservesWellFormed (k a)) ->
  preservesWellFormed (bind m k).
Proof.
  intros Hm Hk realm Hwf. unfold bind. specialize (Hm realm Hwf).
  destruct (m realm) as [[a|f] realm']; cbn [snd] in *; [now apply Hk|exact Hm].
Qed.

Lemma preservesWellFormed_getState :
  preservesWellFormed (getState : M (Realm VD) (Realm VD)).
Proof. intros realm Hwf. exact Hwf. Qed.

Lemma preservesWellFormed_invariant (b : bool) :
  preservesWellFormed (invariant b : M (Realm VD) unit).
Proof. intros realm Hwf. destruct b; exact Hwf. Qed.

Lemma preservesWellFormed_readAbstract (this : positive) :
  preservesWellFormed (readAbstract this : M (Realm VD) (AbstractValue VD)).
Proof.
  intros realm Hwf. unfold readAbstract, bind, getState.
  destruct (objects realm !! this) as [[a|s|c|]|]; exact Hwf.
Qed.

Lemma preservesWellFormed_newValueArray (content : list positive) :
  preservesWellFormed (newValueArray content : M (Realm VD) positive).
Proof. intros realm Hwf l a Hl. exact (Hwf l a Hl). Qed.

Lemma preservesWellFormed_newString (str : string) :
  preservesWellFormed (newObject (StringObject str) : M (Realm VD) positive).
Proof.
  intros realm Hwf l a Hl. cbn in Hl.
  apply lookup_insert_Some in Hl as [[_ Hl]|[_ Hl]]; [discriminate|exact (Hwf l a Hl)].
Qed.

Lemma preservesWellFormed_assignAbstract (this : positive)
    (f : AbstractValue VD -> AbstractValue VD) :
  (forall a, admissible a -> admissible (f a)) ->
  preservesWellFormed (assignAbstract this f).
Proof.
  intros Hf realm Hwf. unfold assignAbstract, readAbstract, bind, getState, modify.
  destruct (objects realm !! this) as [[a|s|c|]|] eqn:Hthis; try exact Hwf.
  cbn. intros l a' Hl. cbn in Hl.
  destruct (Hwf this a Hthis) as [Hp Ha].
  apply lookup_insert_Some in Hl as [[_ Hl]|[_ Hl]].
  - injection Hl as <-. split; [exact Hp|now apply Hf].
  - exact (Hwf l a' Hl).
Qed.

Lemma preservesWellFormed_constructor (asObjectVariant : bool) (types : TypesDomain)
    (values : VD) (args : positive) (buildNode : BuildNode)
    (kind intrinsicName : option string) :
  preservesWellFormed
    (AbstractValue.constructor asObjectVariant types values args buildNode kind
       intrinsicName).
Proof.
  intros realm Hwf.
  destruct (constructor_run asObjectVariant types values args buildNode kind
              intrinsicName realm) as [Hfault Hok].
  destruct (isPartial realm) eqn:Hp; [|rewrite Hfault by (now left); exact Hwf].
  destruct (decide (getType types = NullValue)) as [Hn|Hn];
    [rewrite Hfault by (right; tauto); exact Hwf|].
  destruct (decide (getType types = UndefinedValue)) as [Hu|Hu];
    [rewrite Hfault by (right; tauto); exact Hwf|].
  destruct (decide (getType types = ObjectValue)) as [Ho|Ho].
  - destruct asObjectVariant; [|rewrite Hfault by (right; tauto); exact Hwf].
    destruct Hok as (this & -> & Hfresh); [intros [H1|[[_ H1]|[H1|H1]]]; congruence|].
    intros l a Hl. cbn in Hl. apply lookup_insert_Some in Hl as [[_ Hl]|[_ Hl]].
    + injection Hl as <-. split; [exact Hp|]. repeat split; auto.
    + exact (Hwf l a Hl).
  - destruct Hok as (this & -> & Hfresh); [intros [H1|[[H1 _]|[H1|H1]]]; congruence|].
    intros l a Hl. cbn in Hl. apply lookup_insert_Some in Hl as [[_ Hl]|[_ Hl]].
    + injection Hl as <-. split; [exact Hp|]. repeat split; auto; intros; contradiction.
    + exact (Hwf l a Hl).
Qed.

Lemma preservesWellFormed_clone (this : positive) :
  preservesWellFormed (AbstractValue.clone this : M (Realm VD) positive).
Proof.
  unfold AbstractValue.clone.
  apply preservesWellFormed_bind; [apply preservesWellFormed_readAbstract|]. intros self.
  apply preservesWellFormed_bind; [apply preservesWellFormed_constructor|]. intros result.
  apply preservesWellFormed_bind; [now apply preservesWellFormed_assignAbstract|]. intros _.
  apply preservesWellFormed_bind; [|intros; apply preservesWellFormed_ret].
  destruct (truthy_string (kind self));
    [now apply preservesWellFormed_assignAbstract|apply preservesWellFormed_ret].
Qed.

Lemma preservesWellFormed_promote (this : positive) :
  preservesWellFormed (AbstractValue.promoteEmptyToUndefined this : M (Realm VD) positive).
Proof.
  unfold AbstractValue.promoteEmptyToUndefined.
  apply preservesWellFormed_bind; [apply preservesWellFormed_readAbstract|]. intros self.
  destruct (negb _); [apply preservesWellFormed_ret|].
  apply preservesWellFormed_bind; [apply preservesWellFormed_clone|]. intros result.
  apply preservesWellFormed_bind; [apply preservesWellFormed_readAbstract|]. intros r.
  apply preservesWellFormed_bind; [now apply preservesWellFormed_assignAbstract|]. intros _.
  apply preservesWellFormed_bind; [apply preservesWellFormed_getState|]. intros realm.
  apply preservesWellFormed_bind; [apply preservesWellFormed_newValueArray|]. intros condArgs.
  apply preservesWellFormed_bind; [apply preservesWellFormed_constructor|]. intros cond.
  apply preservesWellFormed_bind; [apply preservesWellFormed_getState|]. intros realm'.
  apply preservesWellFormed_bind; [apply preservesWellFormed_newValueArray|]. intros resultArgs.
  apply preservesWellFormed_bind; [now apply preservesWellFormed_assignAbstract|]. intros _.
  apply preservesWellFormed_bind; [now apply preservesWellFormed_assignAbstract|]. intros _.
  apply preservesWellFormed_ret.
Qed.

(** X6: the constructor, [clone] and [promoteEmptyToUndefined] keep the realm
    well-formed, whether they return or throw: every abstract value in the
    store has passed the constructor's checks, none having the null or the
    undefined class as its type and every one of the object class being an
    [AbstractObjectValue]; and a realm that holds an abstract value is in
    partial mode. *)
Theorem wellFormed_preserved (realm : Realm VD) :
  wellFormed realm ->
  (forall asObjectVariant types values args buildNode kind intrinsicName,
     wellFormed (snd (AbstractValue.constructor asObjectVariant types values args
                        buildNode kind intrinsicName realm)))
  /\ (forall this, wellFormed (snd (AbstractValue.clone this realm)))
  /\ (forall this, wellFormed (snd (AbstractValue.promoteEmptyToUndefined this realm))).
Proof.
  intros Hwf. split; [|split].
  - intros. now apply preservesWellFormed_constructor.
  - intros. now apply preservesWellFormed_clone.
  - intros. now apply preservesWellFormed_promote.
Qed.

Lemma promoteEmptyToUndefined_run (realm : Realm VD) (this : positive)
    (v : AbstractValue VD) :
  objects realm !! this = Some (AbstractObject v) ->
  (ValuesDomain.includesValueOfType (values v) EmptyValue = false ->
     AbstractValue.promoteEmptyToUndefined this realm = (Ok this, realm))
  /\ (ValuesDomain.includesValueOfType (values v) EmptyValue = true ->
      isPartial realm = true ->
      getType (types v) <> ObjectValue ->
      getType (types v) <> NullValue ->
      getType (types v) <> UndefinedValue ->
      exists result cond realm' r g,
        AbstractValue.promoteEmptyToUndefined this realm = (Ok result, realm')
        /\ result <> this /\ cond <> this /\ cond <> result
        /\ objects realm !! result = None /\ objects realm !! cond = None
        /\ objects realm' !! this = Some (AbstractObject v)
        /\ objects realm' !! result = Some (AbstractObject r)
        /\ types r = types v
        /\ values r = ValuesDomain.promoteEmptyToUndefined (values v)
        /\ arrays realm' !! args r = Some [cond; undefined (intrinsics realm); this]
        /\ _buildNode r = Closure AbstractValue.conditional
        /\ objects realm' !! cond = Some (AbstractObject g)
        /\ types g = mkTypesDomain BooleanValue
        /\ values g = ValuesDomain.topVal
        /\ arrays realm' !! args g = Some [this; empty (intrinsics realm)]
        /\ _buildNode g = Closure AbstractValue.strictEquality
        /\ (forall x y, AbstractValue.strictEquality [x; y] = t.binaryExpression "===" x y)
        /\ (forall c u o, AbstractValue.conditional [c; u; o]
                          = t.conditionalExpression c u o)).
Proof.
  intros Hv. split.
  - intros He. unfold AbstractValue.promoteEmptyToUndefined. run_realm. reflexivity.
  - intros He Hp Ho Hn Hu.
    destruct (clone_run realm this v Hv Hp Ho Hn Hu)
      as (result & realm1 & c & Hclone & Hfresh & Hne & Hres & Hname & Hargs & Harr
          & Htypes & Hvalues & Hbuild & Hkind & Hvariant & Hthis & Hothers & Hp1 & Hintr).
    unfold AbstractValue.promoteEmptyToUndefined.
    unfold bind at 1. unfold readAbstract at 1. unfold bind at 1, getState. rewrite Hv.
    unfold ret at 1. rewrite He. cbn [negb]. unfold bind at 1. rewrite Hclone.
    run_realm.
    assert (Hcond : objects realm !! l0 = None).
    { rewrite <- Hothers by congruence. assumption. }
    eexists result, l0, _, _, _. split; [reflexivity|]. realm_proj.
    rewrite ?lookup_insert_eq.
    split; [assumption|]. split; [congruence|]. split; [congruence|].
    split; [assumption|]. split; [assumption|].
    split; [rewrite !lookup_insert_ne by congruence; assumption|].
    split; [reflexivity|]. realm_proj.
    split; [assumption|]. split; [congruence|].
    split; [rewrite lookup_insert_eq, Hintr; reflexivity|].
    split; [reflexivity|].
    split; [rewrite !lookup_insert_ne by congruence; rewrite lookup_insert_eq; reflexivity|].
    realm_proj. split; [reflexivity|]. split; [reflexivity|].
    split; [rewrite lookup_insert_ne by congruence; rewrite lookup_insert_eq, Hintr;
            reflexivity|].
    split; [reflexivity|]. split; reflexivity.
Qed.

(** X7: in a well-formed realm [clone] and [promoteEmptyToUndefined] never
    throw on an abstract value that is not an [AbstractObjectValue]: its type
    is not the object class, so the plain constructor [clone] calls accepts it.
    The clone is again such a value, and the realm stays well-formed. *)
Theorem plain_value_clones (realm : Realm VD) (this : positive) (v : AbstractValue VD) :
  wellFormed realm ->
  objects realm !! this = Some (AbstractObject v) ->
  instanceofAbstractObjectValue v = false ->
  (exists result realm' c,
     AbstractValue.clone this realm = (Ok result, realm')
     /\ objects realm' !! result = Some (AbstractObject c)
     /\ instanceofAbstractObjectValue c = false
     /\ wellFormed realm')
  /\ (exists result realm',
        AbstractValue.promoteEmptyToUndefined this realm = (Ok result, realm')
        /\ wellFormed realm').
Proof.
  intros Hwf Hv Hplain. destruct (Hwf this v Hv) as (Hp & Hn & Hu & Ho).
  assert (Hno : getType (types v) <> ObjectValue).
  { intros E. rewrite (Ho E) in Hplain. discriminate. }
  split.
  - destruct (clone_run realm this v Hv Hp Hno Hn Hu)
      as (result & realm' & c & Hrun & _ & _ & Hres & _ & _ & _ & _ & _ & _ & _ & Hvar & _).
    exists result, realm', c. split; [exact Hrun|]. split; [exact Hres|].
    split; [exact Hvar|].
    pose proof (preservesWellFormed_clone this realm Hwf) as Hwf'.
    now rewrite Hrun in Hwf'.
  - pose proof (preservesWellFormed_promote this realm Hwf) as Hwf'.
    destruct (promoteEmptyToUndefined_run realm this v Hv) as [Hsame Hnew].
    destruct (ValuesDomain.includesValueOfType (values v) EmptyValue) eqn:He.
    + destruct (Hnew eq_refl Hp Hno Hn Hu) as (result & cond & realm' & r & g & Hrun & _).
      exists result, realm'. split; [exact Hrun|]. now rewrite Hrun in Hwf'.
    + exists this, realm. split; [now apply Hsame|exact Hwf].
Qed.

(** X8: promoting twice is promoting once, provided the promoted value domain
    no longer includes the deletion sentinel: the second call returns the
    value the first one returned and leaves the store as it is. *)
Theorem promoteEmptyToUndefined_twice (realm : Realm VD) (this : positive)
    (v : AbstractValue VD) :
  objects realm !! this = Some (AbstractObject v) ->
  isPartial realm = true ->
  getType (types v) <> ObjectValue ->
  getType (types v) <> NullValue ->
  getType (types v) <> UndefinedValue ->
  ValuesDomain.includesValueOfType
    (ValuesDomain.promoteEmptyToUndefined (values v)) EmptyValue = false ->
  exists result realm',
    AbstractValue.promoteEmptyToUndefined this realm = (Ok result, realm')
    /\ AbstractValue.promoteEmptyToUndefined result realm' = (Ok result, realm').
Proof.
  intros Hv Hp Ho Hn Hu Hpromoted.
  destruct (promoteEmptyToUndefined_run realm this v Hv) as [Hsame Hnew].
  destruct (ValuesDomain.includesValueOfType (values v) EmptyValue) eqn:He.
  - destruct (Hnew eq_refl Hp Ho Hn Hu)
      as (result & cond & realm' & r & g & Hrun & _ & _ & _ & _ & _ & _ & Hres & _ & Hval & _).
    exists result, realm'. split; [exact Hrun|].
    apply (promoteEmptyToUndefined_run realm' result r Hres). now rewrite Hval.
  - exists this, realm. split; now apply Hsame.
Qed.

(** X9: in a well-formed realm the resolved type of an abstract value is never
    the null or the undefined class, so the fast path of [mightBeUndefined] is
    never taken and the answer is the value domain's; and a value whose type is
    the object class, for which [mightBeObject] answers [true] at once, is an
    [AbstractObjectValue]. *)
Theorem mightBeUndefined_wellFormed (realm : Realm VD) (this : positive)
    (v : AbstractValue VD) :
  wellFormed realm ->
  objects realm !! this = Some (AbstractObject v) ->
  AbstractValue.mightBeUndefined this realm
    = (Ok (ValuesDomain.includesValueOfType (values v) UndefinedValue), realm)
  /\ (forall type, AbstractValue.getType this realm = (Ok type, realm) ->
        type <> NullValue /\ type <> UndefinedValue
        /\ (type = ObjectValue -> instanceofAbstractObjectValue v = true)).
Proof.
  intros Hwf Hv. destruct (Hwf this v Hv) as (Hp & Hn & Hu & Ho). split.
  - unfold AbstractValue.mightBeUndefined. apply same_class_false in Hu.
    run_realm. reflexivity.
  - intros type. unfold AbstractValue.getType. run_realm. intros [= <-]. auto.
Qed.

End AbstractValueFurther.

Lemma getIdentifier_spec_witness :
  objects Demo.realm1 !! Demo.value1 = Some (AbstractObject Demo.abstract1)
  /\ AbstractValue.getIdentifier Demo.value1 Demo.realm1
     = (Ok (t.identifier "x"), Demo.realm1).
Proof.
  split; [reflexivity|].
  apply (getIdentifier_spec Demo.realm1 Demo.value1 Demo.abstract1 eq_refl). reflexivity.
Defined.

Lemma mightBeObject_spec_witness :
  objects Demo.realm1 !! Demo.value1 = Some (AbstractObject Demo.abstract1)
  /\ AbstractValue.mightBeObject Demo.value1 Demo.realm1 = (Ok false, Demo.realm1)
  /\ AbstractValue.mightNotBeObject Demo.value1 Demo.realm1 = (Ok true, Demo.realm1).
Proof.
  split; [reflexivity|].
  destruct (mightBeObject_spec Demo.realm1 Demo.value1 Demo.abstract1 eq_refl)
    as (_ & Hslow & _).
  apply Hslow. discriminate.
Defined.

Lemma wellFormed_preserved_witness :
  wellFormed (snd (newValueArray [] Demo.realm0)) /\ wellFormed Demo.realm1.
Proof.
  assert (Hwf : wellFormed (snd (newValueArray [] Demo.realm0))).
  { intros l a Hl. cbn in Hl.
    apply lookup_insert_Some in Hl as [[_ Hl]|[_ Hl]]; [discriminate|].
    apply lookup_insert_Some in Hl as [[_ Hl]|[_ Hl]]; [discriminate|].
    rewrite lookup_empty in Hl. discriminate. }
  split; [exact Hwf|].
  destruct (wellFormed_preserved (snd (newValueArray [] Demo.realm0)) Hwf) as [Hc _].
  exact (Hc false (mkTypesDomain NumberValue) (Some [NumberValue; EmptyValue]) 1%positive
           (FixedNode (t.identifier "x")) (Some "derived") (Some "x")).
Defined.

(** The concrete realms are well-formed. *)
Lemma demo_realm1_wellFormed : wellFormed Demo.realm1.
Proof.
  apply (preservesWellFormed_constructor false (mkTypesDomain NumberValue)
           (Some [NumberValue; EmptyValue]) 1%positive (FixedNode (t.identifier "x"))
           (Some "derived") (Some "x") (snd (newValueArray [] Demo.realm0))).
  intros l a Hl. cbn in Hl.
  apply lookup_insert_Some in Hl as [[_ Hl]|[_ Hl]]; [discriminate|].
  apply lookup_insert_Some in Hl as [[_ Hl]|[_ Hl]]; [discriminate|].
  rewrite lookup_empty in Hl. discriminate.
Qed.

Lemma plain_value_clones_witness :
  objects Demo.realm1 !! Demo.value1 = Some (AbstractObject Demo.abstract1)
  /\ (exists result realm' c,
        AbstractValue.clone Demo.value1 Demo.realm1 = (Ok result, realm')
        /\ objects realm' !! result = Some (AbstractObject c)
        /\ instanceofAbstractObjectValue c = false
        /\ wellFormed realm').
Proof.
  split; [reflexivity|].
  exact (proj1 (plain_value_clones Demo.realm1 Demo.value1 Demo.abstract1
                  demo_realm1_wellFormed eq_refl eq_refl)).
Defined.

Lemma promoteEmptyToUndefined_twice_witness :
  ValuesDomain.includesValueOfType (values Demo.abstract1) EmptyValue = true
  /\ exists result realm',
       AbstractValue.promoteEmptyToUndefined Demo.value1 Demo.realm1 = (Ok result, realm')
       /\ AbstractValue.promoteEmptyToUndefined result realm' = (Ok result, realm').
Proof.
  split; [reflexivity|].
  apply (promoteEmptyToUndefined_twice Demo.realm1 Demo.value1 Demo.abstract1);
    first [reflexivity | discriminate].
Defined.

Lemma mightBeUndefined_wellFormed_witness :
  AbstractValue.mightBeUndefined Demo.value1 Demo.realm1 = (Ok false, Demo.realm1).
Proof.
  exact (proj1 (mightBeUndefined_wellFormed Demo.realm1 Demo.value1 Demo.abstract1
                  demo_realm1_wellFormed eq_refl)).
Defined.

(** ** The effect recorder *)

Section GeneratorFurther.

Context {VD : Type} `{!ValuesDomain.Algebra VD}.

Lemma wellTyped_extends (realm realm' : Realm VD) (e : Emit) :
  extends realm realm' -> wellTyped realm e -> wellTyped realm' e.
Proof.
  intros (_ & _ & _ & Hobj & _) Htyped v Hv.
  destruct (Htyped v Hv) as (o & Ho & Hval). exists o. auto.
Qed.

Lemma records_extends (realm realm' : Realm VD) (pg : positive) (e : Emit)
    (entry : Generator.BodyEntry) :
  extends realm realm' -> records realm pg e entry -> records realm' pg e entry.
Proof.
  intros (_ & _ & Hintr & Hobj & Harr) [Hd Hrec]. split; [exact Hd|].
  destruct e as [key value|key value|key|object key value|object key desc|object key
                |str|args cond]; cbn [records] in *; rewrite ?Hintr;
    try (destruct Hrec as [Ha Hb]; split; [now apply Harr|exact Hb]).
  - destruct Hrec as (strn & Ha & Ho & Hb). exists strn. auto.
  - exact Hrec.
Qed.

(** Replaying entries whose statements do not go through the prelude
    generator, each on one node per dependency. *)
Lemma replay_records (realm : Realm VD) (pg : positive) (resolve : positive -> list t.Expr)
    (es : list Emit) (entries : list Generator.BodyEntry) (h : Heap) :
  Forall2 (records realm pg) es entries ->
  forallb replaysPurely es = true ->
  (forall l content, arrays realm !! l = Some content ->
                     length (resolve l) = length content) ->
  replay (map (fun entry => Generator.buildNode entry (resolve (Generator.args entry)))
            entries) h
  = (Ok (zip_with (fun e entry => statementOf e (resolve (Generator.args entry)))
           es entries), h).
Proof.
  intros Hall Hpure Hresolve. induction Hall as [|e entry es entries [_ Hrec] _ IH];
    [reflexivity|].
  cbn [forallb] in Hpure. apply andb_prop in Hpure as [He Hrest].
  cbn [map replay zip_with]. unfold bind, ret.
  assert (Hbuild : Generator.buildNode entry (resolve (Generator.args entry)) h
                   = (Ok (statementOf e (resolve (Generator.args entry))), h)).
  { destruct e as [key value|key value|key|object key value|object key desc|object key
                  |str|args cond]; cbn [records replaysPurely] in *;
      try (destruct Hrec as [Ha Hb]; apply Hb; now apply Hresolve).
    - rewrite He in Hrec. destruct Hrec as [Ha Hb].
      pose proof (Hresolve _ _ Ha) as Hlen. cbn [dependenciesOf] in Hlen.
      rewrite He in Hlen.
      destruct (resolve (Generator.args entry)) as [|o [|v [|]]]; try discriminate.
      apply Hb.
    - destruct Hrec as (strn & Ha & _ & Hb). pose proof (Hresolve _ _ Ha) as Hlen.
      destruct (resolve (Generator.args entry)) as [|n [|]]; try discriminate. apply Hb. }
  rewrite Hbuild, (IH Hrest). reflexivity.
Qed.

(** X10: a sequence of [emit*] calls whose inputs are well typed returns; it
    appends one entry per call to the body, in the order of the calls: the
    entry at each position holds the dependencies and builds the statement of
    the call at that position. No entry declares an identifier, what the
    realm held is still there and the store of the prelude generators is
    untouched, so that [empty()] answers true afterwards only if it did
    before and nothing was emitted. If no call is an [emitDefineProperty] with
    a descriptor that needs [Object.defineProperty], replaying the new
    entries, each on one node per dependency, gives the statements of the
    calls, in their order, and leaves the prelude generator as it is. *)
Theorem emits_append_in_order (es : list Emit) (g : Generator.Generator VD) :
  Forall (wellTyped (Generator.realm g)) es ->
  exists g' entries,
    perform (map OpEmit es) g = (Ok tt, g')
    /\ Generator.body g' = Generator.body g ++ entries
    /\ Forall2 (records (Generator.realm g') (Generator.preludeGenerator g)) es entries
    /\ declaredIds entries = []
    /\ extends (Generator.realm g) (Generator.realm g')
    /\ Generator.preludeGenerator g' = Generator.preludeGenerator g
    /\ Generator.empty g' = Generator.empty g && Nat.eqb (length es) 0
    /\ (forallb replaysPurely es = true ->
        forall (resolve : positive -> list t.Expr) (h : Heap),
          (forall l content, arrays (Generator.realm g') !! l = Some content ->
                             length (resolve l) = length content) ->
          replay (map (fun entry =>
                         Generator.buildNode entry (resolve (Generator.args entry)))
                    entries) h
          = (Ok (zip_with (fun e entry => statementOf e (resolve (Generator.args entry)))
                   es entries), h)).
Proof.
  revert g. induction es as [|e rest IH]; intros g Htyped.
  - exists g, []. split; [reflexivity|]. split; [now rewrite app_nil_r|].
    split; [constructor|]. split; [reflexivity|]. split; [apply extends_refl|].
    split; [reflexivity|]. split; [cbn; now rewrite andb_true_r|].
    intros _ resolve h _. reflexivity.
  - apply Forall_cons in Htyped as [He Hrest].
    destruct (emit_outcome e g)
      as [(Hbad & _)|(_ & entry & realm1 & Hrun & Hext & _ & Hrec)]; [contradiction|].
    destruct (IH (Generator.mkGenerator realm1 (Generator.body g ++ [entry])
                    (Generator.preludeGenerator g)))
      as (g' & entries & Hrun' & Hb & Hrecs & Hds & Hext' & Hpg & Hempty & _).
    { eapply Forall_impl; [exact Hrest|]. intros e'. now apply wellTyped_extends. }
    cbn [Generator.body Generator.realm Generator.preludeGenerator] in *.
    assert (Hall : Forall2 (records (Generator.realm g') (Generator.preludeGenerator g))
                     (e :: rest) (entry :: entries)).
    { constructor; [eapply records_extends; eauto|exact Hrecs]. }
    exists g', (entry :: entries).
    split; [cbn [map perform perform1]; unfold bind; rewrite Hrun; exact Hrun'|].
    split; [rewrite Hb, <- app_assoc; reflexivity|].
    split; [exact Hall|].
    split; [unfold declaredIds in *; cbn; destruct Hrec as [-> _]; exact Hds|].
    split; [eapply extends_trans; eauto|]. split; [assumption|].
    split.
    { unfold Generator.empty. rewrite Hb, !length_app. cbn.
      rewrite andb_false_r. apply Nat.eqb_neq. lia. }
    intros Hpure resolve h Hresolve. now apply (replay_records (Generator.realm g')
      (Generator.preludeGenerator g)).
Qed.

(** X11: [derive] with a node in place of a closure and a non-empty array of
    dependencies raises the internal-consistency fault before doing anything:
    the generator, its realm and its prelude generator are as they were, and
    no identifier has been used up. *)
Theorem derive_rejects_node_with_dependencies (types : TypesDomain) (values : VD)
    (args : positive) (node : t.Expr) (kind : option string)
    (g : Generator.Generator VD) (x : positive) (rest : list positive) :
  arrays (Generator.realm g) !! args = Some (x :: rest) ->
  Generator.derive types values args (FixedNode node) kind g = (Throw InvariantViolation, g).
Proof. intros Ha. rewrite derive_stopped, Ha. reflexivity. Qed.

(** X12: when [derive] is called outside partial mode, or with the null or the
    undefined class as the type, the fault comes from the constructor of the
    value, after the declaration was recorded: the body ends with a
    declaration of the new identifier, the identifier is among the derived
    identifiers and the counter has been incremented, but no value was created and no
    check was recorded. *)
Theorem derive_fault_leaves_declaration (types : TypesDomain) (values : VD)
    (args : positive) (buildNode_ : BuildNode) (kind : option string)
    (g : Generator.Generator VD) (pv : PGView) :
  view (heap (Generator.realm g)) (Generator.preludeGenerator g) = Some pv ->
  instanceofFunction buildNode_ = true \/ arrays (Generator.realm g) !! args = Some [] ->
  isPartial (Generator.realm g) = false
  \/ getType types = NullValue \/ getType types = UndefinedValue ->
  let id := t.identifier (uid (uidCounterOf pv)) in
  exists g' declaration,
    Generator.derive types values args buildNode_ kind g = (Throw InvariantViolation, g')
    /\ Generator.body g' = Generator.body g ++ [declaration]
    /\ Generator.declaresDerivedId declaration = Some id
    /\ Generator.args declaration = args
    /\ (forall nodes h,
          Generator.buildNode declaration nodes h
          = (Ok (t.variableDeclaration "var"
                   [t.variableDeclarator id (applyRecipe buildNode_ nodes)]), h))
    /\ view (heap (Generator.realm g')) (Generator.preludeGenerator g')
       = Some (mkPGView (preludeOf pv) (derivedIdsOf pv ++ [id]) (memoisedRefsOf pv)
                 (increment (uidCounterOf pv)))
    /\ objects (Generator.realm g') = objects (Generator.realm g)
    /\ arrays (Generator.realm g') = arrays (Generator.realm g).
Proof.
  intros Hv Hpre Hbad id.
  destruct (derive_aborts types values args buildNode_ kind g pv Hv Hpre Hbad)
    as (g' & Hrun & Hbody & Hv' & _ & Ho & Ha & _).
  eexists g', _. split; [exact Hrun|]. split; [exact Hbody|].
  split; [reflexivity|]. split; [reflexivity|]. split; [reflexivity|]. auto.
Qed.

(** X13: for a type that is none of the classes [derive] has a [typeof] tag
    for (and is not the null or the undefined class), [derive] records the
    declaration and nothing else: no check follows it, and no array of
    dependencies is allocated for one. *)
Theorem derive_without_check (types : TypesDomain) (values : VD) (args : positive)
    (buildNode_ : BuildNode) (kind : option string) (g : Generator.Generator VD)
    (pv : PGView) :
  isPartial (Generator.realm g) = true ->
  view (heap (Generator.realm g)) (Generator.preludeGenerator g) = Some pv ->
  instanceofFunction buildNode_ = true \/ arrays (Generator.realm g) !! args = Some [] ->
  typeofTag (getType types) = None ->
  getType types <> NullValue -> getType types <> UndefinedValue ->
  let name := uid (uidCounterOf pv) in
  exists res g' declaration,
    Generator.derive types values args buildNode_ kind g = (Ok res, g')
    /\ Generator.body g' = Generator.body g ++ [declaration]
    /\ Generator.declaresDerivedId declaration = Some (t.identifier name)
    /\ arrays (Generator.realm g') = arrays (Generator.realm g)
    /\ objects (Generator.realm g) !! res = None
    /\ objects (Generator.realm g') !! res
       = Some (AbstractObject
                 (mkAbstractValue false (Some name) types values args
                    (FixedNode (t.identifier name)) kind)).
Proof.
  intros Hp Hv Hpre Htag Hn Hu name.
  destruct (derive_untagged_run types values args buildNode_ kind g pv Hp Hv Hpre Htag Hn Hu)
    as (res & g' & Hrun & Hfresh & Hbody & Hres & _ & _ & _ & Ha).
  eexists res, g', _. split; [exact Hrun|]. split; [exact Hbody|].
  split; [reflexivity|]. auto.
Qed.

(** X14: for the function, string, boolean, number and symbol classes the
    check [derive] records after the declaration is on the new value alone
    and compares the [typeof] of its node with the tag of the class: on a
    variable, the condition is true, so that the check throws, exactly when
    the [typeof] of what the variable holds is not the tag. *)
Theorem derive_check_compares_typeof (types : TypesDomain) (values : VD)
    (args : positive) (buildNode_ : BuildNode) (kind : option string)
    (g : Generator.Generator VD) (pv : PGView) (tag : string) :
  isPartial (Generator.realm g) = true ->
  view (heap (Generator.realm g)) (Generator.preludeGenerator g) = Some pv ->
  instanceofFunction buildNode_ = true \/ arrays (Generator.realm g) !! args = Some [] ->
  typeofTag (getType types) = Some tag ->
  getType types <> ObjectValue ->
  exists res g' declaration check,
    Generator.derive types values args buildNode_ kind g = (Ok res, g')
    /\ Generator.body g' = Generator.body g ++ [declaration; check]
    /\ Generator.declaresDerivedId check = None
    /\ arrays (Generator.realm g') !! Generator.args check = Some [res]
    /\ (forall (name : string) (v : RuntimeValue) (h : Heap),
        exists condition,
          Generator.buildNode check [t.identifier name] h
          = (Ok (Generator.invariantStatement condition), h)
          /\ evalCondition name v condition
             = Some (negb (String.eqb (typeofResult v) tag))).
Proof.
  intros Hp Hv Hpre Htag Hno.
  destruct (derive_run types values args buildNode_ kind g pv tag Hp Hv Hpre Htag)
    as (res & checked & g' & Hrun & _ & _ & Hbody & Hchecked & _).
  eexists res, g', _, _. split; [exact Hrun|]. split; [exact Hbody|].
  split; [reflexivity|]. split; [exact Hchecked|].
  intros name v h. eexists. split; [reflexivity|].
  destruct (getType types); try discriminate; try contradiction;
    injection Htag as <-; cbn; rewrite String.eqb_refl; reflexivity.
Qed.

(** X15: the value [derive] returns stands for the variable it declared:
    [hasIdentifier()] is true of it, [getIdentifier()] and [buildNode(...)],
    whatever the nodes, give the declared identifier, its [intrinsicName] is
    the name of that identifier and [getType()] is the type passed in; it is
    an object-specialised value exactly when the type is the object class. *)
Theorem derived_value_is_its_identifier (types : TypesDomain) (values : VD)
    (args : positive) (buildNode_ : BuildNode) (kind : option string)
    (g : Generator.Generator VD) (pv : PGView) :
  isPartial (Generator.realm g) = true ->
  view (heap (Generator.realm g)) (Generator.preludeGenerator g) = Some pv ->
  instanceofFunction buildNode_ = true \/ arrays (Generator.realm g) !! args = Some [] ->
  getType types <> NullValue -> getType types <> UndefinedValue ->
  let name := uid (uidCounterOf pv) in
  let id := t.identifier name in
  exists res g' a,
    Generator.derive types values args buildNode_ kind g = (Ok res, g')
    /\ objects (Generator.realm g') !! res = Some (AbstractObject a)
    /\ intrinsicName a = Some name
    /\ instanceofAbstractObjectValue a = same_class (getType types) ObjectValue
    /\ AbstractValue.hasIdentifier res (Generator.realm g') = (Ok true, Generator.realm g')
    /\ AbstractValue.getIdentifier res (Generator.realm g') = (Ok id, Generator.realm g')
    /\ (forall nodes,
          AbstractValue.buildNode res nodes (Generator.realm g')
          = (Ok id, Generator.realm g'))
    /\ AbstractValue.getType res (Generator.realm g')
       = (Ok (getType types), Generator.realm g')
    /\ (exists declaration rest,
          Generator.body g' = Generator.body g ++ declaration :: rest
          /\ Generator.declaresDerivedId declaration = Some id).
Proof.
  intros Hp Hv Hpre Hn Hu name id.
  assert (Hres : exists res g' a,
             Generator.derive types values args buildNode_ kind g = (Ok res, g')
             /\ objects (Generator.realm g') !! res = Some (AbstractObject a)
             /\ a = mkAbstractValue (same_class (getType types) ObjectValue) (Some name)
                      types values args (FixedNode id) kind
             /\ (exists declaration rest,
                   Generator.body g' = Generator.body g ++ declaration :: rest
                   /\ Generator.declaresDerivedId declaration = Some id)).
  { destruct (typeofTag (getType types)) as [tag|] eqn:Htag.
    - destruct (derive_run types values args buildNode_ kind g pv tag Hp Hv Hpre Htag)
        as (res & checked & g' & Hrun & _ & _ & Hbody & _ & Hobj & _).
      eexists res, g', _. split; [exact Hrun|]. split; [exact Hobj|].
      split; [reflexivity|]. eexists _, _. split; [exact Hbody|reflexivity].
    - destruct (derive_untagged_run types values args buildNode_ kind g pv
                  Hp Hv Hpre Htag Hn Hu)
        as (res & g' & Hrun & _ & Hbody & Hobj & _).
      assert (Ho : same_class (getType types) ObjectValue = false).
      { apply same_class_false. intros E. rewrite E in Htag. discriminate. }
      eexists res, g', _. split; [exact Hrun|]. split; [exact Hobj|].
      split; [now rewrite Ho|]. eexists _, _. split; [exact Hbody|reflexivity]. }
  destruct Hres as (res & g' & a & Hrun & Hobj & -> & Hdecl).
  eexists res, g', _. split; [exact Hrun|]. split; [exact Hobj|].
  split; [reflexivity|]. split; [reflexivity|].
  unfold AbstractValue.getIdentifier, AbstractValue.hasIdentifier, AbstractValue.buildNode,
    AbstractValue.getType, readAbstract, invariant, bind, getState, ret.
  repeat (rewrite Hobj; cbn).
  split; [reflexivity|]. split; [reflexivity|]. split; [intros nodes; reflexivity|].
  split; [reflexivity|exact Hdecl].
Qed.

(** X16: however a sequence of [emit*] and [derive] calls on a generator ends,
    with the last call returning or with a fault in the middle, the
    identifiers declared by the entries it added to the body are the
    identifiers it added to the derived identifiers of the prelude generator,
    in the same order; the prelude and the memo table are as before and the
    counter is not below where it was. As long as the counter does not pass
    [2^53] on the way, it has advanced by the number of these identifiers,
    they are named by its successive values, and they are pairwise
    distinct. *)
Theorem recording_keeps_body_and_derivedIds_in_step (ops : list (GenOp VD))
    (g : Generator.Generator VD) (pv : PGView) :
  view (heap (Generator.realm g)) (Generator.preludeGenerator g) = Some pv ->
  exists r g' entries pv',
    perform ops g = (r, g')
    /\ Generator.body g' = Generator.body g ++ entries
    /\ view (heap (Generator.realm g')) (Generator.preludeGenerator g') = Some pv'
    /\ derivedIdsOf pv' = derivedIdsOf pv ++ declaredIds entries
    /\ preludeOf pv' = preludeOf pv
    /\ memoisedRefsOf pv' = memoisedRefsOf pv
    /\ uidCounterOf pv <= uidCounterOf pv'
    /\ (uidCounterOf pv + N.of_nat (length (declaredIds entries)) <= 2 ^ 53 ->
        declaredIds entries = mintedRun (uidCounterOf pv) (length (declaredIds entries))
        /\ uidCounterOf pv' = uidCounterOf pv + N.of_nat (length (declaredIds entries))
        /\ NoDup (declaredIds entries)).
Proof.
  intros Hv. change (2 ^ 53) with maxCounter.
  destruct (perform_always ops g pv Hv)
    as (r & g' & entries & pv' & Hrun & Hb & _ & _ & Hv' & Hp & Hm & Hd & Hle & Hbound).
  exists r, g', entries, pv'. repeat (split; [assumption|]).
  intros Hb'. destruct (Hbound Hb') as [Hc Hr].
  split; [exact Hr|]. split; [exact Hc|]. rewrite Hr. apply mintedRun_NoDup.
Qed.

(** Well-formedness of the realm through the operations of a generator. *)

Lemma keeps_ret {A : Type} (a : A) :
  keepsRealmWellFormed (ret a : M (Generator.Generator VD) A).
Proof. intros g Hwf. exact Hwf. Qed.

Lemma keeps_bind {A B : Type} (m : M (Generator.Generator VD) A)
    (k : A -> M (Generator.Generator VD) B) :
  keepsRealmWellFormed m -> (forall a, keepsRealmWellFormed (k a)) ->
  keepsRealmWellFormed (bind m k).
Proof.
  intros Hm Hk g Hwf. unfold bind. specialize (Hm g Hwf).
  destruct (m g) as [[a|f] g']; cbn [snd] in *; [now apply Hk|exact Hm].
Qed.

Lemma keeps_invariant (b : bool) :
  keepsRealmWellFormed (invariant b : M (Generator.Generator VD) unit).
Proof. intros g Hwf. destruct b; exact Hwf. Qed.

Lemma keeps_onRealm {A : Type} (m : M (Realm VD) A) :
  preservesWellFormed m -> keepsRealmWellFormed (Generator.onRealm m).
Proof.
  intros Hm g Hwf. unfold Generator.onRealm, zoom. specialize (Hm _ Hwf).
  destruct (m (Generator.realm g)) as [r realm']. exact Hm.
Qed.

Lemma keeps_push (entry : Generator.BodyEntry) :
  keepsRealmWellFormed (Generator.push entry : M (Generator.Generator VD) unit).
Proof. intros g Hwf. exact Hwf. Qed.

Lemma preservesWellFormed_onHeap {A : Type} (m : M Heap A) :
  preservesWellFormed (onHeap m : M (Realm VD) A).
Proof.
  intros realm Hwf. unfold onHeap, zoom. destruct (m (heap realm)) as [r h'].
  now apply wellFormed_set_heap.
Qed.

Lemma preservesWellFormed_readValueArray (a : positive) :
  preservesWellFormed (readValueArray a : M (Realm VD) (list positive)).
Proof.
  intros realm Hwf. unfold readValueArray, bind, getState.
  destruct (arrays realm !! a); exact Hwf.
Qed.

Lemma keeps_derive (types : TypesDomain) (values : VD) (args : positive)
    (buildNode_ : BuildNode) (kind : option string) :
  keepsRealmWellFormed (Generator.derive types values args buildNode_ kind).
Proof.
  unfold Generator.derive.
  apply keeps_bind.
  { destruct (instanceofFunction buildNode_); [apply keeps_ret|].
    apply keeps_bind; [apply keeps_onRealm, preservesWellFormed_readValueArray|].
    intros content. apply keeps_invariant. }
  intros _. apply keeps_bind; [intros g Hwf; exact Hwf|]. intros this.
  apply keeps_bind; [apply keeps_onRealm, preservesWellFormed_onHeap|]. intros name.
  apply keeps_bind; [apply keeps_onRealm, preservesWellFormed_onHeap|]. intros _.
  apply keeps_bind; [apply keeps_push|]. intros _.
  apply keeps_bind; [apply keeps_onRealm, preservesWellFormed_constructor|]. intros res.
  apply keeps_bind; [apply keeps_onRealm; now apply preservesWellFormed_assignAbstract|].
  intros _. apply keeps_bind.
  { unfold Generator.typeofStringOf.
    repeat (destruct (same_class _ _));
      first [apply keeps_ret
            |apply keeps_bind; [apply keeps_invariant|intros; apply keeps_ret]]. }
  intros [s|]; (apply keeps_bind; [|intros; apply keeps_ret]); [|apply keeps_ret].
  apply keeps_bind; [apply keeps_onRealm, preservesWellFormed_newValueArray|].
  intros checked. apply keeps_push.
Qed.

Lemma keeps_perform (ops : list (GenOp VD)) : keepsRealmWellFormed (perform ops).
Proof.
  induction ops as [|op rest IH]; [apply keeps_ret|]. cbn [perform].
  apply keeps_bind; [|intros; exact IH].
  destruct op as [e|types values args buildNode_ kind]; cbn [perform1].
  - intros g Hwf.
    destruct (emit_outcome e g) as [(_ & f & ->)|(_ & entry & realm' & -> & _ & Hk & _)];
      [exact Hwf|now apply Hk].
  - apply keeps_bind; [apply keeps_derive|intros; apply keeps_ret].
Qed.

(** X17: [derive], the [emit*] operations and any sequence of them keep the
    realm well-formed, whether they return or a fault ends them: every
    symbolic value found in the realm afterwards, those [derive] created
    included, has passed the checks of the constructor, having a type that is
    neither the null nor the undefined class and being object-specialised if
    its type is the object class. *)
Theorem recording_keeps_realm_wellFormed (g : Generator.Generator VD) :
  wellFormed (Generator.realm g) ->
  (forall types values args buildNode_ kind,
     wellFormed (Generator.realm
                   (snd (Generator.derive types values args buildNode_ kind g))))
  /\ (forall ops, wellFormed (Generator.realm (snd (perform ops g)))).
Proof.
  intros Hwf. split; intros.
  - now apply keeps_derive.
  - now apply keeps_perform.
Qed.

End GeneratorFurther.

Lemma emits_append_in_order_witness :
  let desc :=
    Descriptor.mkDescriptor (Some true) (Some true) (Some true) (Some Demo.value1)
      None None in
  let es := [EmitGlobalDeclaration "a" Demo.value1;
             EmitDefineProperty Demo.value1 "p" desc;
             EmitConsoleLog "done"] in
  Forall (wellTyped (Generator.realm Demo.generator1)) es
  /\ exists g' entries,
       perform (map OpEmit es) Demo.generator1 = (Ok tt, g')
       /\ Generator.body g' = entries
       /\ Forall2 (records (Generator.realm g') Demo.pg) es entries.
Proof.
  intros desc es.
  assert (Htyped : Forall (wellTyped (Generator.realm Demo.generator1)) es).
  { repeat constructor; intros v Hv; try discriminate.
    injection Hv as <-. eexists. split; reflexivity. }
  split; [exact Htyped|].
  destruct (emits_append_in_order es Demo.generator1 Htyped)
    as (g' & entries & Hrun & Hbody & Hrecs & _).
  exists g', entries. auto.
Defined.

Lemma derive_rejects_node_with_dependencies_witness :
  let g := Generator.mkGenerator (snd (newValueArray [Demo.value1] Demo.realm1)) [] Demo.pg in
  arrays (Generator.realm g) !! 2%positive = Some [Demo.value1]
  /\ Generator.derive (mkTypesDomain NumberValue) (Some [NumberValue]) 2%positive
       (FixedNode (t.identifier "y")) None g
     = (Throw InvariantViolation, g).
Proof.
  split; [reflexivity|].
  apply (derive_rejects_node_with_dependencies (mkTypesDomain NumberValue)
           (Some [NumberValue]) 2%positive (t.identifier "y") None _ Demo.value1 []).
  reflexivity.
Defined.

Lemma derive_fault_leaves_declaration_witness :
  view (heap (Generator.realm Demo.generator1)) (Generator.preludeGenerator Demo.generator1)
  = Some (mkPGView [] [] ∅ 0)
  /\ exists g' declaration,
       Generator.derive (mkTypesDomain NullValue) (Some [NullValue]) 1%positive
         (FixedNode (t.identifier "y")) None Demo.generator1
       = (Throw InvariantViolation, g')
       /\ Generator.body g' = [declaration]
       /\ Generator.declaresDerivedId declaration = Some (t.identifier "_0")
       /\ objects (Generator.realm g') = objects Demo.realm1.
Proof.
  split; [reflexivity|].
  destruct (derive_fault_leaves_declaration (mkTypesDomain NullValue) (Some [NullValue])
              1%positive (FixedNode (t.identifier "y")) None Demo.generator1
              (mkPGView [] [] ∅ 0) eq_refl (or_intror eq_refl)
              (or_intror (or_introl eq_refl)))
    as (g' & declaration & Hrun & Hbody & Hd & _ & _ & _ & Ho & _).
  exists g', declaration. auto.
Defined.

Lemma derive_without_check_witness :
  typeofTag (getType (mkTypesDomain Value)) = None
  /\ exists res g' declaration,
       Generator.derive (mkTypesDomain Value) None 1%positive
         (FixedNode (t.identifier "y")) None Demo.generator1 = (Ok res, g')
       /\ Generator.body g' = [declaration]
       /\ Generator.declaresDerivedId declaration = Some (t.identifier "_0").
Proof.
  split; [reflexivity|].
  destruct (derive_without_check (mkTypesDomain Value) None
              1%positive (FixedNode (t.identifier "y")) None Demo.generator1
              (mkPGView [] [] ∅ 0) eq_refl eq_refl (or_intror eq_refl) eq_refl)
    as (res & g' & declaration & Hrun & Hbody & Hd & _); [discriminate|discriminate|].
  exists res, g', declaration. auto.
Defined.

Lemma derive_check_compares_typeof_witness :
  typeofTag (getType (mkTypesDomain StringValue)) = Some "string"
  /\ exists res g' declaration check,
       Generator.derive (mkTypesDomain StringValue) (Some [StringValue]) 1%positive
         (FixedNode (t.identifier "y")) None Demo.generator1 = (Ok res, g')
       /\ Generator.body g' = [declaration; check]
       /\ exists condition,
            Generator.buildNode check [t.identifier "_0"] emptyHeap
            = (Ok (Generator.invariantStatement condition), emptyHeap)
            /\ evalCondition "_0" rtNumber condition = Some true
            /\ evalCondition "_0" rtString condition = Some false.
Proof.
  split; [reflexivity|].
  destruct (derive_check_compares_typeof (mkTypesDomain StringValue) (Some [StringValue])
              1%positive (FixedNode (t.identifier "y")) None Demo.generator1
              (mkPGView [] [] ∅ 0) "string" eq_refl eq_refl (or_intror eq_refl) eq_refl)
    as (res & g' & declaration & check & Hrun & Hbody & _ & _ & Hcheck); [discriminate|].
  exists res, g', declaration, check. split; [exact Hrun|]. split; [exact Hbody|].
  destruct (Hcheck "_0" rtNumber emptyHeap) as (condition & Hb & Hnum).
  destruct (Hcheck "_0" rtString emptyHeap) as (condition' & Hb' & Hstr).
  unfold Generator.invariantStatement in Hb, Hb'. rewrite Hb in Hb'.
  injection Hb' as Hsame. subst condition'.
  exists condition. auto.
Defined.

Lemma derived_value_is_its_identifier_witness :
  isPartial (Generator.realm Demo.generator1) = true
  /\ exists res g',
       Generator.derive (mkTypesDomain NumberValue) (Some [NumberValue]) 1%positive
         (FixedNode (t.identifier "y")) None Demo.generator1 = (Ok res, g')
       /\ AbstractValue.getIdentifier res (Generator.realm g')
          = (Ok (t.identifier "_0"), Generator.realm g').
Proof.
  split; [reflexivity|].
  destruct (derived_value_is_its_identifier (mkTypesDomain NumberValue)
              (Some [NumberValue]) 1%positive (FixedNode (t.identifier "y")) None
              Demo.generator1 (mkPGView [] [] ∅ 0) eq_refl eq_refl (or_intror eq_refl))
    as (res & g' & a & Hrun & _ & _ & _ & _ & Hid & _); [discriminate|discriminate|].
  exists res, g'. auto.
Defined.

Lemma recording_keeps_body_and_derivedIds_in_step_witness :
  let ops := [OpEmit (EmitGlobalDelete "a");
              OpDerive (mkTypesDomain NumberValue) (Some [NumberValue]) 1%positive
                (FixedNode (t.identifier "y")) None;
              OpDerive (mkTypesDomain NullValue) (Some [NullValue]) 1%positive
                (FixedNode (t.identifier "z")) None;
              OpEmit (EmitGlobalDelete "b")] in
  view (heap (Generator.realm Demo.generator1)) (Generator.preludeGenerator Demo.generator1)
  = Some (mkPGView [] [] ∅ 0)
  /\ exists r g' pv',
       perform ops Demo.generator1 = (r, g')
       /\ view (heap (Generator.realm g')) (Generator.preludeGenerator g') = Some pv'
       /\ derivedIdsOf pv' = declaredIds (Generator.body g')
       /\ NoDup (declaredIds (Generator.body g')).
Proof.
  intros ops. split; [reflexivity|].
  destruct (recording_keeps_body_and_derivedIds_in_step ops Demo.generator1
              (mkPGView [] [] ∅ 0) eq_refl)
    as (r & g' & entries & pv' & Hrun & Hbody & Hv & Hd & _ & _ & _ & Hnd).
  exists r, g', pv'. split; [exact Hrun|]. split; [exact Hv|].
  cbn in Hbody, Hd. rewrite Hbody. split; [exact Hd|].
  vm_compute in Hrun. injection Hrun as <- <-. cbn in Hbody. subst entries.
  apply Hnd. vm_compute. discriminate.
Defined.

Lemma recording_keeps_realm_wellFormed_witness :
  wellFormed Demo.realm1
  /\ wellFormed
       (Generator.realm
          (snd (Generator.derive (mkTypesDomain ObjectValue) None 1%positive
                  (FixedNode (t.identifier "y")) None Demo.generator1))).
Proof.
  split; [exact demo_realm1_wellFormed|].
  apply (recording_keeps_realm_wellFormed Demo.generator1 demo_realm1_wellFormed).
Defined.
